(** * EncryptionUtils: secure byte buffers, ROMix, AES-CFB and ECDSA

    A shallow embedding of [cppForSwig/EncryptionUtils.h].  The header
    defines the [mlock]/[munlock] macros and the inline members of
    [SecureBinaryData] (constructors, destructor, [resize], [reserve],
    [getRawCopy], [lockData], [destroy]), and declares [KdfRomix],
    [CryptoAES] and [CryptoECDSA].

    Layout of the development:
    - the process memory the buffers live in: heap blocks that keep their
      bytes after they are freed, the addresses the allocator gave them,
      the pages the kernel holds locked, the trace of allocator and system
      calls;
    - [BinaryData], the base class, and [SecureBinaryData] on top of it;
    - the key derivation, the cipher mode and the signature scheme;
    - the theorems, in the same order. *)

From Stdlib Require Import ZArith Zcong List Lia Bool String.
From stdpp Require Import base option list gmap.

Local Open Scope nat_scope.

(** ** Process memory *)

(** A heap block is named by the number of the allocation that made it. *)
Definition block := nat.

(** [uint8_t] values are integers in [0, 256). *)
Definition uint8 (z : Z) : Z := (z mod 256)%Z.

(** The bytes of a block stay readable in the model after [free]: what a
    released allocation still holds is what zeroization is about. *)
Record storage := Storage { bytes : list Z; live : bool }.

Inductive event :=
| EvMalloc (b : block) (n : nat)
| EvFree (b : block)
| EvMlock (b : block) (n : nat) (granted : bool)
| EvMunlock (b : block) (n : nat)
| EvLog (msg : string).

(** [place] is the choice of the allocator, the address of the first byte
    of each block; [page_bits] fixes the page size of the system,
    [PAGESIZE = 2 ^ page_bits]; [locked] holds the numbers of the pages the
    kernel keeps locked.  [kernel] is the answer of the operating system to
    [mlock(p, n)]: the call fails when the lock budget of the process is
    used up or the process lacks the privilege. *)
Record process := Process {
  heap : gmap block storage;
  next_block : block;
  place : block -> Z;
  page_bits : nat;
  locked : gset Z;
  kernel : block -> nat -> bool;
  trace : list event
}.

Definition PAGESIZE (s : process) : Z := (2 ^ Z.of_nat (page_bits s))%Z.

Definition boot_at (pl : block -> Z) (bits : nat) (k : block -> nat -> bool)
  : process :=
  {| heap := ∅; next_block := 0; place := pl; page_bits := bits;
     locked := ∅; kernel := k; trace := [] |}.

(** A layout to run examples in: pages of 4096 bytes and small blocks that
    sit [0x50] bytes apart, so that neighbours share a page. *)
Definition sample_place (b : block) : Z := (0x1000010 + 0x50 * Z.of_nat b)%Z.

Definition boot (k : block -> nat -> bool) : process := boot_at sample_place 12 k.

Definition block_bytes (s : process) (b : block) : list Z :=
  match heap s !! b with Some st => bytes st | None => [] end.

Definition block_live (s : process) (b : block) : bool :=
  match heap s !! b with Some st => live st | None => false end.

Definition malloc (init : list Z) (s : process) : block * process :=
  let b := next_block s in
  (b, {| heap := <[b := Storage init true]> (heap s);
         next_block := S b;
         place := place s;
         page_bits := page_bits s;
         locked := locked s;
         kernel := kernel s;
         trace := trace s ++ [EvMalloc b (length init)] |}).

Definition free (b : block) (s : process) : process :=
  {| heap := alter (fun st => Storage (bytes st) false) b (heap s);
     next_block := next_block s;
     place := place s;
     page_bits := page_bits s;
     locked := locked s;
     kernel := kernel s;
     trace := trace s ++ [EvFree b] |}.

(** A write into a block: [f] maps the old bytes to the new ones. *)
Definition update_bytes (b : block) (f : list Z -> list Z) (s : process) : process :=
  {| heap := alter (fun st => Storage (f (bytes st)) (live st)) b (heap s);
     next_block := next_block s;
     place := place s;
     page_bits := page_bits s;
     locked := locked s;
     kernel := kernel s;
     trace := trace s |}.

(** [memset(p, ch, n)] on the first [n] bytes of a block. *)
Definition memset (b : block) (ch : Z) (n : nat) (s : process) : process :=
  update_bytes b (fun old => replicate n ch ++ drop n old) s.

(** A single store [p[i] = v]. *)
Definition store (b : block) (i : nat) (v : Z) (s : process) : process :=
  update_bytes b (fun old => <[i := v]> old) s.

(** The [mlock(a,b)] and [munlock(a,b)] macros of the header pass the
    system call the page-aligned range around [a, a + b):
    [((size_t)a) & ~(PAGESIZE-1)] for the address and
    [((((size_t)a) + b - 1) | (PAGESIZE-1)) + 1 - (((size_t)a) & ~(PAGESIZE-1))]
    for the length, in [size_t] arithmetic. *)
Definition size_t (z : Z) : Z := (z mod 2 ^ 64)%Z.

Definition mlock_base (pagesize a : Z) : Z :=
  size_t (Z.land a (Z.lnot (pagesize - 1))).

Definition mlock_length (pagesize a b : Z) : Z :=
  size_t (size_t (Z.lor (size_t (a + b - 1)) (pagesize - 1) + 1)
          - mlock_base pagesize a).

(** The address range [first, first + len) as a predicate on addresses. *)
Definition in_range (first len x : Z) : Prop := (first <= x < first + len)%Z.

(** The range the [mlock] and [munlock] macros hand to the system call for
    a buffer of [b] bytes at address [a]. *)
Definition macro_range (pagesize a b x : Z) : Prop :=
  in_range (mlock_base pagesize a) (mlock_length pagesize a b) x.

(** The page an address lies on. *)
Definition page_of (pagesize x : Z) : Z := (x / pagesize)%Z.

(** The kernel locks and unlocks whole pages: every page that the range
    [first, first + len) of the call reaches into, from the page of [first]
    to the end of the range rounded up to a page boundary. *)
Definition pages (pagesize first len : Z) : gset Z :=
  list_to_set (seqZ (first / pagesize)
                    ((first mod pagesize + len + pagesize - 1) / pagesize)).

(** The pages named by [mlock(p, n)] and [munlock(p, n)] as the macros
    expand them, for [p] the address of block [b]. *)
Definition macro_pages (s : process) (b : block) (n : nat) : gset Z :=
  pages (PAGESIZE s)
        (mlock_base (PAGESIZE s) (place s b))
        (mlock_length (PAGESIZE s) (place s b) (Z.of_nat n)).

(** A byte is locked when its page is. *)
Definition byte_locked (s : process) (b : block) (i : nat) : Prop :=
  page_of (PAGESIZE s) (place s b + Z.of_nat i) ∈ locked s.

Definition range_locked (s : process) (b : block) (n : nat) : Prop :=
  forall i, i < n -> byte_locked s b i.

(** The first [n] bytes of block [b] lie inside the 64-bit address space,
    below its last page. *)
Definition in_address_space (s : process) (b : block) (n : nat) : Prop :=
  (0 <= place s b /\ place s b + Z.of_nat n + PAGESIZE s <= 2 ^ 64)%Z.

(** [mlock(p, n)] through the macro: when the kernel grants the call, the
    pages of the widened range are locked, with whatever else lies on them.
    The header discards the value the call returns. *)
Definition mlock (b : block) (n : nat) (s : process) : process :=
  let granted := kernel s b n in
  {| heap := heap s;
     next_block := next_block s;
     place := place s;
     page_bits := page_bits s;
     locked := if granted then locked s ∪ macro_pages s b n else locked s;
     kernel := kernel s;
     trace := trace s ++ [EvMlock b n granted] |}.

(** [munlock(p, n)] through the macro: the pages of the widened range are
    unlocked, whoever had asked for them. *)
Definition munlock (b : block) (n : nat) (s : process) : process :=
  {| heap := heap s;
     next_block := next_block s;
     place := place s;
     page_bits := page_bits s;
     locked := locked s ∖ macro_pages s b n;
     kernel := kernel s;
     trace := trace s ++ [EvMunlock b n] |}.

(** ** BinaryData *)

(** Modelled from the spec: [BinaryData] ([BinaryData.h]) is not among the
    sources.  It is the "mutable byte container" that [SecureBinaryData]
    derives from: a [std::vector<uint8_t>] together with the logical length
    [nBytes_].  The vector owns at most one heap block, whose length is the
    capacity; growing past the capacity moves the contents to a new block
    and frees the old one, anything else works in place. *)
Record BinaryData := mkBinaryData { data_ : option block; nBytes_ : nat }.

Definition getSize (b : BinaryData) : nat := nBytes_ b.
Definition getPtr (b : BinaryData) : option block := data_ b.

(** Bytes that the C++ code leaves indeterminate (capacity that was never
    written).  No statement below depends on the value. *)
Definition indeterminate : Z := 205%Z.

(** Reading [n] bytes through a pointer. *)
Definition load (p : option block) (n : nat) (s : process) : list Z :=
  match p with
  | Some b => take n (block_bytes s b)
  | None => []
  end.

Definition contents (s : process) (b : BinaryData) : list Z :=
  load (getPtr b) (getSize b) s.

Definition capacity (s : process) (b : BinaryData) : nat :=
  match getPtr b with
  | Some blk => length (block_bytes s blk)
  | None => 0
  end.

(** Modelled from the spec: [BinaryData(sz)], "allocate, zero-initialized":
    [sz] value-initialised bytes; an empty vector owns no block. *)
Definition BinaryData_alloc (sz : nat) (s : process) : BinaryData * process :=
  if sz =? 0 then (mkBinaryData None 0, s)
  else let '(blk, s1) := malloc (replicate sz 0%Z) s in
       (mkBinaryData (Some blk) sz, s1).

(** Modelled from the spec: [BinaryData(inData, sz)], "allocate, copy, no
    truncation": a new block holding a copy of the bytes. *)
Definition BinaryData_copyFrom (src : list Z) (s : process) : BinaryData * process :=
  if length src =? 0 then (mkBinaryData None 0, s)
  else let '(blk, s1) := malloc src s in
       (mkBinaryData (Some blk) (length src), s1).

(** Modelled from the spec: [BinaryData::fill], the "in-place overwrite" of
    the logical contents with one byte value. *)
Definition BinaryData_fill (ch : Z) (b : BinaryData) (s : process)
  : BinaryData * process :=
  if 0 <? getSize b then
    match getPtr b with
    | Some blk => (b, memset blk (uint8 ch) (getSize b) s)
    | None => (b, s)
    end
  else (b, s).

(** Modelled from the spec: [BinaryData::resize] is [std::vector::resize]
    followed by the update of [nBytes_].  Within the capacity the block
    stays where it is and new elements are value-initialised; beyond it the
    storage moves to a block of at least twice the old capacity and the old
    block is released. *)
Definition BinaryData_resize (sz : nat) (b : BinaryData) (s : process)
  : BinaryData * process :=
  match getPtr b with
  | None =>
      if sz =? 0 then (b, s)
      else let '(blk, s1) := malloc (replicate sz 0%Z) s in
           (mkBinaryData (Some blk) sz, s1)
  | Some blk =>
      let old := block_bytes s blk in
      let n := getSize b in
      if sz <=? length old then
        if sz <=? n then (mkBinaryData (Some blk) sz, s)
        else (mkBinaryData (Some blk) sz,
              update_bytes blk (fun old => take n old ++ replicate (sz - n) 0%Z
                                             ++ drop sz old) s)
      else
        let cap := Nat.max sz (2 * length old) in
        let '(blk', s1) :=
          malloc (take n old ++ replicate (sz - n) 0%Z
                    ++ replicate (cap - sz) indeterminate) s in
        (mkBinaryData (Some blk') sz, free blk s1)
  end.

(** Modelled from the spec: [BinaryData::reserve] is
    [std::vector::reserve]: it only ever grows the capacity, moving the
    storage when it does; the length and the elements are unchanged. *)
Definition BinaryData_reserve (sz : nat) (b : BinaryData) (s : process)
  : BinaryData * process :=
  match getPtr b with
  | None =>
      if sz =? 0 then (b, s)
      else let '(blk, s1) := malloc (replicate sz indeterminate) s in
           (mkBinaryData (Some blk) (getSize b), s1)
  | Some blk =>
      let old := block_bytes s blk in
      let n := getSize b in
      if sz <=? length old then (b, s)
      else
        let '(blk', s1) :=
          malloc (take n old ++ replicate (sz - n) indeterminate) s in
        (mkBinaryData (Some blk') n, free blk s1)
  end.

(** Modelled from the spec: [~BinaryData], the destructor of a plain byte
    container: the vector releases its block as it is. *)
Definition BinaryData_dtor (b : BinaryData) (s : process) : process :=
  match getPtr b with
  | Some blk => free blk s
  | None => s
  end.

(** ** SecureBinaryData *)

Module SecureBinaryData.

(** [if(getSize() > 0) mlock(getPtr(), getSize());] *)
Definition lockData (b : BinaryData) (s : process) : BinaryData * process :=
  if 0 <? getSize b then
    match getPtr b with
    | Some blk => (b, mlock blk (getSize b) s)
    | None => (b, s)
    end
  else (b, s).

(** [if(getSize() > 0) { fill(0x00); munlock(getPtr(), getSize()); }] *)
Definition destroy (b : BinaryData) (s : process) : BinaryData * process :=
  if 0 <? getSize b then
    let '(b1, s1) := BinaryData_fill 0 b s in
    match getPtr b1 with
    | Some blk => (b1, munlock blk (getSize b1) s1)
    | None => (b1, s1)
    end
  else (b, s).

(** [SecureBinaryData(uint32_t sz) : BinaryData(sz) { lockData(); }];
    [SecureBinaryData(void)] is the case [sz = 0]. *)
Definition create (sz : nat) (s : process) : BinaryData * process :=
  let '(b, s1) := BinaryData_alloc sz s in lockData b s1.

(** [SecureBinaryData(uint8_t const * inData, size_t sz)] and the other
    constructors that copy bytes in. *)
Definition from_bytes (src : list Z) (s : process) : BinaryData * process :=
  let '(b, s1) := BinaryData_copyFrom src s in lockData b s1.

(** [SecureBinaryData(SecureBinaryData const & sbd2) :
       BinaryData(sbd2.getPtr(), sbd2.getSize()) { lockData(); }] *)
Definition copy (sbd2 : BinaryData) (s : process) : BinaryData * process :=
  let '(b, s1) := BinaryData_copyFrom (load (getPtr sbd2) (getSize sbd2) s) s in
  lockData b s1.

(** [~SecureBinaryData(void) { destroy(); }], then the base destructor. *)
Definition dtor (b : BinaryData) (s : process) : process :=
  let '(b1, s1) := destroy b s in BinaryData_dtor b1 s1.

(** [void resize(size_t sz) { BinaryData::resize(sz); lockData(); }] *)
Definition resize (sz : nat) (b : BinaryData) (s : process) : BinaryData * process :=
  let '(b1, s1) := BinaryData_resize sz b s in lockData b1 s1.

(** [void reserve(size_t sz) { BinaryData::reserve(sz); lockData(); }] *)
Definition reserve (sz : nat) (b : BinaryData) (s : process) : BinaryData * process :=
  let '(b1, s1) := BinaryData_reserve sz b s in lockData b1 s1.

(** [BinaryData getRawCopy(void) { return BinaryData(getPtr(), getSize()); }] *)
Definition getRawCopy (b : BinaryData) (s : process) : BinaryData * process :=
  BinaryData_copyFrom (load (getPtr b) (getSize b) s) s.

(** [BinaryDataRef getRawRef(void) { return BinaryDataRef(getPtr(), getSize()); }]:
    a pointer and a length, no storage of its own. *)
Definition getRawRef (b : BinaryData) : option block * nat := (getPtr b, getSize b).

End SecureBinaryData.

Definition grant_all : block -> nat -> bool := fun _ _ => true.
Definition deny_all : block -> nat -> bool := fun _ _ => false.

(** The ways a caller changes a buffer it owns. *)
Inductive mutation :=
| MFill (ch : Z)
| MStore (i : nat) (v : Z)
| MResize (sz : nat)
| MReserve (sz : nat)
| MDestroy.

Definition mutate (m : mutation) (b : BinaryData) (s : process)
  : BinaryData * process :=
  match m with
  | MFill ch => BinaryData_fill ch b s
  | MStore i v =>
      match getPtr b with
      | Some blk => if i <? getSize b then (b, store blk i (uint8 v) s) else (b, s)
      | None => (b, s)
      end
  | MResize sz => SecureBinaryData.resize sz b s
  | MReserve sz => SecureBinaryData.reserve sz b s
  | MDestroy => SecureBinaryData.destroy b s
  end.

Fixpoint mutate_all (ms : list mutation) (b : BinaryData) (s : process)
  : BinaryData * process :=
  match ms with
  | [] => (b, s)
  | m :: rest => let '(b1, s1) := mutate m b s in mutate_all rest b1 s1
  end.

(** The two capacity changes of the class. *)
Inductive capacity_change := Resize (sz : nat) | Reserve (sz : nat).

Definition change_capacity (ch : capacity_change) (b : BinaryData) (s : process)
  : BinaryData * process :=
  match ch with
  | Resize sz => SecureBinaryData.resize sz b s
  | Reserve sz => SecureBinaryData.reserve sz b s
  end.

(** The operations of the class that end in [lockData()]. *)
Inductive locking_op :=
| OpCreate (sz : nat)
| OpFromBytes (src : list Z)
| OpCopy (sbd2 : BinaryData)
| OpResize (sz : nat) (b : BinaryData)
| OpReserve (sz : nat) (b : BinaryData)
| OpLockData (b : BinaryData).

Definition run_op (op : locking_op) (s : process) : BinaryData * process :=
  match op with
  | OpCreate sz => SecureBinaryData.create sz s
  | OpFromBytes src => SecureBinaryData.from_bytes src s
  | OpCopy sbd2 => SecureBinaryData.copy sbd2 s
  | OpResize sz b => SecureBinaryData.resize sz b s
  | OpReserve sz b => SecureBinaryData.reserve sz b s
  | OpLockData b => SecureBinaryData.lockData b s
  end.

(** The same process with another kernel behind it: other answers to
    [mlock], another set of pages locked so far. *)
Definition with_kernel (k : block -> nat -> bool) (l : gset Z)
           (s : process) : process :=
  {| heap := heap s; next_block := next_block s; place := place s;
     page_bits := page_bits s; locked := l; kernel := k; trace := trace s |}.

Definition is_log (e : event) : bool :=
  match e with EvLog _ => true | _ => false end.

Definition is_mlock_failure (e : event) : bool :=
  match e with EvMlock _ _ false => true | _ => false end.

(** [b] is a buffer of process [s]: its block is allocated, not yet freed,
    and at least as long as the logical length. *)
Definition owns (s : process) (b : BinaryData) : Prop :=
  match getPtr b with
  | Some blk => block_live s blk = true /\ getSize b <= length (block_bytes s blk)
  | None => getSize b = 0
  end.

(** No operation moves a block or changes the page size. *)
Definition same_layout (s1 s2 : process) : Prop :=
  place s1 = place s2 /\ page_bits s1 = page_bits s2.

(** Blocks are handed out in order: nothing at or above [next_block] is in
    use. *)
Definition heap_ok (s : process) : Prop :=
  forall blk, is_Some (heap s !! blk) -> blk < next_block s.

(** The state of a [BinaryData] before its constructor has run. *)
Definition no_buffer : BinaryData := mkBinaryData None 0.

Definition separate (b1 b2 : BinaryData) : Prop :=
  forall blk, getPtr b1 = Some blk -> getPtr b2 <> Some blk.

(** Sample runs: a four-byte secret, the same secret shrunk to two bytes,
    and grown to eight. *)
Definition secret4 : BinaryData * process :=
  SecureBinaryData.from_bytes [1; 2; 3; 4]%Z (boot grant_all).

Definition shrunk_secret : BinaryData * process :=
  let '(b, s) := secret4 in SecureBinaryData.resize 2 b s.

Definition grown_secret : BinaryData * process :=
  let '(b, s) := secret4 in SecureBinaryData.resize 8 b s.

Definition unlockable_secret : BinaryData * process :=
  SecureBinaryData.from_bytes [1; 2; 3]%Z (boot deny_all).

(** Two processes that hold the same data: they may differ in what the
    kernel has locked and in how it answers. *)
Definition same_data (s1 s2 : process) : Prop :=
  heap s1 = heap s2 /\ next_block s1 = next_block s2 /\
  List.filter is_log (trace s1) = List.filter is_log (trace s2).

(** What every operation on a buffer [b] guarantees: the result is again a
    buffer of the process, blocks are still handed out in order, blocks of
    other buffers are not touched, and the buffer either stays in its block
    or moves to one that did not exist before. *)
Definition step_ok (b : BinaryData) (s : process) (r : BinaryData * process) : Prop :=
  owns s b -> heap_ok s ->
  owns r.2 r.1 /\ heap_ok r.2 /\ next_block s <= next_block r.2 /\
  (forall blk, getPtr b <> Some blk -> blk < next_block s ->
     block_bytes r.2 blk = block_bytes s blk /\ block_live r.2 blk = block_live s blk) /\
  (getPtr r.1 = getPtr b \/
   exists blk', getPtr r.1 = Some blk' /\ next_block s <= blk').

(** What [BinaryData::resize] and [BinaryData::reserve] do to a block the
    buffer leaves: it is freed as it is, and no lock is touched. *)
Definition abandons (b : BinaryData) (s : process) (r : BinaryData * process) : Prop :=
  owns s b -> heap_ok s ->
  locked r.2 = locked s /\ kernel r.2 = kernel s /\
  same_layout r.2 s /\
  forall blk, getPtr b = Some blk -> getPtr r.1 <> Some blk ->
    block_live r.2 blk = false /\ block_bytes r.2 blk = block_bytes s blk.

(** A pair of runs that return the same buffer and leave the same data. *)
Definition agree (r1 r2 : BinaryData * process) : Prop :=
  r1.1 = r2.1 /\ same_data r1.2 r2.2.

(** None of the operations writes a log entry. *)
Definition quiet (s : process) (r : BinaryData * process) : Prop :=
  List.filter is_log (trace r.2) = List.filter is_log (trace s).


(** * Key derivation, encryption and signatures

    The header declares [KdfRomix], [CryptoAES] and [CryptoECDSA]; their
    member functions are defined in [EncryptionUtils.cpp], which is not
    among the sources, on top of the Crypto++ primitives (SHA-512, AES,
    SHA-256 and the curve arithmetic).  The functions below follow the
    specification; the hash functions and the block cipher are parameters.
    Secrets are handled here as the byte strings the buffers hold. *)

(** ** Byte strings *)

Definition xor_bytes (x y : list Z) : list Z := zip_with Z.lxor x y.

(** Big-endian and little-endian unsigned integers. *)
Definition be_decode (bs : list Z) : Z :=
  fold_left (fun acc b => (acc * 256 + b)%Z) bs 0%Z.

Fixpoint be_encode (len : nat) (z : Z) : list Z :=
  match len with
  | 0 => []
  | S k => be_encode k (z / 256) ++ [(z mod 256)%Z]
  end.

Definition le_decode (bs : list Z) : Z :=
  fold_right (fun b acc => (b + 256 * acc)%Z) 0%Z bs.

(** ** KdfRomix *)

(** The private members of [class KdfRomix].  [hashFunctionName_] is
    informational and left out; [lookupTable_] and [salt_] are the bytes of
    the two [SecureBinaryData] members. *)
Record KdfRomix := mkKdfRomix {
  hashOutputBytes_ : nat;
  kdfOutputBytes_ : nat;
  memoryReqtBytes_ : nat;
  sequenceCount_ : nat;
  lookupTable_ : list Z;
  salt_ : list Z;
  numIterations_ : nat
}.

Definition getMemoryReqtBytes (kdf : KdfRomix) : nat := memoryReqtBytes_ kdf.
Definition getNumIterations (kdf : KdfRomix) : nat := numIterations_ kdf.
Definition getSalt (kdf : KdfRomix) : list Z := salt_ kdf.

(** Modelled from the spec: [KdfRomix::usePrecomputedKdfParams] is defined
    in [EncryptionUtils.cpp].  SHA-512 gives 64-byte hashes, the key has 32
    bytes, [sequenceCount = memoryBytes / hashOutputBytes], the lookup table
    is preallocated with [memoryBytes] bytes, and a memory below 64 bytes is
    rejected. *)
Definition usePrecomputedKdfParams (memReqts numIter : nat) (salt : list Z)
  : option KdfRomix :=
  if memReqts <? 64 then None
  else Some {| hashOutputBytes_ := 64;
               kdfOutputBytes_ := 32;
               memoryReqtBytes_ := memReqts;
               sequenceCount_ := memReqts / 64;
               lookupTable_ := replicate memReqts 0%Z;
               salt_ := salt;
               numIterations_ := numIter |}.

(** An instance whose parameters are set, before or after any number of
    derivations. *)
Definition kdf_ready (kdf : KdfRomix) : Prop :=
  hashOutputBytes_ kdf = 64 /\ kdfOutputBytes_ kdf = 32 /\
  64 <= memoryReqtBytes_ kdf /\
  sequenceCount_ kdf = memoryReqtBytes_ kdf / 64 /\
  length (lookupTable_ kdf) = memoryReqtBytes_ kdf /\
  1 <= numIterations_ kdf.

(** [memcpy] of [x] into the table at offset [off], and a read of [len]
    bytes at [off]. *)
Definition write_at (off : nat) (x : list Z) (tbl : list Z) : list Z :=
  take off tbl ++ x ++ drop (off + length x) tbl.

Definition read_at (off len : nat) (tbl : list Z) : list Z :=
  take len (drop off tbl).

Definition set_lookupTable (tbl : list Z) (kdf : KdfRomix) : KdfRomix :=
  {| hashOutputBytes_ := hashOutputBytes_ kdf;
     kdfOutputBytes_ := kdfOutputBytes_ kdf;
     memoryReqtBytes_ := memoryReqtBytes_ kdf;
     sequenceCount_ := sequenceCount_ kdf;
     lookupTable_ := tbl;
     salt_ := salt_ kdf;
     numIterations_ := numIterations_ kdf |}.

Section Romix.

(** The hash of the KDF, SHA-512 of Crypto++. *)
Variable SHA512 : list Z -> list Z.

(** Modelled from the spec: the fill phase of [derive_one_iter], "for i in
    0..sequenceCount: write X into lookupTable[i*64 .. i*64+64]; then
    X <- H(X)".  [i] is the index of the next entry and [count] the number
    of entries still to write. *)
Fixpoint fill_table (hb i count : nat) (X tbl : list Z) : list Z * list Z :=
  match count with
  | 0 => (X, tbl)
  | S c => fill_table hb (S i) c (SHA512 X) (write_at (i * hb) X tbl)
  end.

(** Modelled from the spec: the mix phase, "repeat sequenceCount times:
    interpret the first 8 bytes of X as a little-endian unsigned integer v;
    let j = v mod sequenceCount; X <- H(X XOR lookupTable[j*64 .. j*64+64])". *)
Fixpoint mix_table (hb seqCount count : nat) (X tbl : list Z) : list Z :=
  match count with
  | 0 => X
  | S c =>
      let v := le_decode (take 8 X) in
      let j := Z.to_nat (v mod Z.of_nat seqCount) in
      mix_table hb seqCount c (SHA512 (xor_bytes X (read_at (j * hb) hb tbl))) tbl
  end.

(** Modelled from the spec: [KdfRomix::DeriveKey_OneIter] is defined in
    [EncryptionUtils.cpp].  "X <- H(password || salt)", the fill phase, the
    mix phase, then "output the first 32 bytes of X".  The lookup table of
    the instance is scratch space and keeps what the derivation wrote. *)
Definition DeriveKey_OneIter (kdf : KdfRomix) (password : list Z)
  : list Z * KdfRomix :=
  let hb := hashOutputBytes_ kdf in
  let n := sequenceCount_ kdf in
  let X0 := SHA512 (password ++ salt_ kdf) in
  let '(X1, tbl) := fill_table hb 0 n X0 (lookupTable_ kdf) in
  let X2 := mix_table hb n n X1 tbl in
  (take (kdfOutputBytes_ kdf) X2, set_lookupTable tbl kdf).

(** Modelled from the spec: [KdfRomix::DeriveKey] is defined in
    [EncryptionUtils.cpp].  "Apply derive_one_iter iterations times, feeding
    each output as the password to the next": a loop over the iteration
    count on one instance, whose lookup table is reused from one round to
    the next. *)
Fixpoint DeriveKey_loop (i : nat) (kdf : KdfRomix) (masterKey : list Z)
  : list Z * KdfRomix :=
  match i with
  | 0 => (masterKey, kdf)
  | S i' =>
      let '(k, kdf') := DeriveKey_OneIter kdf masterKey in
      DeriveKey_loop i' kdf' k
  end.

Definition DeriveKey (kdf : KdfRomix) (password : list Z) : list Z * KdfRomix :=
  DeriveKey_loop (numIterations_ kdf) kdf password.

(** The key of one round on an instance in a given state. *)
Definition one_iter_key (kdf : KdfRomix) (password : list Z) : list Z :=
  (DeriveKey_OneIter kdf password).1.

End Romix.

(** A stand-in hash for running the KDF on small inputs: 64 bytes computed
    from the sum and the length of the input. *)
Definition sample_hash64 (x : list Z) : list Z :=
  let t := (fold_left Z.add x 0 + Z.of_nat (length x))%Z in
  map (fun i => ((t * (Z.of_nat i + 3) + Z.of_nat i) mod 256)%Z) (seq 0 64).

Definition sample_kdf : KdfRomix :=
  {| hashOutputBytes_ := 64;
     kdfOutputBytes_ := 32;
     memoryReqtBytes_ := 256;
     sequenceCount_ := 4;
     lookupTable_ := replicate 256 0%Z;
     salt_ := [9; 8; 7]%Z;
     numIterations_ := 3 |}.

(** ** CryptoAES *)

Inductive aes_error := BadKeyLength | BadIvLength.

(** Splitting a byte string into blocks of [n] bytes; the last block may be
    shorter. *)
Fixpoint chunks_fuel (fuel n : nat) (l : list Z) : list (list Z) :=
  match fuel with
  | 0 => []
  | S f =>
      match l with
      | [] => []
      | _ => take n l :: chunks_fuel f n (drop n l)
      end
  end.

Definition chunks (n : nat) (l : list Z) : list (list Z) :=
  chunks_fuel (length l) n l.

(** The shape of a blocked byte string: full blocks, then one block that is
    not empty and not longer than [n]. *)
Fixpoint blocks_ok (n : nat) (bs : list (list Z)) : Prop :=
  match bs with
  | [] => True
  | b :: rest =>
      match rest with
      | [] => 0 < length b <= n
      | _ => length b = n /\ blocks_ok n rest
      end
  end.

Definition valid_key_length (key : list Z) : bool :=
  (length key =? 16) || (length key =? 24) || (length key =? 32).

Section Cfb.

(** The block cipher, AES of Crypto++: key and 16-byte block to 16-byte
    block.  CFB uses the encrypting direction only. *)
Variable AES_encrypt_block : list Z -> list Z -> list Z.

(** Modelled from the spec: "AES in CFB with 128-bit block".  Every
    ciphertext block is the plaintext block XOR the encryption of the
    previous ciphertext block, the first one of the IV; a short last block
    uses the leading bytes of the key stream. *)
Fixpoint cfb_encrypt_blocks (key prev : list Z) (blocks : list (list Z))
  : list (list Z) :=
  match blocks with
  | [] => []
  | P :: rest =>
      let C := xor_bytes P (AES_encrypt_block key prev) in
      C :: cfb_encrypt_blocks key C rest
  end.

Fixpoint cfb_decrypt_blocks (key prev : list Z) (blocks : list (list Z))
  : list (list Z) :=
  match blocks with
  | [] => []
  | C :: rest =>
      xor_bytes C (AES_encrypt_block key prev) :: cfb_decrypt_blocks key C rest
  end.

(** Modelled from the spec: [CryptoAES::Encrypt] is defined in
    [EncryptionUtils.cpp].  "Key lengths accepted: 16, 24, or 32 bytes.  IV
    length: exactly 16 bytes"; "fails with BadKeyLength, BadIvLength". *)
Definition Encrypt (data key iv : list Z) : aes_error + list Z :=
  if negb (valid_key_length key) then inl BadKeyLength
  else if negb (length iv =? 16) then inl BadIvLength
  else inr (concat (cfb_encrypt_blocks key iv (chunks 16 data))).

(** Modelled from the spec: [CryptoAES::Decrypt] is defined in
    [EncryptionUtils.cpp]; "same failure set". *)
Definition Decrypt (data key iv : list Z) : aes_error + list Z :=
  if negb (valid_key_length key) then inl BadKeyLength
  else if negb (length iv =? 16) then inl BadIvLength
  else inr (concat (cfb_decrypt_blocks key iv (chunks 16 data))).

End Cfb.

(** A stand-in block cipher for running the mode on small inputs. *)
Definition sample_cipher (key block : list Z) : list Z :=
  let k := fold_left Z.add key 0%Z in
  map (fun i => ((nth i block 0 + k + Z.of_nat i) mod 256)%Z) (seq 0 16).

(** ** CryptoECDSA *)

Local Open Scope Z_scope.

(** A curve [y^2 = x^3 + a x + b] over the prime field of [field_p], with a
    base point of order [order_n]. *)
Record curve := mkCurve {
  field_p : Z; coeff_a : Z; coeff_b : Z; base_x : Z; base_y : Z; order_n : Z
}.

(** [BTC_ECPOINT]: an affine point, or the identity. *)
Definition point := option (Z * Z).

Definition base_point (c : curve) : point := Some (base_x c, base_y c).

Definition on_curve (c : curve) (P : point) : bool :=
  match P with
  | None => true
  | Some (x, y) =>
      (0 <=? x) && (x <? field_p c) && (0 <=? y) && (y <? field_p c)
      && ((y * y) mod field_p c =? (x * x * x + coeff_a c * x + coeff_b c) mod field_p c)
  end.

(** The group law in affine coordinates (the curve arithmetic of
    Crypto++'s [ECP]). *)
Definition ec_add (c : curve) (P Q : point) : point :=
  let p := field_p c in
  match P, Q with
  | None, _ => Q
  | _, None => P
  | Some (x1, y1), Some (x2, y2) =>
      if x1 =? x2 then
        if (y1 + y2) mod p =? 0 then None
        else
          let l := ((3 * x1 * x1 + coeff_a c) * Z.invmod (2 * y1) p) mod p in
          let x3 := (l * l - 2 * x1) mod p in
          Some (x3, (l * (x1 - x3) - y1) mod p)
      else
        let l := ((y2 - y1) * Z.invmod (x2 - x1) p) mod p in
        let x3 := (l * l - x1 - x2) mod p in
        Some (x3, (l * (x1 - x3) - y1) mod p)
  end.

Fixpoint ec_mul_pos (c : curve) (k : positive) (P : point) : point :=
  match k with
  | xH => P
  | xO k' => let D := ec_mul_pos c k' P in ec_add c D D
  | xI k' => let D := ec_mul_pos c k' P in ec_add c (ec_add c D D) P
  end.

Definition ec_mul (c : curve) (k : Z) (P : point) : point :=
  match k with
  | Zpos k' => ec_mul_pos c k' P
  | _ => None
  end.

(** The curve of the wallet. *)
Definition secp256k1 : curve :=
  {| field_p := 0xFFFFFFFFFFFFFFFFFFFFFFFFFFFFFFFFFFFFFFFFFFFFFFFFFFFFFFFEFFFFFC2F;
     coeff_a := 0;
     coeff_b := 7;
     base_x := 0x79BE667EF9DCBBAC55A06295CE870B07029BFCDB2DCE28D959F2815B16F81798;
     base_y := 0x483ADA7726A3C4655DA4FBFC0E1108A8FD17B448A68554199C47D08FFB10D4B8;
     order_n := 0xFFFFFFFFFFFFFFFFFFFFFFFFFFFFFFFEBAAEDCE6AF48A03BBFD25E8CD0364141 |}.

(** A curve small enough to enumerate: [y^2 = x^3 + 2x + 2] over the field
    of 17 elements, whose 19 points are the multiples of (5, 1). *)
Definition small_curve : curve :=
  {| field_p := 17; coeff_a := 2; coeff_b := 2; base_x := 5; base_y := 1;
     order_n := 19 |}.

(** What the signature scheme relies on from the curve arithmetic: the
    order is a prime of at most 256 bits, the nonzero multiples of the base
    point are points of the curve with 256-bit coordinates, and on the
    multiples of the base point addition and multiplication act on the
    scalars modulo the order. *)
Record group_laws (c : curve) : Prop := {
  order_prime : Z.prime (order_n c);
  order_256 : order_n c < 2 ^ 256;
  field_256 : 0 < field_p c < 2 ^ 256;
  mul_base_on_curve : forall k, 1 <= k < order_n c ->
    exists x y, ec_mul c k (base_point c) = Some (x, y) /\
                on_curve c (Some (x, y)) = true;
  mul_base_add : forall j k, 0 <= j < order_n c -> 0 <= k < order_n c ->
    ec_add c (ec_mul c j (base_point c)) (ec_mul c k (base_point c))
    = ec_mul c ((j + k) mod order_n c) (base_point c);
  mul_base_mul : forall j k, 0 <= j < order_n c -> 0 <= k < order_n c ->
    ec_mul c j (ec_mul c k (base_point c))
    = ec_mul c ((j * k) mod order_n c) (base_point c)
}.

(** On a curve small enough, the laws can be checked by running through
    all scalars below the order. *)
Definition point_eqb (P Q : point) : bool :=
  match P, Q with
  | None, None => true
  | Some (x1, y1), Some (x2, y2) => (x1 =? x2) && (y1 =? y2)
  | _, _ => false
  end.

Definition scalars (c : curve) : list Z :=
  map Z.of_nat (seq 0 (Z.to_nat (order_n c))).

Definition check_group_laws (c : curve) : bool :=
  let G := base_point c in
  let n := order_n c in
  (1 <? n) && (n <? 2 ^ 256) && (0 <? field_p c) && (field_p c <? 2 ^ 256)
  && forallb (fun k => (k <? 2) || negb (n mod k =? 0)) (scalars c)
  && forallb (fun k => (k <? 1) ||
                match ec_mul c k G with
                | Some xy => on_curve c (Some xy)
                | None => false
                end) (scalars c)
  && forallb (fun j => forallb (fun k =>
       point_eqb (ec_add c (ec_mul c j G) (ec_mul c k G)) (ec_mul c ((j + k) mod n) G)
       && point_eqb (ec_mul c j (ec_mul c k G)) (ec_mul c ((j * k) mod n) G))
       (scalars c)) (scalars c).

Inductive ecdsa_error :=
| BadKeyFormat | OutOfRange | NotOnCurve | IsIdentity | EntropyUnavailable.

(** Modelled from the spec: [CryptoECDSA::ParsePrivateKey] is defined in
    [EncryptionUtils.cpp].  "Accept 32 bytes; fail BadKeyFormat if length
    wrong; fail OutOfRange if scalar is 0 or >= n". *)
Definition ParsePrivateKey (c : curve) (privKeyData : list Z) : ecdsa_error + Z :=
  if negb (length privKeyData =? 32)%nat then inl BadKeyFormat
  else
    let d := be_decode privKeyData in
    if (1 <=? d) && (d <? order_n c) then inr d else inl OutOfRange.

(** Modelled from the spec: the two [CryptoECDSA::ParsePublicKey] overloads
    are defined in [EncryptionUtils.cpp].  "Require bytes[0] = 0x04 and
    total length 65; extract X, Y; fail BadKeyFormat on shape, NotOnCurve if
    the point does not satisfy the curve equation".  A pair of coordinates
    never denotes the identity. *)
Definition ParsePublicKey_xy (c : curve) (pubKeyX32B pubKeyY32B : list Z)
  : ecdsa_error + point :=
  if negb ((length pubKeyX32B =? 32)%nat && (length pubKeyY32B =? 32)%nat)
  then inl BadKeyFormat
  else
    let P := Some (be_decode pubKeyX32B, be_decode pubKeyY32B) in
    if on_curve c P then inr P else inl NotOnCurve.

Definition ParsePublicKey (c : curve) (pubKey65B : list Z) : ecdsa_error + point :=
  match pubKey65B with
  | 4 :: xy =>
      if (length xy =? 64)%nat
      then ParsePublicKey_xy c (take 32 xy) (drop 32 xy)
      else inl BadKeyFormat
  | _ => inl BadKeyFormat
  end.

(** Modelled from the spec: [SerializePrivateKey] gives the "32-byte
    big-endian output", [SerializePublicKey] the "65 bytes: 0x04 || X || Y". *)
Definition SerializePrivateKey (d : Z) : list Z := be_encode 32 d.

Definition SerializePublicKey (P : point) : ecdsa_error + list Z :=
  match P with
  | Some (x, y) => inr (4 :: be_encode 32 x ++ be_encode 32 y)
  | None => inl IsIdentity
  end.

(** Modelled from the spec: [CryptoECDSA::ComputePublicKey] on byte strings
    is defined in [EncryptionUtils.cpp].  "P = k.G where G is the curve
    generator.  Fails OutOfRange if k invalid". *)
Definition ComputePublicKey (c : curve) (privKey : list Z) : ecdsa_error + list Z :=
  match ParsePrivateKey c privKey with
  | inl e => inl e
  | inr d => SerializePublicKey (ec_mul c d (base_point c))
  end.

(** Modelled from the spec: the signing equations for one nonce [k]:
    "(x1, y1) = k'.G, r = x1 mod n (retry if 0),
    s = k'^-1 (e + r.privateKey) mod n (retry if 0)".  [None] asks for
    another nonce. *)
Definition sign_attempt (c : curve) (e d k : Z) : option (Z * Z) :=
  let n := order_n c in
  if (1 <=? k) && (k <? n) then
    match ec_mul c k (base_point c) with
    | Some (x1, _) =>
        let r := x1 mod n in
        if r =? 0 then None
        else
          let s := (Z.invmod k n * (e + r * d)) mod n in
          if s =? 0 then None else Some (r, s)
    | None => None
    end
  else None.

(** The nonces come from the entropy source of the process, one candidate
    after the other. *)
Fixpoint sign_retry (c : curve) (e d : Z) (nonces : list Z) : option (Z * Z) :=
  match nonces with
  | [] => None
  | k :: rest =>
      match sign_attempt c e d k with
      | Some rs => Some rs
      | None => sign_retry c e d rest
      end
  end.

(** "A 64-byte concatenation of r||s (each big-endian 32 bytes)". *)
Definition parse_signature (binSignature : list Z) : option (Z * Z) :=
  if (length binSignature =? 64)%nat
  then Some (be_decode (take 32 binSignature), be_decode (drop 32 binSignature))
  else None.

(** The verification equation of ECDSA for digest [e], signature [(r, s)]
    and public point [Q]: with [w = s^-1 mod n], the point
    [(e w).G + (r w).Q] is not the identity and its x coordinate is [r]
    modulo [n]. *)
Definition verification_equation (c : curve) (e r s : Z) (Q : point) : Prop :=
  let n := order_n c in
  let w := Z.invmod s n in
  exists x1 y1,
    ec_add c (ec_mul c ((e * w) mod n) (base_point c)) (ec_mul c ((r * w) mod n) Q)
      = Some (x1, y1) /\
    x1 mod n = r.

(** What the verification equation is there to decide.  [(r, s)] was made
    for the digest [e] with the private key of [Q]: [Q] is [d.G] for a
    private key [d], and for some nonce [k] in [1, n-1] the point [k.G] has
    the x coordinate [r] modulo [n] and [k.s = e + r.d] modulo [n], the
    equations of the signer. *)
Definition signed_by (c : curve) (e r s : Z) (Q : point) : Prop :=
  let n := order_n c in
  exists d k,
    1 <= d < n /\ Q = ec_mul c d (base_point c) /\
    1 <= k < n /\
    (exists x1 y1, ec_mul c k (base_point c) = Some (x1, y1) /\ x1 mod n = r) /\
    (k * s) mod n = (e + r * d) mod n.

(** The group of the curve has no points besides the multiples of the base
    point (cofactor 1, as for secp256k1): every affine point of the curve
    is the public key of some private key. *)
Definition base_generates (c : curve) : Prop :=
  forall x y, on_curve c (Some (x, y)) = true ->
    exists d, 1 <= d < order_n c /\ ec_mul c d (base_point c) = Some (x, y).

Definition field_elements (c : curve) : list Z :=
  map Z.of_nat (seq 0 (Z.to_nat (field_p c))).

Definition check_base_generates (c : curve) : bool :=
  forallb (fun x => forallb (fun y =>
    negb (on_curve c (Some (x, y)))
    || existsb (fun d => (1 <=? d)
                         && point_eqb (ec_mul c d (base_point c)) (Some (x, y)))
               (scalars c))
    (field_elements c)) (field_elements c).

Definition verify_point (c : curve) (e r s : Z) (Q : point) : bool :=
  let n := order_n c in
  (1 <=? r) && (r <? n) && (1 <=? s) && (s <? n) &&
  let w := Z.invmod s n in
  let u1 := (e * w) mod n in
  let u2 := (r * w) mod n in
  match ec_add c (ec_mul c u1 (base_point c)) (ec_mul c u2 Q) with
  | Some (x1, _) => x1 mod n =? r
  | None => false
  end.

Section Ecdsa.

(** The digest, SHA-256 of Crypto++, and the curve. *)
Variable SHA256 : list Z -> list Z.
Variable c : curve.

Definition digest (msg : list Z) : Z := be_decode (SHA256 msg).

(** Modelled from the spec: [CryptoECDSA::SignData] on byte strings is
    defined in [EncryptionUtils.cpp].  "Hash the message with SHA-256 to get
    digest e; choose nonce k'; ... output r and s big-endian 32-byte each".
    [nonces] is what the entropy source supplies; the call fails when the
    key does not parse or the source runs dry. *)
Definition SignData (nonces : list Z) (binToSign binPrivKey : list Z)
  : ecdsa_error + list Z :=
  match ParsePrivateKey c binPrivKey with
  | inl err => inl err
  | inr d =>
      match sign_retry c (digest binToSign) d nonces with
      | Some (r, s) => inr (be_encode 32 r ++ be_encode 32 s)
      | None => inl EntropyUnavailable
      end
  end.

(** Modelled from the spec: [CryptoECDSA::VerifyData] on byte strings is
    defined in [EncryptionUtils.cpp].  "Returns true iff r, s in [1, n-1]
    and the ECDSA verification equation holds for SHA-256(message).  Any
    parse failure returns false (not an error)". *)
Definition VerifyData (binMessage binSignature pubkey65B : list Z) : bool :=
  match parse_signature binSignature, ParsePublicKey c pubkey65B with
  | Some (r, s), inr Q => verify_point c (digest binMessage) r s Q
  | _, _ => false
  end.

End Ecdsa.

(** A stand-in digest for running the scheme on small inputs. *)
Definition sample_digest (m : list Z) : list Z := be_encode 32 (fold_left Z.add m 7).

Definition sample_key : list Z := be_encode 32 7.

Local Close Scope Z_scope.

(** * More of SecureBinaryData: constructors, references, lifecycles *)

(** The constructors of [SecureBinaryData] defined in the header:
    [SecureBinaryData(void)] and [SecureBinaryData(uint32_t sz)] by size,
    the ones that take a [BinaryData], a pointer and a size, two pointers, a
    string or a [BinaryDataRef] by the bytes they copy in, and the copy
    constructor.  Each is the [BinaryData] constructor followed by
    [lockData()]. *)
Inductive constructor :=
| CtorSize (sz : nat)
| CtorBytes (src : list Z)
| CtorCopy (sbd2 : BinaryData).

Definition construct (c : constructor) (s : process) : BinaryData * process :=
  match c with
  | CtorSize sz => SecureBinaryData.create sz s
  | CtorBytes src => SecureBinaryData.from_bytes src s
  | CtorCopy sbd2 => SecureBinaryData.copy sbd2 s
  end.

(** The bytes a constructor puts into the new buffer. *)
Definition constructed_bytes (c : constructor) (s : process) : list Z :=
  match c with
  | CtorSize sz => replicate sz 0%Z
  | CtorBytes src => src
  | CtorCopy sbd2 => contents s sbd2
  end.

(** Reading through a [BinaryDataRef]: the pointer and the length that
    [getRawRef()] returned, looked up in the memory of the moment. *)
Definition read_ref (r : option block * nat) (s : process) : list Z :=
  load r.1 r.2 s.


(** The life of one buffer: a constructor, then any changes the caller
    makes to it; [lifetime] ends it with the destructor. *)
Definition lifecycle (c : constructor) (ms : list mutation) (s : process)
  : BinaryData * process :=
  let '(b, s1) := construct c s in mutate_all ms b s1.

Definition lifetime (c : constructor) (ms : list mutation) (s : process) : process :=
  let '(b, s1) := lifecycle c ms s in SecureBinaryData.dtor b s1.

(** What an operation on a buffer [b] does not do: it keeps no second block
    allocated.  A block in use afterwards is the buffer's own, or was in use
    before and belongs to something else. *)
Definition tidy (b : BinaryData) (s : process) (r : BinaryData * process) : Prop :=
  owns s b -> heap_ok s ->
  forall blk, block_live r.2 blk = true ->
    getPtr r.1 = Some blk \/ (block_live s blk = true /\ getPtr b <> Some blk).

(** A plain copy of a secure buffer, and then the rest of that buffer's
    life. *)
Definition raw_copy_then (ms : list mutation) (b : BinaryData) (s : process)
  : BinaryData * process :=
  let '(r, s1) := SecureBinaryData.getRawCopy b s in
  let '(b1, s2) := mutate_all ms b s1 in
  (r, SecureBinaryData.dtor b1 s2).

(** * Theorems: process memory and SecureBinaryData *)

(** ** The page rounding of the mlock macro *)

Local Open Scope Z_scope.

Lemma land_lnot_ones (a k : Z) :
  0 <= k -> Z.land a (Z.lnot (2 ^ k - 1)) = a - a mod 2 ^ k.
Proof.
  intros Hk. replace (2 ^ k - 1) with (Z.ones k) by (rewrite Z.ones_equiv; lia).
  rewrite <- Z.ldiff_land, Z.ldiff_ones_r by exact Hk.
  rewrite Z.shiftl_mul_pow2, Z.shiftr_div_pow2 by exact Hk.
  pose proof (Z.div_mod a (2 ^ k) ltac:(lia)). lia.
Qed.

Lemma lor_ones (a k : Z) :
  0 <= k -> Z.lor a (2 ^ k - 1) = a - a mod 2 ^ k + (2 ^ k - 1).
Proof.
  intros Hk.
  rewrite <- (Z.lnot_involutive a) at 1.
  rewrite <- (Z.lnot_involutive (2 ^ k - 1)).
  rewrite <- Z.lnot_land, land_lnot_ones by exact Hk.
  unfold Z.lnot.
  assert (Hp : 0 < 2 ^ k) by (apply Z.pow_pos_nonneg; lia).
  assert (Hm : Z.pred (- a) mod 2 ^ k = 2 ^ k - 1 - a mod 2 ^ k).
  { symmetry. apply (Z.mod_unique _ _ (- (a / 2 ^ k) - 1)).
    - left. pose proof (Z.mod_pos_bound a (2 ^ k) Hp). lia.
    - pose proof (Z.div_mod a (2 ^ k) ltac:(lia)). lia. }
  rewrite Hm. lia.
Qed.

(** The widened range is made of whole pages and contains the range asked
    for. *)
Lemma mlock_macro_covers (k a b : Z) :
  0 <= k -> 0 <= a -> 0 < b -> a + b + 2 ^ k <= 2 ^ 64 ->
  let base := mlock_base (2 ^ k) a in
  let len := mlock_length (2 ^ k) a b in
  base mod 2 ^ k = 0 /\ len mod 2 ^ k = 0 /\
  base <= a /\ a + b <= base + len /\
  a - base < 2 ^ k /\ base + len - (a + b) < 2 ^ k.
Proof.
  intros Hk Ha0 Hb Htop. cbv zeta. unfold mlock_length, mlock_base, size_t.
  assert (Hp : 0 < 2 ^ k) by (apply Z.pow_pos_nonneg; lia).
  pose proof (Z.mod_pos_bound a (2 ^ k) Hp) as Ha.
  pose proof (Z.mod_pos_bound (a + b - 1) (2 ^ k) Hp) as Hab.
  pose proof (Z.div_mod a (2 ^ k) ltac:(lia)) as Hda.
  pose proof (Z.div_mod (a + b - 1) (2 ^ k) ltac:(lia)) as Hdab.
  pose proof (Z.mod_le a (2 ^ k) Ha0 Hp) as Hle.
  pose proof (Z.mod_le (a + b - 1) (2 ^ k) ltac:(lia) Hp) as Hle'.
  rewrite land_lnot_ones by exact Hk.
  rewrite (Z.mod_small (a + b - 1)) by lia.
  rewrite lor_ones by exact Hk.
  rewrite (Z.mod_small (a - a mod 2 ^ k)) by lia.
  rewrite (Z.mod_small (a + b - 1 - (a + b - 1) mod 2 ^ k + (2 ^ k - 1) + 1)) by lia.
  rewrite (Z.mod_small (a + b - 1 - (a + b - 1) mod 2 ^ k + (2 ^ k - 1) + 1
                        - (a - a mod 2 ^ k))) by lia.
  split.
  { replace (a - a mod 2 ^ k) with (a / 2 ^ k * 2 ^ k) by lia. apply Z.mod_mul. lia. }
  split.
  { replace (a + b - 1 - (a + b - 1) mod 2 ^ k + (2 ^ k - 1) + 1 - (a - a mod 2 ^ k))
      with (((a + b - 1) / 2 ^ k + 1 - a / 2 ^ k) * 2 ^ k) by lia.
    apply Z.mod_mul. lia. }
  lia.
Qed.

Example mlock_macro_4k :
  mlock_base 4096 0x7f0012345678 = 0x7f0012345000 /\
  mlock_length 4096 0x7f0012345678 32 = 4096 /\
  mlock_length 4096 0x7f0012345ff0 32 = 8192.
Proof. vm_compute. repeat split. Qed.

(** ** The pages of a call *)

Lemma elem_of_pages (P first len q : Z) :
  q ∈ pages P first len <->
  first / P <= q < first / P + (first mod P + len + P - 1) / P.
Proof. unfold pages. rewrite elem_of_list_to_set, elem_of_seqZ. reflexivity. Qed.

(** For a call on whole pages, as the macros make it, the pages locked are
    those that start inside the range. *)
Lemma pages_aligned (k first len q : Z) :
  0 <= k -> first mod 2 ^ k = 0 -> len mod 2 ^ k = 0 ->
  q ∈ pages (2 ^ k) first len <-> first <= q * 2 ^ k < first + len.
Proof.
  intros Hk Hf Hl. rewrite elem_of_pages, Hf.
  assert (Hp : 0 < 2 ^ k) by (apply Z.pow_pos_nonneg; lia).
  pose proof (Z.div_mod first (2 ^ k) ltac:(lia)) as Hdf.
  pose proof (Z.div_mod len (2 ^ k) ltac:(lia)) as Hdl.
  assert (Hq : (0 + len + 2 ^ k - 1) / 2 ^ k = len / 2 ^ k).
  { symmetry. apply (Z.div_unique _ _ _ (2 ^ k - 1)); [left; lia | lia]. }
  rewrite Hq. nia.
Qed.

Lemma page_in_pages (k first len x : Z) :
  0 <= k -> first mod 2 ^ k = 0 -> len mod 2 ^ k = 0 ->
  first <= x < first + len -> page_of (2 ^ k) x ∈ pages (2 ^ k) first len.
Proof.
  intros Hk Hf Hl Hx. apply pages_aligned; try assumption. unfold page_of.
  assert (Hp : 0 < 2 ^ k) by (apply Z.pow_pos_nonneg; lia).
  pose proof (Z.div_mod first (2 ^ k) ltac:(lia)) as Hdf.
  pose proof (Z.div_mod x (2 ^ k) ltac:(lia)) as Hdx.
  pose proof (Z.mod_pos_bound x (2 ^ k) Hp) as Hmx.
  assert (first / 2 ^ k <= x / 2 ^ k) by (apply Z.div_le_mono; lia).
  nia.
Qed.

Lemma pages_only (k first len q : Z) :
  0 <= k -> first mod 2 ^ k = 0 -> len mod 2 ^ k = 0 ->
  q ∈ pages (2 ^ k) first len ->
  first <= q * 2 ^ k < first + len /\ page_of (2 ^ k) (q * 2 ^ k) = q.
Proof.
  intros Hk Hf Hl Hq. split; [apply pages_aligned in Hq; assumption |].
  unfold page_of. apply Z.div_mul.
  assert (Hp : 0 < 2 ^ k) by (apply Z.pow_pos_nonneg; lia). lia.
Qed.

Local Close Scope Z_scope.

(** ** Reading blocks after each primitive *)

Lemma block_bytes_update_eq (s : process) (blk : block) (f : list Z -> list Z) :
  is_Some (heap s !! blk) ->
  block_bytes (update_bytes blk f s) blk = f (block_bytes s blk).
Proof.
  intros [st Hst]. unfold block_bytes, update_bytes; simpl.
  rewrite lookup_alter_eq, Hst. reflexivity.
Qed.

Lemma block_bytes_update_ne (s : process) (blk blk' : block) (f : list Z -> list Z) :
  blk <> blk' ->
  block_bytes (update_bytes blk f s) blk' = block_bytes s blk'.
Proof.
  intros Hne. unfold block_bytes, update_bytes; simpl.
  rewrite lookup_alter_ne by done. reflexivity.
Qed.

Lemma block_live_update (s : process) (blk blk' : block) (f : list Z -> list Z) :
  block_live (update_bytes blk f s) blk' = block_live s blk'.
Proof.
  unfold block_live, update_bytes; simpl.
  destruct (decide (blk = blk')) as [->|Hne].
  - rewrite lookup_alter_eq. destruct (heap s !! blk'); reflexivity.
  - rewrite lookup_alter_ne by done. reflexivity.
Qed.

Lemma block_bytes_free (s : process) (blk blk' : block) :
  block_bytes (free blk s) blk' = block_bytes s blk'.
Proof.
  unfold block_bytes, free; simpl.
  destruct (decide (blk = blk')) as [->|Hne].
  - rewrite lookup_alter_eq. destruct (heap s !! blk'); reflexivity.
  - rewrite lookup_alter_ne by done. reflexivity.
Qed.

Lemma block_live_free_eq (s : process) (blk : block) :
  block_live (free blk s) blk = false.
Proof.
  unfold block_live, free; simpl. rewrite lookup_alter_eq.
  destruct (heap s !! blk); reflexivity.
Qed.

Lemma block_live_free_ne (s : process) (blk blk' : block) :
  blk <> blk' -> block_live (free blk s) blk' = block_live s blk'.
Proof.
  intros Hne. unfold block_live, free; simpl.
  rewrite lookup_alter_ne by done. reflexivity.
Qed.

Lemma block_live_is_Some (s : process) (blk : block) :
  block_live s blk = true -> is_Some (heap s !! blk).
Proof.
  unfold block_live. destruct (heap s !! blk); [eauto | discriminate].
Qed.

Lemma block_bytes_malloc_eq (s : process) (init : list Z) :
  block_bytes (malloc init s).2 (next_block s) = init.
Proof. unfold block_bytes, malloc; simpl. rewrite lookup_insert_eq. reflexivity. Qed.

Lemma block_bytes_malloc_ne (s : process) (init : list Z) (blk : block) :
  blk <> next_block s ->
  block_bytes (malloc init s).2 blk = block_bytes s blk.
Proof.
  intros Hne. unfold block_bytes, malloc; simpl.
  rewrite lookup_insert_ne by done. reflexivity.
Qed.

Lemma block_live_malloc_eq (s : process) (init : list Z) :
  block_live (malloc init s).2 (next_block s) = true.
Proof. unfold block_live, malloc; simpl. rewrite lookup_insert_eq. reflexivity. Qed.

Lemma block_live_malloc_ne (s : process) (init : list Z) (blk : block) :
  blk <> next_block s ->
  block_live (malloc init s).2 blk = block_live s blk.
Proof.
  intros Hne. unfold block_live, malloc; simpl.
  rewrite lookup_insert_ne by done. reflexivity.
Qed.

(** The pages of a call made for a block that lies in the address space
    hold every byte the call was made for. *)
Lemma macro_pages_covers (s : process) (blk : block) (n i : nat) :
  in_address_space s blk n -> i < n ->
  page_of (PAGESIZE s) (place s blk + Z.of_nat i) ∈ macro_pages s blk n.
Proof.
  intros [Ha Htop] Hi. unfold macro_pages, PAGESIZE in *.
  destruct (mlock_macro_covers (Z.of_nat (page_bits s)) (place s blk) (Z.of_nat n)
              ltac:(lia) Ha ltac:(lia) ltac:(lia))
    as (Hb & Hl & Hlo & Hhi & _).
  cbv zeta in *. apply page_in_pages; [lia | exact Hb | exact Hl | lia].
Qed.

(** They are pages of the buffer, each of them. *)
Lemma macro_pages_only (s : process) (blk : block) (n : nat) (q : Z) :
  in_address_space s blk n -> 0 < n -> q ∈ macro_pages s blk n ->
  exists i, i < n /\ page_of (PAGESIZE s) (place s blk + Z.of_nat i) = q.
Proof.
  intros [Ha Htop] Hn Hq. unfold macro_pages, PAGESIZE in *.
  set (k := Z.of_nat (page_bits s)) in *.
  assert (Hk : (0 <= k)%Z) by (subst k; lia).
  assert (Hp : (0 < 2 ^ k)%Z) by (apply Z.pow_pos_nonneg; lia).
  destruct (mlock_macro_covers k (place s blk) (Z.of_nat n)
              Hk Ha ltac:(lia) ltac:(lia))
    as (Hb & Hl & Hlo & Hhi & Hbelow & Habove).
  cbv zeta in *.
  destruct (pages_only k _ _ q Hk Hb Hl Hq) as [Hin Hpage].
  set (a := place s blk) in *.
  set (base := mlock_base (2 ^ k) a) in *.
  set (len := mlock_length (2 ^ k) a (Z.of_nat n)) in *.
  (* the page starts at [q * 2^k]; the byte of the buffer on it is the first
     one when the page starts below the buffer, and the one at the start of
     the page otherwise *)
  destruct (Z_le_gt_dec (q * 2 ^ k) a) as [Hle | Hgt].
  - exists 0. split; [exact Hn |]. unfold page_of. rewrite Z.add_0_r.
    symmetry. apply (Z.div_unique _ _ _ (a - q * 2 ^ k)); [left; lia | lia].
  - exists (Z.to_nat (q * 2 ^ k - a)).
    assert (Hlast : (q * 2 ^ k < a + Z.of_nat n)%Z).
    { destruct (Z_lt_ge_dec (q * 2 ^ k) (a + Z.of_nat n)) as [H | H]; [exact H |].
      exfalso.
      pose proof (Z.div_mod (base + len) (2 ^ k) ltac:(lia)) as Hd.
      assert (Hm : ((base + len) mod 2 ^ k = 0)%Z).
      { rewrite Z.add_mod, Hb, Hl by lia. reflexivity. }
      assert (q + 1 <= (base + len) / 2 ^ k)%Z by nia.
      nia. }
    split; [lia |]. rewrite Z2Nat.id by lia.
    replace (a + (q * 2 ^ k - a))%Z with (q * 2 ^ k)%Z by lia. exact Hpage.
Qed.

Lemma mlock_locks (s : process) (blk : block) (n : nat) :
  kernel s blk n = true -> in_address_space s blk n ->
  range_locked (mlock blk n s) blk n.
Proof.
  intros Hg Hin i Hi. unfold byte_locked. simpl. rewrite Hg.
  apply elem_of_union. right.
  apply (macro_pages_covers s blk n i Hin Hi).
Qed.

Lemma locked_munlock (s : process) (blk : block) (n : nat) :
  locked (munlock blk n s) = locked s ∖ macro_pages s blk n.
Proof. reflexivity. Qed.

Lemma locked_mlock (s : process) (blk : block) (n : nat) :
  locked (mlock blk n s)
  = if kernel s blk n then locked s ∪ macro_pages s blk n else locked s.
Proof. reflexivity. Qed.

Lemma same_layout_refl (s : process) : same_layout s s.
Proof. split; reflexivity. Qed.

Lemma same_layout_trans (s1 s2 s3 : process) :
  same_layout s1 s2 -> same_layout s2 s3 -> same_layout s1 s3.
Proof. intros [H1 H2] [H3 H4]. split; congruence. Qed.

(** Locking and then unlocking the same pages leaves them unlocked,
    whoever had them locked before. *)
Lemma locked_after_lock_unlock (g : bool) (l M : gset Z) :
  (if g then l ∪ M else l) ∖ M = l ∖ M.
Proof.
  apply set_eq. intros q.
  destruct g; rewrite ?elem_of_difference, ?elem_of_union; tauto.
Qed.

Lemma difference_twice (l M : gset Z) : (l ∖ M) ∖ M = l ∖ M.
Proof. apply set_eq. intros q. rewrite !elem_of_difference. tauto. Qed.

Lemma locked_mlock_mono (s : process) (blk : block) (n : nat) (q : Z) :
  q ∈ locked s -> q ∈ locked (mlock blk n s).
Proof.
  intros H. simpl. destruct (kernel s blk n); [| exact H].
  apply elem_of_union. left. exact H.
Qed.

Lemma owns_live (s : process) (b : BinaryData) (blk : block) :
  owns s b -> getPtr b = Some blk ->
  block_live s blk = true /\ getSize b <= length (block_bytes s blk).
Proof. unfold owns. intros H Hp. rewrite Hp in H. exact H. Qed.

Lemma owns_ptr (s : process) (b : BinaryData) :
  owns s b -> 0 < getSize b -> exists blk, getPtr b = Some blk.
Proof.
  unfold owns. destruct (getPtr b) as [blk|]; [eauto | lia].
Qed.

Lemma take_replicate_app (n : nat) (z : Z) (l : list Z) :
  take n (replicate n z ++ l) = replicate n z.
Proof.
  rewrite take_app_le by (rewrite length_replicate; lia).
  rewrite take_ge by (rewrite length_replicate; lia). reflexivity.
Qed.

(** ** destroy *)

Lemma destroy_nonempty (s : process) (b : BinaryData) (blk : block) :
  getPtr b = Some blk -> 0 < getSize b ->
  SecureBinaryData.destroy b s =
    (b, munlock blk (getSize b) (memset blk 0%Z (getSize b) s)).
Proof.
  intros Hp Hn. unfold SecureBinaryData.destroy, BinaryData_fill.
  assert (H0 : (0 <? getSize b) = true) by (apply Nat.ltb_lt; lia).
  rewrite H0, Hp. cbv beta iota zeta. rewrite Hp. reflexivity.
Qed.

Lemma destroy_empty (s : process) (b : BinaryData) :
  getSize b = 0 -> SecureBinaryData.destroy b s = (b, s).
Proof. intros H. unfold SecureBinaryData.destroy. rewrite H. reflexivity. Qed.

Lemma lockData_empty (s : process) (b : BinaryData) :
  getSize b = 0 -> SecureBinaryData.lockData b s = (b, s).
Proof. intros H. unfold SecureBinaryData.lockData. rewrite H. reflexivity. Qed.

(** ** Steps that keep the heap in order *)

Lemma step_ok_refl (b : BinaryData) (s : process) : step_ok b s (b, s).
Proof.
  intros Ho Hh. simpl. split; [exact Ho |]. split; [exact Hh |]. split; [lia |].
  split; [intros; split; reflexivity | left; reflexivity].
Qed.

Lemma step_ok_trans (b : BinaryData) (s : process) (r1 r2 : BinaryData * process) :
  step_ok b s r1 -> step_ok r1.1 r1.2 r2 -> step_ok b s r2.
Proof.
  intros H1 H2 Ho Hh.
  destruct (H1 Ho Hh) as (Ho1 & Hh1 & Hn1 & Hf1 & Hp1).
  destruct (H2 Ho1 Hh1) as (Ho2 & Hh2 & Hn2 & Hf2 & Hp2).
  split; [exact Ho2 |]. split; [exact Hh2 |]. split; [lia |]. split.
  - intros blk Hne Hlt.
    assert (Hne1 : getPtr r1.1 <> Some blk).
    { destruct Hp1 as [Heq | (blk' & Heq & Hge)]; rewrite Heq; [exact Hne |].
      intros [= ->]. lia. }
    destruct (Hf2 blk Hne1 ltac:(lia)) as [Hb Hl].
    destruct (Hf1 blk Hne Hlt) as [Hb' Hl'].
    split; congruence.
  - destruct Hp2 as [Heq2 | (blk2 & Heq2 & Hge2)].
    + rewrite Heq2. destruct Hp1 as [Heq1 | (blk1 & Heq1 & Hge1)]; [left; exact Heq1 |].
      right. exists blk1. split; [exact Heq1 | exact Hge1].
    + right. exists blk2. split; [exact Heq2 | lia].
Qed.

Lemma heap_ok_update (s : process) (blk : block) (f : list Z -> list Z) :
  heap_ok s -> heap_ok (update_bytes blk f s).
Proof.
  intros Hh b' Hs. simpl in *. apply Hh.
  destruct (decide (blk = b')) as [->|Hne].
  - rewrite lookup_alter_eq in Hs. destruct (heap s !! b'); [eauto | destruct Hs; discriminate].
  - rewrite lookup_alter_ne in Hs by done. exact Hs.
Qed.

Lemma heap_ok_free (s : process) (blk : block) : heap_ok s -> heap_ok (free blk s).
Proof.
  intros Hh b' Hs. simpl in *. apply Hh.
  destruct (decide (blk = b')) as [->|Hne].
  - rewrite lookup_alter_eq in Hs. destruct (heap s !! b'); [eauto | destruct Hs; discriminate].
  - rewrite lookup_alter_ne in Hs by done. exact Hs.
Qed.

Lemma heap_ok_malloc (s : process) (init : list Z) :
  heap_ok s -> heap_ok (malloc init s).2.
Proof.
  intros Hh b' Hs. simpl in *.
  destruct (decide (next_block s = b')) as [<-|Hne]; [lia |].
  rewrite lookup_insert_ne in Hs by done. specialize (Hh b' Hs). lia.
Qed.

Lemma heap_ok_mlock (s : process) (blk : block) (n : nat) :
  heap_ok s -> heap_ok (mlock blk n s).
Proof. intros Hh. exact Hh. Qed.

Lemma heap_ok_munlock (s : process) (blk : block) (n : nat) :
  heap_ok s -> heap_ok (munlock blk n s).
Proof. intros Hh. exact Hh. Qed.

Lemma heap_ok_boot_at (pl : block -> Z) (bits : nat) (k : block -> nat -> bool) :
  heap_ok (boot_at pl bits k).
Proof.
  intros blk Hs. simpl in Hs. rewrite lookup_empty in Hs. destruct Hs; discriminate.
Qed.

Lemma heap_ok_boot (k : block -> nat -> bool) : heap_ok (boot k).
Proof. apply heap_ok_boot_at. Qed.

Lemma owns_lt (s : process) (b : BinaryData) (blk : block) :
  owns s b -> heap_ok s -> getPtr b = Some blk -> blk < next_block s.
Proof.
  intros Ho Hh Hp. apply Hh. apply block_live_is_Some.
  apply (owns_live s b blk Ho Hp).
Qed.

(** A write inside the buffer's own block. *)
Lemma step_ok_update (b : BinaryData) (s : process) (blk : block)
      (f : list Z -> list Z) :
  getPtr b = Some blk ->
  length (f (block_bytes s blk)) = length (block_bytes s blk) ->
  step_ok b s (b, update_bytes blk f s).
Proof.
  intros Hp Hlen Ho Hh. simpl.
  destruct (owns_live s b blk Ho Hp) as [Hlive Hsz].
  split.
  { unfold owns. rewrite Hp. rewrite block_live_update.
    rewrite block_bytes_update_eq by (apply block_live_is_Some; exact Hlive).
    split; [exact Hlive | lia]. }
  split; [apply heap_ok_update; exact Hh |].
  split; [lia |]. split; [| left; reflexivity].
  intros blk' Hne _. rewrite block_live_update.
  rewrite block_bytes_update_ne by congruence. split; reflexivity.
Qed.

Lemma step_ok_fill (ch : Z) (b : BinaryData) (s : process) :
  step_ok b s (BinaryData_fill ch b s).
Proof.
  unfold BinaryData_fill. destruct (0 <? getSize b); [| apply step_ok_refl].
  destruct (getPtr b) as [blk|] eqn:Hp; [| apply step_ok_refl].
  intros Ho Hh. apply (step_ok_update b s blk); auto.
  destruct (owns_live s b blk Ho Hp) as [_ Hsz].
  rewrite length_app, length_replicate, length_drop. lia.
Qed.

Lemma step_ok_store (i : nat) (v : Z) (b : BinaryData) (s : process) :
  step_ok b s (mutate (MStore i v) b s).
Proof.
  simpl. destruct (getPtr b) as [blk|] eqn:Hp; [| apply step_ok_refl].
  destruct (i <? getSize b); [| apply step_ok_refl].
  apply step_ok_update; [exact Hp |]. apply length_insert.
Qed.

Lemma step_ok_mlock (b : BinaryData) (s : process) (blk : block) (n : nat) :
  getPtr b = Some blk -> step_ok b s (b, mlock blk n s).
Proof.
  intros Hp Ho Hh. simpl. split; [exact Ho |].
  split; [apply heap_ok_mlock; exact Hh |].
  split; [lia |]. split; [| left; reflexivity].
  intros blk' _ _. split; reflexivity.
Qed.

Lemma step_ok_munlock (b : BinaryData) (s : process) (blk : block) (n : nat) :
  step_ok b s (b, munlock blk n s).
Proof.
  intros Ho Hh. simpl. split; [exact Ho |].
  split; [apply heap_ok_munlock; exact Hh |].
  split; [lia |]. split; [| left; reflexivity].
  intros blk' _ _. split; reflexivity.
Qed.

Lemma step_ok_lockData (b : BinaryData) (s : process) :
  step_ok b s (SecureBinaryData.lockData b s).
Proof.
  unfold SecureBinaryData.lockData.
  destruct (0 <? getSize b); [| apply step_ok_refl].
  destruct (getPtr b) as [blk|] eqn:Hp; [| apply step_ok_refl].
  apply step_ok_mlock. exact Hp.
Qed.

Lemma step_ok_destroy (b : BinaryData) (s : process) :
  step_ok b s (SecureBinaryData.destroy b s).
Proof.
  destruct (Nat.eq_dec (getSize b) 0) as [Hz | Hnz].
  { rewrite destroy_empty by exact Hz. apply step_ok_refl. }
  intros Ho Hh. destruct (owns_ptr s b Ho ltac:(lia)) as [blk Hp].
  rewrite (destroy_nonempty s b blk Hp) by lia.
  revert Ho Hh.
  apply (step_ok_trans b s (b, memset blk 0%Z (getSize b) s)).
  - intros Ho Hh. apply (step_ok_update b s blk); auto.
    destruct (owns_live s b blk Ho Hp) as [_ Hsz].
    rewrite length_app, length_replicate, length_drop. lia.
  - apply step_ok_munlock.
Qed.

(** A fresh block for a buffer that had none. *)
Lemma step_ok_first_block (b : BinaryData) (s : process) (init : list Z) (n : nat) :
  getPtr b = None -> n <= length init ->
  step_ok b s (mkBinaryData (Some (next_block s)) n, (malloc init s).2).
Proof.
  intros Hp Hn Ho Hh. cbn [fst snd].
  split.
  { unfold owns. cbn [getPtr getSize data_ nBytes_].
    rewrite block_live_malloc_eq, block_bytes_malloc_eq.
    split; [reflexivity | exact Hn]. }
  split; [apply heap_ok_malloc; exact Hh |].
  split; [simpl; lia |]. split.
  - intros blk _ Hlt.
    rewrite block_bytes_malloc_ne, block_live_malloc_ne by lia. split; reflexivity.
  - right. exists (next_block s). split; [reflexivity | lia].
Qed.

(** The buffer moves to a fresh block and the old block is freed. *)
Lemma step_ok_move (b : BinaryData) (s : process) (blk : block)
      (init : list Z) (n : nat) :
  getPtr b = Some blk -> n <= length init ->
  step_ok b s (mkBinaryData (Some (next_block s)) n, free blk (malloc init s).2).
Proof.
  intros Hp Hn Ho Hh. cbn [fst snd].
  pose proof (owns_lt s b blk Ho Hh Hp) as Hlt.
  split.
  { unfold owns. cbn [getPtr getSize data_ nBytes_].
    rewrite block_bytes_free, block_live_free_ne by lia.
    rewrite block_live_malloc_eq, block_bytes_malloc_eq.
    split; [reflexivity | exact Hn]. }
  split; [apply heap_ok_free, heap_ok_malloc; exact Hh |].
  split; [simpl; lia |]. split.
  - intros blk' Hne Hlt'.
    rewrite block_bytes_free, block_live_free_ne by congruence.
    rewrite block_bytes_malloc_ne, block_live_malloc_ne by lia. split; reflexivity.
  - right. exists (next_block s). split; [reflexivity | lia].
Qed.

(** Shrinking changes the length only. *)
Lemma step_ok_shrink (b : BinaryData) (s : process) (blk : block) (n : nat) :
  getPtr b = Some blk -> n <= getSize b ->
  step_ok b s (mkBinaryData (Some blk) n, s).
Proof.
  intros Hp Hn Ho Hh. cbn [fst snd].
  destruct (owns_live s b blk Ho Hp) as [Hlive Hsz].
  split; [unfold owns; cbn [getPtr getSize data_ nBytes_]; split; [exact Hlive | lia] |].
  split; [exact Hh |]. split; [lia |].
  split; [intros; split; reflexivity | left; symmetry; exact Hp].
Qed.

Lemma step_ok_BinaryData_resize (sz : nat) (b : BinaryData) (s : process) :
  step_ok b s (BinaryData_resize sz b s).
Proof.
  unfold BinaryData_resize. destruct (getPtr b) as [blk|] eqn:Hp.
  - destruct (sz <=? length (block_bytes s blk)) eqn:Hcap.
    + apply Nat.leb_le in Hcap. destruct (sz <=? getSize b) eqn:Hsh.
      * apply Nat.leb_le in Hsh. apply step_ok_shrink; assumption.
      * apply Nat.leb_gt in Hsh. intros Ho Hh.
        destruct (owns_live s b blk Ho Hp) as [Hlive Hsz].
        assert (Hlen : length (take (getSize b) (block_bytes s blk)
                                 ++ replicate (sz - getSize b) 0%Z
                                 ++ drop sz (block_bytes s blk))
                       = length (block_bytes s blk)).
        { rewrite !length_app, length_take, length_replicate, length_drop. lia. }
        revert Ho Hh.
        apply (step_ok_trans b s
                 (b, update_bytes blk
                       (fun old => take (getSize b) old ++ replicate (sz - getSize b) 0%Z
                                     ++ drop sz old) s)).
        -- apply step_ok_update; [exact Hp | exact Hlen].
        -- cbn [fst snd]. intros Ho Hh.
           destruct (owns_live _ b blk Ho Hp) as [Hlive' Hsz'].
           split; [unfold owns; cbn [getPtr getSize data_ nBytes_ fst snd]; split;
                   [exact Hlive' |] |].
           { rewrite block_bytes_update_eq by (apply block_live_is_Some; exact Hlive).
             rewrite Hlen. exact Hcap. }
           split; [exact Hh |]. split; [simpl; lia |].
           split; [intros; split; reflexivity | left; symmetry; exact Hp].
    + apply Nat.leb_gt in Hcap. intros Ho Hh.
      destruct (owns_live s b blk Ho Hp) as [Hlive Hsz].
      revert Ho Hh. apply (step_ok_move b s blk); [exact Hp |].
      rewrite !length_app, !length_replicate, length_take. lia.
  - destruct (sz =? 0); [apply step_ok_refl |].
    apply (step_ok_first_block b s); [exact Hp |]. rewrite length_replicate. lia.
Qed.

Lemma step_ok_BinaryData_reserve (sz : nat) (b : BinaryData) (s : process) :
  step_ok b s (BinaryData_reserve sz b s).
Proof.
  unfold BinaryData_reserve. destruct (getPtr b) as [blk|] eqn:Hp.
  - destruct (sz <=? length (block_bytes s blk)) eqn:Hcap; [apply step_ok_refl |].
    apply Nat.leb_gt in Hcap. intros Ho Hh.
    destruct (owns_live s b blk Ho Hp) as [Hlive Hsz].
    revert Ho Hh. apply (step_ok_move b s blk); [exact Hp |].
    rewrite !length_app, !length_replicate, length_take. lia.
  - destruct (sz =? 0); [apply step_ok_refl |].
    intros Ho Hh. assert (Hz : getSize b = 0) by (unfold owns in Ho; rewrite Hp in Ho; exact Ho).
    revert Ho Hh. rewrite Hz.
    apply (step_ok_first_block b s); [exact Hp | lia].
Qed.

Lemma step_ok_resize (sz : nat) (b : BinaryData) (s : process) :
  step_ok b s (SecureBinaryData.resize sz b s).
Proof.
  unfold SecureBinaryData.resize.
  destruct (BinaryData_resize sz b s) as [b1 s1] eqn:E.
  apply (step_ok_trans b s (b1, s1)).
  - rewrite <- E. apply step_ok_BinaryData_resize.
  - apply step_ok_lockData.
Qed.

Lemma step_ok_reserve (sz : nat) (b : BinaryData) (s : process) :
  step_ok b s (SecureBinaryData.reserve sz b s).
Proof.
  unfold SecureBinaryData.reserve.
  destruct (BinaryData_reserve sz b s) as [b1 s1] eqn:E.
  apply (step_ok_trans b s (b1, s1)).
  - rewrite <- E. apply step_ok_BinaryData_reserve.
  - apply step_ok_lockData.
Qed.

Lemma step_ok_mutate (m : mutation) (b : BinaryData) (s : process) :
  step_ok b s (mutate m b s).
Proof.
  destruct m as [ch | i v | sz | sz |].
  - apply step_ok_fill.
  - apply step_ok_store.
  - apply step_ok_resize.
  - apply step_ok_reserve.
  - apply step_ok_destroy.
Qed.

Lemma step_ok_mutate_all (ms : list mutation) (b : BinaryData) (s : process) :
  step_ok b s (mutate_all ms b s).
Proof.
  revert b s. induction ms as [| m ms IH]; intros b s; simpl.
  - apply step_ok_refl.
  - destruct (mutate m b s) as [b1 s1] eqn:E.
    apply (step_ok_trans b s (b1, s1)).
    + rewrite <- E. apply step_ok_mutate.
    + apply IH.
Qed.

(** A step on one buffer leaves the contents of every other buffer alone. *)
Lemma step_ok_frame (b y : BinaryData) (s : process) (r : BinaryData * process) :
  step_ok b s r -> owns s b -> heap_ok s -> owns s y -> separate b y ->
  contents r.2 y = contents s y /\ owns r.2 y /\ separate r.1 y.
Proof.
  intros Hstep Ho Hh Hy Hsep.
  destruct (Hstep Ho Hh) as (Ho1 & Hh1 & Hn1 & Hf1 & Hp1).
  destruct (getPtr y) as [blk|] eqn:Hpy.
  - assert (Hlt : blk < next_block s) by (eapply owns_lt; eauto).
    assert (Hne : getPtr b <> Some blk).
    { intros Heq. apply (Hsep blk Heq). exact Hpy. }
    destruct (Hf1 blk Hne Hlt) as [Hb Hl].
    split; [unfold contents, load; rewrite Hpy, Hb; reflexivity |].
    split.
    + unfold owns in *. rewrite Hpy in *. rewrite Hb, Hl. exact Hy.
    + intros blk' Hp' Hy'. rewrite Hpy in Hy'. injection Hy' as <-.
      destruct Hp1 as [Heq | (blk1 & Heq & Hge)]; rewrite Heq in Hp'.
      * contradiction.
      * injection Hp' as <-. lia.
  - split; [unfold contents, load; rewrite Hpy; reflexivity |].
    split; [unfold owns in *; rewrite Hpy in *; exact Hy |].
    intros blk' _ Hy'. rewrite Hpy in Hy'. discriminate.
Qed.

(** ** Constructors *)

Lemma owns_no_buffer (s : process) : owns s no_buffer.
Proof. reflexivity. Qed.

Lemma step_ok_copyFrom (src : list Z) (s : process) :
  step_ok no_buffer s (BinaryData_copyFrom src s).
Proof.
  unfold BinaryData_copyFrom. destruct (length src =? 0); [apply step_ok_refl |].
  apply (step_ok_first_block no_buffer s); [reflexivity | lia].
Qed.

Lemma step_ok_alloc (sz : nat) (s : process) :
  step_ok no_buffer s (BinaryData_alloc sz s).
Proof.
  unfold BinaryData_alloc. destruct (sz =? 0); [apply step_ok_refl |].
  apply (step_ok_first_block no_buffer s); [reflexivity |].
  rewrite length_replicate. lia.
Qed.

Lemma step_ok_from_bytes (src : list Z) (s : process) :
  step_ok no_buffer s (SecureBinaryData.from_bytes src s).
Proof.
  unfold SecureBinaryData.from_bytes.
  destruct (BinaryData_copyFrom src s) as [b1 s1] eqn:E.
  apply (step_ok_trans no_buffer s (b1, s1)).
  - rewrite <- E. apply step_ok_copyFrom.
  - apply step_ok_lockData.
Qed.

Lemma step_ok_create (sz : nat) (s : process) :
  step_ok no_buffer s (SecureBinaryData.create sz s).
Proof.
  unfold SecureBinaryData.create.
  destruct (BinaryData_alloc sz s) as [b1 s1] eqn:E.
  apply (step_ok_trans no_buffer s (b1, s1)).
  - rewrite <- E. apply step_ok_alloc.
  - apply step_ok_lockData.
Qed.

Lemma step_ok_copy (sbd2 : BinaryData) (s : process) :
  step_ok no_buffer s (SecureBinaryData.copy sbd2 s).
Proof.
  unfold SecureBinaryData.copy.
  destruct (BinaryData_copyFrom _ s) as [b1 s1] eqn:E.
  apply (step_ok_trans no_buffer s (b1, s1)).
  - rewrite <- E. apply step_ok_copyFrom.
  - apply step_ok_lockData.
Qed.

Lemma separate_no_buffer (y : BinaryData) : separate no_buffer y.
Proof. intros blk H. discriminate. Qed.

Lemma separate_sym (x y : BinaryData) : separate x y -> separate y x.
Proof. intros H blk Hy Hx. exact (H blk Hx Hy). Qed.

Lemma length_contents (s : process) (b : BinaryData) :
  owns s b -> length (contents s b) = getSize b.
Proof.
  unfold owns, contents, load. destruct (getPtr b) as [blk|].
  - intros [_ Hsz]. rewrite length_take. lia.
  - intros ->. reflexivity.
Qed.

(** Every buffer built from bytes in a fresh process and then changed in
    any way is a buffer of a well-ordered process. *)
Lemma constructed_buffer_ok (k : block -> nat -> bool) (src : list Z)
      (ms : list mutation) :
  let r := SecureBinaryData.from_bytes src (boot k) in
  owns (mutate_all ms r.1 r.2).2 (mutate_all ms r.1 r.2).1 /\
  heap_ok (mutate_all ms r.1 r.2).2.
Proof.
  cbv zeta.
  destruct (step_ok_from_bytes src (boot k) (owns_no_buffer _) (heap_ok_boot _))
    as (Ho & Hh & _).
  destruct (step_ok_mutate_all ms _ _ Ho Hh) as (Ho1 & Hh1 & _).
  split; assumption.
Qed.

(** The sample runs are buffers of well-ordered processes. *)
(** In the sample layout the first blocks lie well inside the address
    space. *)
Lemma sample_in_address_space (s : process) (blk n : nat) :
  place s = sample_place -> page_bits s = 12 -> blk < 1000 -> n < 1000 ->
  in_address_space s blk n.
Proof.
  intros Hp Hb Hblk Hn. unfold in_address_space, PAGESIZE. rewrite Hp, Hb.
  unfold sample_place. change (2 ^ Z.of_nat 12)%Z with 4096%Z. lia.
Qed.

Lemma secret4_ok : owns secret4.2 secret4.1 /\ heap_ok secret4.2.
Proof.
  destruct (step_ok_from_bytes [1; 2; 3; 4]%Z (boot grant_all)
              (owns_no_buffer _) (heap_ok_boot _)) as (Ho & Hh & _).
  split; assumption.
Qed.

Lemma shrunk_secret_ok : owns shrunk_secret.2 shrunk_secret.1 /\ heap_ok shrunk_secret.2.
Proof.
  destruct secret4_ok as [Ho Hh]. unfold shrunk_secret.
  destruct secret4 as [b s]. 
  destruct (step_ok_resize 2 b s Ho Hh) as (Ho1 & Hh1 & _).
  split; assumption.
Qed.

Lemma grown_secret_ok : owns grown_secret.2 grown_secret.1 /\ heap_ok grown_secret.2.
Proof.
  destruct secret4_ok as [Ho Hh]. unfold grown_secret.
  destruct secret4 as [b s]. 
  destruct (step_ok_resize 8 b s Ho Hh) as (Ho1 & Hh1 & _).
  split; assumption.
Qed.

Example secret4_run :
  secret4.1 = mkBinaryData (Some 0) 4 /\
  contents secret4.2 secret4.1 = [1; 2; 3; 4]%Z /\
  trace secret4.2 = [EvMalloc 0 4; EvMlock 0 4 true].
Proof. vm_compute. repeat split. Qed.

Example shrunk_secret_run :
  shrunk_secret.1 = mkBinaryData (Some 0) 2 /\
  block_bytes shrunk_secret.2 0 = [1; 2; 3; 4]%Z /\
  trace shrunk_secret.2 = [EvMalloc 0 4; EvMlock 0 4 true; EvMlock 0 2 true].
Proof. vm_compute. repeat split. Qed.

Example grown_secret_run :
  grown_secret.1 = mkBinaryData (Some 1) 8 /\
  contents grown_secret.2 grown_secret.1 = [1; 2; 3; 4; 0; 0; 0; 0]%Z /\
  trace grown_secret.2 =
    [EvMalloc 0 4; EvMlock 0 4 true; EvMalloc 1 8; EvFree 0; EvMlock 1 8 true].
Proof. vm_compute. repeat split. Qed.

(** ** Destruction *)

Lemma dtor_nonempty (s : process) (b : BinaryData) (blk : block) :
  getPtr b = Some blk -> 0 < getSize b ->
  SecureBinaryData.dtor b s =
    free blk (munlock blk (getSize b) (memset blk 0%Z (getSize b) s)).
Proof.
  intros Hp Hn. unfold SecureBinaryData.dtor.
  rewrite (destroy_nonempty s b blk Hp Hn). unfold BinaryData_dtor.
  rewrite Hp. reflexivity.
Qed.

Lemma wiped_prefix (s : process) (blk : block) (n : nat) :
  block_live s blk = true ->
  take n (block_bytes (memset blk 0%Z n s) blk) = replicate n 0%Z.
Proof.
  intros Hlive. unfold memset.
  rewrite block_bytes_update_eq by (apply block_live_is_Some; exact Hlive).
  apply take_replicate_app.
Qed.

Lemma dtor_wipes (s : process) (b : BinaryData) (blk : block) :
  owns s b -> getPtr b = Some blk -> 0 < getSize b ->
  take (getSize b) (block_bytes (SecureBinaryData.destroy b s).2 blk)
    = replicate (getSize b) 0%Z /\
  block_live (SecureBinaryData.destroy b s).2 blk = true /\
  SecureBinaryData.dtor b s = free blk (SecureBinaryData.destroy b s).2 /\
  block_live (SecureBinaryData.dtor b s) blk = false /\
  take (getSize b) (block_bytes (SecureBinaryData.dtor b s) blk)
    = replicate (getSize b) 0%Z /\
  length (block_bytes (SecureBinaryData.dtor b s) blk) = length (block_bytes s blk) /\
  trace (SecureBinaryData.dtor b s)
    = trace s ++ [EvMunlock blk (getSize b); EvFree blk].
Proof.
  intros Ho Hp Hn.
  destruct (owns_live s b blk Ho Hp) as [Hlive Hsz].
  rewrite (dtor_nonempty s b blk Hp Hn), (destroy_nonempty s b blk Hp Hn).
  cbn [snd].
  assert (Hw : take (getSize b)
                 (block_bytes (munlock blk (getSize b) (memset blk 0%Z (getSize b) s)) blk)
               = replicate (getSize b) 0%Z).
  { apply (wiped_prefix s blk (getSize b) Hlive). }
  split; [exact Hw |].
  split; [change (block_live (memset blk 0%Z (getSize b) s) blk = true);
          unfold memset; rewrite block_live_update; exact Hlive |].
  split; [reflexivity |].
  split; [apply block_live_free_eq |].
  split; [rewrite block_bytes_free; exact Hw |].
  split.
  - rewrite block_bytes_free.
    change (length (block_bytes (memset blk 0%Z (getSize b) s) blk)
            = length (block_bytes s blk)).
    unfold memset.
    rewrite block_bytes_update_eq by (apply block_live_is_Some; exact Hlive).
    rewrite length_app, length_replicate, length_drop. lia.
  - simpl. rewrite <- app_assoc. reflexivity.
Qed.

(** What [destroy()] does not reach: the bytes of the block beyond the
    logical length are the same before and after the destructor. *)
Lemma dtor_keeps_capacity_bytes (s : process) (b : BinaryData) (blk : block) :
  owns s b -> getPtr b = Some blk -> 0 < getSize b ->
  drop (getSize b) (block_bytes (SecureBinaryData.dtor b s) blk)
  = drop (getSize b) (block_bytes s blk).
Proof.
  intros Ho Hp Hn. destruct (owns_live s b blk Ho Hp) as [Hlive Hsz].
  rewrite (dtor_nonempty s b blk Hp Hn), block_bytes_free.
  change (drop (getSize b) (block_bytes (memset blk 0%Z (getSize b) s) blk)
          = drop (getSize b) (block_bytes s blk)).
  unfold memset.
  rewrite block_bytes_update_eq by (apply block_live_is_Some; exact Hlive).
  apply drop_app_length'. rewrite length_replicate. reflexivity.
Qed.

(** What the destructor does achieve: destroying a buffer of logical length
    L > 0 writes zero over each of the L bytes that hold its contents, and
    does so while the block is still allocated.  [destroy()] leaves the
    block live with the L bytes zero, and the destructor is [destroy()]
    followed by the release of that block, so the freed block still shows
    the L zero bytes. *)
Lemma destroy_zeroizes_contents (s : process) (b : BinaryData) (blk : block) :
  owns s b -> getPtr b = Some blk -> 0 < getSize b ->
  let L := getSize b in
  let s1 := (SecureBinaryData.destroy b s).2 in
  let s2 := SecureBinaryData.dtor b s in
  take L (block_bytes s1 blk) = replicate L 0%Z /\
  block_live s1 blk = true /\
  s2 = free blk s1 /\
  block_live s2 blk = false /\
  take L (block_bytes s2 blk) = replicate L 0%Z /\
  trace s2 = trace s ++ [EvMunlock blk L; EvFree blk].
Proof.
  intros Ho Hp Hn. cbv zeta.
  destruct (dtor_wipes s b blk Ho Hp Hn) as (H1 & H2 & H3 & H4 & H5 & _ & H7).
  repeat split; assumption.
Qed.

(** C1: the code does not do what the claim asks of it.  The wipe of
    [destroy()] covers [getSize()] bytes, not the storage: a four-byte
    secret shrunk to two bytes keeps its four-byte block, its destructor
    wipes only the first two bytes, and the released block still holds the
    last two bytes of the secret. *)
Theorem destroy_leaves_capacity :
  let '(b, s) := shrunk_secret in
  owns s b /\ 0 < getSize b /\ getPtr b = Some 0 /\
  block_bytes s 0 = [1; 2; 3; 4]%Z /\
  block_live (SecureBinaryData.dtor b s) 0 = false /\
  block_bytes (SecureBinaryData.dtor b s) 0 = [0; 0; 3; 4]%Z /\
  ~ Forall (fun z => z = 0%Z) (block_bytes (SecureBinaryData.dtor b s) 0).
Proof.
  pose proof (proj1 shrunk_secret_ok) as Ho.
  destruct shrunk_secret as [b s] eqn:E.
  split; [exact Ho |].
  assert (Hb : b = shrunk_secret.1) by (rewrite E; reflexivity).
  assert (Hs : s = shrunk_secret.2) by (rewrite E; reflexivity).
  subst b s. clear E Ho.
  split; [vm_compute; lia |].
  split; [reflexivity |].
  split; [reflexivity |].
  split; [reflexivity |].
  split; [reflexivity |].
  change (block_bytes (SecureBinaryData.dtor shrunk_secret.1 shrunk_secret.2) 0)
    with [0; 0; 3; 4]%Z.
  intros H. apply (Forall_lookup_1 _ _ 2 3%Z) in H; [discriminate | reflexivity].
Qed.

(** C10: [destroy()] on a buffer of logical length L > 0 leaves the logical
    length at L and every one of the L bytes zero; on a buffer of length 0
    both [destroy()] and [lockData()] change nothing. *)
Theorem destroy_keeps_length (s : process) (b : BinaryData) :
  owns s b ->
  (0 < getSize b ->
     getSize (SecureBinaryData.destroy b s).1 = getSize b /\
     contents (SecureBinaryData.destroy b s).2 (SecureBinaryData.destroy b s).1
       = replicate (getSize b) 0%Z /\
     length (contents (SecureBinaryData.destroy b s).2 (SecureBinaryData.destroy b s).1)
       = getSize b) /\
  (getSize b = 0 ->
     SecureBinaryData.destroy b s = (b, s) /\ SecureBinaryData.lockData b s = (b, s)).
Proof.
  intros Ho. split.
  - intros Hn. destruct (owns_ptr s b Ho Hn) as [blk Hp].
    destruct (owns_live s b blk Ho Hp) as [Hlive Hsz].
    rewrite (destroy_nonempty s b blk Hp Hn). cbn [fst snd].
    assert (Hc : contents (munlock blk (getSize b) (memset blk 0%Z (getSize b) s)) b
                 = replicate (getSize b) 0%Z).
    { unfold contents, load. rewrite Hp. apply (wiped_prefix s blk (getSize b) Hlive). }
    split; [reflexivity |]. split; [exact Hc |].
    rewrite Hc. apply length_replicate.
  - intros Hz. split; [apply destroy_empty | apply lockData_empty]; exact Hz.
Qed.

Lemma destroy_keeps_length_witness :
  contents (SecureBinaryData.destroy secret4.1 secret4.2).2
           (SecureBinaryData.destroy secret4.1 secret4.2).1 = replicate 4 0%Z.
Proof.
  pose proof (destroy_keeps_length secret4.2 secret4.1 (proj1 secret4_ok)) as [H _].
  exact (proj1 (proj2 (H ltac:(vm_compute; lia)))).
Defined.

(** ** Raw copies *)

Lemma copyFrom_nonempty (src : list Z) (s : process) :
  0 < length src ->
  BinaryData_copyFrom src s
    = (mkBinaryData (Some (next_block s)) (length src), (malloc src s).2).
Proof.
  intros Hn. unfold BinaryData_copyFrom.
  destruct (length src =? 0) eqn:E; [apply Nat.eqb_eq in E; lia | reflexivity].
Qed.

Lemma byte_locked_layout (s1 s : process) (blk : block) (i : nat) :
  same_layout s1 s ->
  byte_locked s1 blk i <->
  page_of (PAGESIZE s) (place s blk + Z.of_nat i) ∈ locked s1.
Proof.
  intros [Hp Hb]. unfold byte_locked, PAGESIZE. rewrite Hp, Hb. reflexivity.
Qed.

Lemma macro_pages_layout (s1 s : process) (blk : block) (n : nat) :
  same_layout s1 s -> macro_pages s1 blk n = macro_pages s blk n.
Proof.
  intros [Hp Hb]. unfold macro_pages, PAGESIZE. rewrite Hp, Hb. reflexivity.
Qed.

Lemma in_address_space_layout (s1 s : process) (blk : block) (n : nat) :
  same_layout s1 s -> in_address_space s1 blk n <-> in_address_space s blk n.
Proof.
  intros [Hp Hb]. unfold in_address_space, PAGESIZE. rewrite Hp, Hb. reflexivity.
Qed.

(** C9 (as amended): [getRawCopy()] on a buffer of logical length L > 0
    returns a plain [BinaryData] with the same bytes in a block of its own.
    The only call made is the allocation: no [mlock] is issued for the
    copy, the set of locked pages stays as it was, so that a byte of the
    copy is locked exactly when its page was locked before the copy was
    made; and when the copy is released its block is freed with the secret
    bytes still in it, without a [munlock]. *)
Theorem getRawCopy_escapes (s : process) (b : BinaryData) :
  owns s b -> heap_ok s -> 0 < getSize b ->
  let r := (SecureBinaryData.getRawCopy b s).1 in
  let s1 := (SecureBinaryData.getRawCopy b s).2 in
  let s2 := BinaryData_dtor r s1 in
  exists blk,
    getPtr r = Some blk /\ getPtr b <> Some blk /\
    contents s1 r = contents s b /\
    block_live s1 blk = true /\
    trace s1 = trace s ++ [EvMalloc blk (getSize b)] /\
    locked s1 = locked s /\
    (forall i, byte_locked s1 blk i <->
               page_of (PAGESIZE s) (place s blk + Z.of_nat i) ∈ locked s) /\
    block_live s2 blk = false /\
    block_bytes s2 blk = contents s b /\
    trace s2 = trace s1 ++ [EvFree blk] /\
    locked s2 = locked s.
Proof.
  intros Ho Hh Hn. cbv zeta. unfold SecureBinaryData.getRawCopy.
  fold (contents s b).
  pose proof (length_contents s b Ho) as Hlen.
  rewrite copyFrom_nonempty by lia. cbn [fst snd].
  exists (next_block s).
  split; [reflexivity |].
  split.
  { intros Hp. pose proof (owns_lt s b _ Ho Hh Hp). lia. }
  split.
  { unfold contents at 1, load. cbn [getPtr getSize data_ nBytes_].
    rewrite block_bytes_malloc_eq. apply take_ge. lia. }
  split; [apply block_live_malloc_eq |].
  split; [simpl; rewrite Hlen; reflexivity |].
  split; [reflexivity |].
  split; [intros i; reflexivity |].
  unfold BinaryData_dtor. cbn [getPtr data_].
  split; [apply block_live_free_eq |].
  split; [rewrite block_bytes_free; apply block_bytes_malloc_eq |].
  split; reflexivity.
Qed.

Lemma getRawCopy_escapes_witness :
  block_bytes
    (BinaryData_dtor (SecureBinaryData.getRawCopy secret4.1 secret4.2).1
                     (SecureBinaryData.getRawCopy secret4.1 secret4.2).2) 1
  = [1; 2; 3; 4]%Z.
Proof.
  pose proof (getRawCopy_escapes secret4.2 secret4.1
                (proj1 secret4_ok) (proj2 secret4_ok) ltac:(vm_compute; lia)) as H.
  cbv zeta in H. destruct H as (blk & Hp & _ & _ & _ & _ & _ & _ & _ & Hb & _).
  assert (blk = 1) by (vm_compute in Hp; congruence). subst blk.
  rewrite Hb. reflexivity.
Defined.

(** C9 (as stated) fails: the plain copy of the four-byte secret is put
    [0x50] bytes behind it, on the page that was locked for the secret.
    While the copy is live, and the secret with it, all four bytes of the
    copy are page-locked. *)
Lemma raw_copy_on_locked_page :
  let '(b, s) := secret4 in
  let '(r, s1) := SecureBinaryData.getRawCopy b s in
  owns s b /\ getSize b = 4 /\
  getPtr r = Some 1 /\ contents s1 r = [1; 2; 3; 4]%Z /\
  block_live s1 1 = true /\
  range_locked s1 1 4.
Proof.
  pose proof (proj1 secret4_ok) as Ho.
  destruct secret4 as [b s] eqn:E.
  assert (Hb : b = secret4.1) by (rewrite E; reflexivity).
  assert (Hs : s = secret4.2) by (rewrite E; reflexivity).
  destruct (SecureBinaryData.getRawCopy b s) as [r s1] eqn:E1.
  assert (Hr : r = (SecureBinaryData.getRawCopy secret4.1 secret4.2).1).
  { rewrite <- Hb, <- Hs, E1. reflexivity. }
  assert (Hs1 : s1 = (SecureBinaryData.getRawCopy secret4.1 secret4.2).2).
  { rewrite <- Hb, <- Hs, E1. reflexivity. }
  split; [exact Ho |]. clear Ho E E1. subst b s r s1.
  split; [reflexivity |]. split; [reflexivity |]. split; [reflexivity |].
  split; [reflexivity |].
  intros i Hi.
  assert (Hc : i = 0 \/ i = 1 \/ i = 2 \/ i = 3) by lia.
  destruct Hc as [-> | [-> | [-> | ->]]]; vm_compute; set_solver.
Qed.

(** ** Locking after a capacity change *)

Lemma lockData_spec (b : BinaryData) (s : process) :
  (SecureBinaryData.lockData b s).1 = b /\
  heap (SecureBinaryData.lockData b s).2 = heap s /\
  next_block (SecureBinaryData.lockData b s).2 = next_block s /\
  kernel (SecureBinaryData.lockData b s).2 = kernel s /\
  (forall blk, getPtr b = Some blk -> 0 < getSize b ->
     SecureBinaryData.lockData b s = (b, mlock blk (getSize b) s)) /\
  same_layout (SecureBinaryData.lockData b s).2 s /\
  (forall q, q ∈ locked s -> q ∈ locked (SecureBinaryData.lockData b s).2).
Proof.
  unfold SecureBinaryData.lockData.
  destruct (0 <? getSize b) eqn:Hn.
  - destruct (getPtr b) as [blk0|] eqn:Hp; cbn [fst snd].
    + repeat split; try reflexivity.
      * intros blk [= <-] _. reflexivity.
      * intros q Hq. apply locked_mlock_mono. exact Hq.
    + repeat split; try reflexivity; try discriminate; auto.
  - apply Nat.ltb_ge in Hn. cbn [fst snd].
    repeat split; try reflexivity; auto.
    intros; lia.
Qed.

Lemma abandons_move (b : BinaryData) (s : process) (blk : block)
      (init : list Z) (n : nat) :
  getPtr b = Some blk ->
  abandons b s (mkBinaryData (Some (next_block s)) n, free blk (malloc init s).2).
Proof.
  intros Hp Ho Hh. cbn [fst snd].
  split; [reflexivity |]. split; [reflexivity |]. split; [split; reflexivity |].
  intros blk' Hp' _. rewrite Hp in Hp'. injection Hp' as <-.
  pose proof (owns_lt s b blk Ho Hh Hp) as Hlt.
  split; [apply block_live_free_eq |].
  rewrite block_bytes_free. apply block_bytes_malloc_ne. lia.
Qed.

Lemma abandons_stay (b b1 : BinaryData) (s s1 : process) :
  getPtr b1 = getPtr b -> locked s1 = locked s -> kernel s1 = kernel s ->
  same_layout s1 s ->
  abandons b s (b1, s1).
Proof.
  intros Hp Hl Hk Hlay _ _. cbn [fst snd].
  split; [exact Hl |]. split; [exact Hk |]. split; [exact Hlay |].
  intros blk Hb Hne. rewrite Hp in Hne. contradiction.
Qed.

Lemma abandons_first (b b1 : BinaryData) (s s1 : process) :
  getPtr b = None -> locked s1 = locked s -> kernel s1 = kernel s ->
  same_layout s1 s ->
  abandons b s (b1, s1).
Proof.
  intros Hp Hl Hk Hlay _ _. cbn [fst snd].
  split; [exact Hl |]. split; [exact Hk |]. split; [exact Hlay |].
  intros blk Hb. rewrite Hp in Hb. discriminate.
Qed.

Lemma abandons_BinaryData_resize (sz : nat) (b : BinaryData) (s : process) :
  abandons b s (BinaryData_resize sz b s).
Proof.
  unfold BinaryData_resize. destruct (getPtr b) as [blk|] eqn:Hp.
  - destruct (sz <=? length (block_bytes s blk)).
    + destruct (sz <=? getSize b); apply abandons_stay; auto; split; reflexivity.
    + apply abandons_move. exact Hp.
  - destruct (sz =? 0); apply abandons_first; auto; split; reflexivity.
Qed.

Lemma abandons_BinaryData_reserve (sz : nat) (b : BinaryData) (s : process) :
  abandons b s (BinaryData_reserve sz b s).
Proof.
  unfold BinaryData_reserve. destruct (getPtr b) as [blk|] eqn:Hp.
  - destruct (sz <=? length (block_bytes s blk)).
    + apply abandons_stay; auto; split; reflexivity.
    + apply abandons_move. exact Hp.
  - destruct (sz =? 0); apply abandons_first; auto; split; reflexivity.
Qed.

Lemma relock_after (b : BinaryData) (s : process) (r : BinaryData * process) :
  owns s b -> heap_ok s -> step_ok b s r -> abandons b s r ->
  let b1 := (SecureBinaryData.lockData r.1 r.2).1 in
  let s1 := (SecureBinaryData.lockData r.1 r.2).2 in
  owns s1 b1 /\
  (forall blk1, getPtr b1 = Some blk1 -> 0 < getSize b1 ->
     last (trace s1) = Some (EvMlock blk1 (getSize b1) (kernel s blk1 (getSize b1))) /\
     (kernel s blk1 (getSize b1) = true -> in_address_space s blk1 (getSize b1) ->
      range_locked s1 blk1 (getSize b1))) /\
  (forall blk, getPtr b = Some blk -> getPtr b1 <> Some blk ->
     block_live s1 blk = false /\
     block_bytes s1 blk = block_bytes s blk /\
     (forall i, byte_locked s blk i -> byte_locked s1 blk i)).
Proof.
  intros Ho Hh Hstep Hab. cbv zeta.
  destruct (Hstep Ho Hh) as (Ho1 & Hh1 & _).
  destruct (Hab Ho Hh) as (Hl & Hk & Hlay & Hmv).
  destruct (step_ok_lockData r.1 r.2 Ho1 Hh1) as (Ho2 & _).
  destruct (lockData_spec r.1 r.2) as (Hb & Hheap & _ & _ & Hcall & Hlay1 & Hmono).
  split; [exact Ho2 |]. rewrite Hb. split.
  - intros blk1 Hp1 Hn1. split.
    + rewrite (Hcall blk1 Hp1 Hn1). simpl. rewrite last_snoc, Hk. reflexivity.
    + intros Hg Hin. rewrite (Hcall blk1 Hp1 Hn1). cbn [snd].
      apply mlock_locks; [rewrite Hk; exact Hg |].
      apply (in_address_space_layout _ s _ _ Hlay). exact Hin.
  - intros blk Hp Hne. destruct (Hmv blk Hp Hne) as [Hdead Hbytes].
    split; [unfold block_live in *; rewrite Hheap; exact Hdead |].
    split; [unfold block_bytes in *; rewrite Hheap; exact Hbytes |].
    intros i Hi.
    assert (Hlay2 : same_layout (SecureBinaryData.lockData r.1 r.2).2 s).
    { destruct Hlay as [H1 H2], Hlay1 as [H3 H4]. split; congruence. }
    apply (byte_locked_layout _ s blk i Hlay2). apply Hmono. rewrite Hl. exact Hi.
Qed.

(** What [resize(n)] and [reserve(n)] do achieve: the buffer is locked again
    where it now lives.  When its length is > 0 the last call is [mlock] on
    its block for its whole length, and the range is locked when the kernel
    grants the call.  When the change moves the buffer to another block, the
    block it leaves is freed with its bytes as they were, and what was
    locked of it stays locked: no [munlock] is made. *)
Lemma capacity_change_relocks (ch : capacity_change) (s : process) (b : BinaryData) :
  owns s b -> heap_ok s ->
  let b1 := (change_capacity ch b s).1 in
  let s1 := (change_capacity ch b s).2 in
  owns s1 b1 /\
  (forall blk1, getPtr b1 = Some blk1 -> 0 < getSize b1 ->
     last (trace s1) = Some (EvMlock blk1 (getSize b1) (kernel s blk1 (getSize b1))) /\
     (kernel s blk1 (getSize b1) = true -> in_address_space s blk1 (getSize b1) ->
      range_locked s1 blk1 (getSize b1))) /\
  (forall blk, getPtr b = Some blk -> getPtr b1 <> Some blk ->
     block_live s1 blk = false /\
     block_bytes s1 blk = block_bytes s blk /\
     (forall i, byte_locked s blk i -> byte_locked s1 blk i)).
Proof.
  intros Ho Hh. destruct ch as [sz | sz]; cbn [change_capacity].
  - unfold SecureBinaryData.resize.
    pose proof (relock_after b s (BinaryData_resize sz b s) Ho Hh
                  (step_ok_BinaryData_resize sz b s)
                  (abandons_BinaryData_resize sz b s)) as H.
    destruct (BinaryData_resize sz b s) as [b0 s0]. exact H.
  - unfold SecureBinaryData.reserve.
    pose proof (relock_after b s (BinaryData_reserve sz b s) Ho Hh
                  (step_ok_BinaryData_reserve sz b s)
                  (abandons_BinaryData_reserve sz b s)) as H.
    destruct (BinaryData_reserve sz b s) as [b0 s0]. exact H.
Qed.

(** C2: the code does not do what the claim asks of it.  Growing a
    four-byte secret to eight bytes moves it to a new block, which is locked
    again; the block it leaves is freed with the secret still in it, not one
    byte zeroed, and its four bytes are still page-locked: the calls made
    are malloc, free and mlock, and no [munlock]. *)
Theorem resize_abandons_secret :
  let '(b, s) := secret4 in
  let '(b1, s1) := SecureBinaryData.resize 8 b s in
  owns s b /\ getPtr b = Some 0 /\ getPtr b1 = Some 1 /\
  range_locked s1 1 8 /\
  block_live s1 0 = false /\
  block_bytes s1 0 = [1; 2; 3; 4]%Z /\
  ~ Forall (fun z => z = 0%Z) (block_bytes s1 0) /\
  range_locked s1 0 4 /\
  trace s1 = trace s ++ [EvMalloc 1 8; EvFree 0; EvMlock 1 8 true].
Proof.
  pose proof (proj1 secret4_ok) as Ho.
  destruct secret4 as [b s] eqn:E.
  assert (Hb : b = secret4.1) by (rewrite E; reflexivity).
  assert (Hs : s = secret4.2) by (rewrite E; reflexivity).
  destruct (SecureBinaryData.resize 8 b s) as [b1 s1] eqn:E1.
  assert (Hb1 : b1 = grown_secret.1).
  { unfold grown_secret. rewrite E, E1. reflexivity. }
  assert (Hs1 : s1 = grown_secret.2).
  { unfold grown_secret. rewrite E, E1. reflexivity. }
  split; [exact Ho |]. clear Ho E E1. subst b s b1 s1.
  split; [reflexivity |]. split; [reflexivity |].
  split.
  { intros i Hi.
    assert (Hc : i = 0 \/ i = 1 \/ i = 2 \/ i = 3 \/ i = 4 \/ i = 5 \/ i = 6 \/ i = 7)
      by lia.
    destruct Hc as [-> | [-> | [-> | [-> | [-> | [-> | [-> | ->]]]]]]];
      vm_compute; set_solver. }
  split; [reflexivity |].
  split; [reflexivity |]. split.
  - change (block_bytes grown_secret.2 0) with [1; 2; 3; 4]%Z.
    intros H. apply (Forall_lookup_1 _ _ 0 1%Z) in H; [discriminate | reflexivity].
  - split; [| reflexivity]. intros i Hi.
    assert (Hc : i = 0 \/ i = 1 \/ i = 2 \/ i = 3) by lia.
    destruct Hc as [-> | [-> | [-> | ->]]]; vm_compute; set_solver.
Qed.

(** ** The outcome of mlock does not reach the data *)

Lemma same_data_refl (s : process) : same_data s s.
Proof. repeat split. Qed.

Lemma same_data_trans (s1 s2 s3 : process) :
  same_data s1 s2 -> same_data s2 s3 -> same_data s1 s3.
Proof.
  intros (H1 & H2 & H3) (H4 & H5 & H6). repeat split; congruence.
Qed.

Lemma same_data_block_bytes (s1 s2 : process) (blk : block) :
  same_data s1 s2 -> block_bytes s1 blk = block_bytes s2 blk.
Proof. intros (H & _). unfold block_bytes. rewrite H. reflexivity. Qed.

Lemma same_data_load (s1 s2 : process) (p : option block) (n : nat) :
  same_data s1 s2 -> load p n s1 = load p n s2.
Proof.
  intros H. destruct p as [blk|]; [| reflexivity].
  simpl. rewrite (same_data_block_bytes s1 s2 blk H). reflexivity.
Qed.

Lemma same_data_malloc (init : list Z) (s1 s2 : process) :
  same_data s1 s2 ->
  (malloc init s1).1 = (malloc init s2).1 /\
  same_data (malloc init s1).2 (malloc init s2).2.
Proof.
  intros (H1 & H2 & H3). unfold malloc, same_data; simpl.
  rewrite H1, H2, !List.filter_app, H3. repeat split.
Qed.

Lemma same_data_free (blk : block) (s1 s2 : process) :
  same_data s1 s2 -> same_data (free blk s1) (free blk s2).
Proof.
  intros (H1 & H2 & H3). unfold free, same_data; simpl.
  rewrite H1, H2, !List.filter_app, H3. repeat split.
Qed.

Lemma same_data_update (blk : block) (f : list Z -> list Z) (s1 s2 : process) :
  same_data s1 s2 -> same_data (update_bytes blk f s1) (update_bytes blk f s2).
Proof.
  intros (H1 & H2 & H3). unfold update_bytes, same_data; simpl.
  rewrite H1, H2, H3. repeat split.
Qed.

Lemma same_data_mlock (blk : block) (n : nat) (s1 s2 : process) :
  same_data s1 s2 -> same_data (mlock blk n s1) (mlock blk n s2).
Proof.
  intros (H1 & H2 & H3). unfold mlock, same_data; simpl.
  rewrite H1, H2, !List.filter_app, H3. repeat split.
Qed.

Lemma agree_lockData (b : BinaryData) (s1 s2 : process) :
  same_data s1 s2 ->
  agree (SecureBinaryData.lockData b s1) (SecureBinaryData.lockData b s2).
Proof.
  intros H. unfold SecureBinaryData.lockData.
  destruct (0 <? getSize b); [| split; [reflexivity | exact H]].
  destruct (getPtr b) as [blk|]; split; try reflexivity; try exact H.
  apply same_data_mlock. exact H.
Qed.

Lemma agree_then_lockData (r1 r2 : BinaryData * process) :
  agree r1 r2 ->
  agree (SecureBinaryData.lockData r1.1 r1.2) (SecureBinaryData.lockData r2.1 r2.2).
Proof. intros [Hb Hs]. rewrite Hb. apply agree_lockData. exact Hs. Qed.

(** Two runs that allocate from processes with the same data get the same
    block. *)
Ltac same_fresh_block Hb Hs :=
  split; [simpl in Hb; simpl; rewrite Hb; reflexivity | exact Hs].

Lemma agree_copyFrom (src : list Z) (s1 s2 : process) :
  same_data s1 s2 -> agree (BinaryData_copyFrom src s1) (BinaryData_copyFrom src s2).
Proof.
  intros H. unfold BinaryData_copyFrom.
  destruct (length src =? 0); [split; [reflexivity | exact H] |].
  destruct (same_data_malloc src s1 s2 H) as [Hb Hs].
  same_fresh_block Hb Hs.
Qed.

Lemma agree_alloc (sz : nat) (s1 s2 : process) :
  same_data s1 s2 -> agree (BinaryData_alloc sz s1) (BinaryData_alloc sz s2).
Proof.
  intros H. unfold BinaryData_alloc.
  destruct (sz =? 0); [split; [reflexivity | exact H] |].
  destruct (same_data_malloc (replicate sz 0%Z) s1 s2 H) as [Hb Hs].
  same_fresh_block Hb Hs.
Qed.

Lemma agree_BinaryData_resize (sz : nat) (b : BinaryData) (s1 s2 : process) :
  same_data s1 s2 -> agree (BinaryData_resize sz b s1) (BinaryData_resize sz b s2).
Proof.
  intros H. unfold BinaryData_resize.
  destruct (getPtr b) as [blk|].
  - rewrite (same_data_block_bytes s1 s2 blk H).
    destruct (sz <=? length (block_bytes s2 blk)).
    + destruct (sz <=? getSize b); split; try reflexivity; try exact H.
      apply same_data_update. exact H.
    + match goal with
      | |- context [malloc ?i s1] =>
          destruct (same_data_malloc i s1 s2 H) as [Hb Hs]
      end.
      split; [simpl in Hb; simpl; rewrite Hb; reflexivity |].
      apply same_data_free. exact Hs.
  - destruct (sz =? 0); [split; [reflexivity | exact H] |].
    destruct (same_data_malloc (replicate sz 0%Z) s1 s2 H) as [Hb Hs].
    same_fresh_block Hb Hs.
Qed.

Lemma agree_BinaryData_reserve (sz : nat) (b : BinaryData) (s1 s2 : process) :
  same_data s1 s2 -> agree (BinaryData_reserve sz b s1) (BinaryData_reserve sz b s2).
Proof.
  intros H. unfold BinaryData_reserve.
  destruct (getPtr b) as [blk|].
  - rewrite (same_data_block_bytes s1 s2 blk H).
    destruct (sz <=? length (block_bytes s2 blk)); [split; [reflexivity | exact H] |].
    match goal with
    | |- context [malloc ?i s1] =>
        destruct (same_data_malloc i s1 s2 H) as [Hb Hs]
    end.
    split; [simpl in Hb; simpl; rewrite Hb; reflexivity |].
    apply same_data_free. exact Hs.
  - destruct (sz =? 0); [split; [reflexivity | exact H] |].
    destruct (same_data_malloc (replicate sz indeterminate) s1 s2 H) as [Hb Hs].
    same_fresh_block Hb Hs.
Qed.

Lemma agree_run_op (op : locking_op) (s1 s2 : process) :
  same_data s1 s2 -> agree (run_op op s1) (run_op op s2).
Proof.
  intros H. destruct op as [sz | src | sbd2 | sz b | sz b | b]; cbn [run_op].
  - unfold SecureBinaryData.create.
    pose proof (agree_then_lockData _ _ (agree_alloc sz s1 s2 H)) as Ha.
    destruct (BinaryData_alloc sz s1), (BinaryData_alloc sz s2). exact Ha.
  - unfold SecureBinaryData.from_bytes.
    pose proof (agree_then_lockData _ _ (agree_copyFrom src s1 s2 H)) as Ha.
    destruct (BinaryData_copyFrom src s1), (BinaryData_copyFrom src s2). exact Ha.
  - unfold SecureBinaryData.copy.
    rewrite (same_data_load s1 s2 _ _ H).
    pose proof (agree_then_lockData _ _
                  (agree_copyFrom (load (getPtr sbd2) (getSize sbd2) s2) s1 s2 H)) as Ha.
    destruct (BinaryData_copyFrom _ s1), (BinaryData_copyFrom _ s2). exact Ha.
  - unfold SecureBinaryData.resize.
    pose proof (agree_then_lockData _ _ (agree_BinaryData_resize sz b s1 s2 H)) as Ha.
    destruct (BinaryData_resize sz b s1), (BinaryData_resize sz b s2). exact Ha.
  - unfold SecureBinaryData.reserve.
    pose proof (agree_then_lockData _ _ (agree_BinaryData_reserve sz b s1 s2 H)) as Ha.
    destruct (BinaryData_reserve sz b s1), (BinaryData_reserve sz b s2). exact Ha.
  - apply agree_lockData. exact H.
Qed.

Lemma quiet_trans (s : process) (r1 r2 : BinaryData * process) :
  quiet s r1 -> quiet r1.2 r2 -> quiet s r2.
Proof. unfold quiet. congruence. Qed.

Lemma quiet_lockData (b : BinaryData) (s : process) :
  quiet s (SecureBinaryData.lockData b s).
Proof.
  unfold quiet, SecureBinaryData.lockData.
  destruct (0 <? getSize b); [| reflexivity].
  destruct (getPtr b); [| reflexivity].
  simpl. rewrite List.filter_app. simpl. apply app_nil_r.
Qed.

Lemma quiet_malloc (init : list Z) (s : process) (b : BinaryData) :
  quiet s (b, (malloc init s).2).
Proof. unfold quiet. simpl. rewrite List.filter_app. simpl. apply app_nil_r. Qed.

Lemma quiet_move (init : list Z) (s : process) (b : BinaryData) (blk : block) :
  quiet s (b, free blk (malloc init s).2).
Proof.
  unfold quiet. simpl. rewrite !List.filter_app. simpl. rewrite !app_nil_r. reflexivity.
Qed.

Lemma quiet_copyFrom (src : list Z) (s : process) :
  quiet s (BinaryData_copyFrom src s).
Proof.
  unfold BinaryData_copyFrom. destruct (length src =? 0); [reflexivity |].
  apply quiet_malloc.
Qed.

Lemma quiet_alloc (sz : nat) (s : process) : quiet s (BinaryData_alloc sz s).
Proof.
  unfold BinaryData_alloc. destruct (sz =? 0); [reflexivity | apply quiet_malloc].
Qed.

Lemma quiet_BinaryData_resize (sz : nat) (b : BinaryData) (s : process) :
  quiet s (BinaryData_resize sz b s).
Proof.
  unfold BinaryData_resize. destruct (getPtr b) as [blk|].
  - destruct (sz <=? length (block_bytes s blk)).
    + destruct (sz <=? getSize b); reflexivity.
    + apply quiet_move.
  - destruct (sz =? 0); [reflexivity | apply quiet_malloc].
Qed.

Lemma quiet_BinaryData_reserve (sz : nat) (b : BinaryData) (s : process) :
  quiet s (BinaryData_reserve sz b s).
Proof.
  unfold BinaryData_reserve. destruct (getPtr b) as [blk|].
  - destruct (sz <=? length (block_bytes s blk)); [reflexivity | apply quiet_move].
  - destruct (sz =? 0); [reflexivity | apply quiet_malloc].
Qed.

Lemma quiet_run_op (op : locking_op) (s : process) : quiet s (run_op op s).
Proof.
  destruct op as [sz | src | sbd2 | sz b | sz b | b]; cbn [run_op].
  - unfold SecureBinaryData.create.
    pose proof (quiet_alloc sz s) as Hq.
    destruct (BinaryData_alloc sz s) as [b1 s1].
    exact (quiet_trans s (b1, s1) _ Hq (quiet_lockData b1 s1)).
  - unfold SecureBinaryData.from_bytes.
    pose proof (quiet_copyFrom src s) as Hq.
    destruct (BinaryData_copyFrom src s) as [b1 s1].
    exact (quiet_trans s (b1, s1) _ Hq (quiet_lockData b1 s1)).
  - unfold SecureBinaryData.copy.
    pose proof (quiet_copyFrom (load (getPtr sbd2) (getSize sbd2) s) s) as Hq.
    destruct (BinaryData_copyFrom _ s) as [b1 s1].
    exact (quiet_trans s (b1, s1) _ Hq (quiet_lockData b1 s1)).
  - unfold SecureBinaryData.resize.
    pose proof (quiet_BinaryData_resize sz b s) as Hq.
    destruct (BinaryData_resize sz b s) as [b1 s1].
    exact (quiet_trans s (b1, s1) _ Hq (quiet_lockData b1 s1)).
  - unfold SecureBinaryData.reserve.
    pose proof (quiet_BinaryData_reserve sz b s) as Hq.
    destruct (BinaryData_reserve sz b s) as [b1 s1].
    exact (quiet_trans s (b1, s1) _ Hq (quiet_lockData b1 s1)).
  - apply quiet_lockData.
Qed.

(** C3 (as amended): whatever the kernel answers to [mlock], now or in
    earlier calls, each operation that locks returns the same buffer and
    leaves the same heap, so a failed lock neither aborts the operation nor
    changes its result; the failure is dropped in silence: the operation
    adds no log entry to the trace. *)
Theorem mlock_failure_is_silent (op : locking_op) (s : process)
        (k1 k2 : block -> nat -> bool) (l1 l2 : gset Z) :
  let r1 := run_op op (with_kernel k1 l1 s) in
  let r2 := run_op op (with_kernel k2 l2 s) in
  r1.1 = r2.1 /\
  heap r1.2 = heap r2.2 /\
  next_block r1.2 = next_block r2.2 /\
  List.filter is_log (trace r1.2) = List.filter is_log (trace s).
Proof.
  cbv zeta.
  assert (Hsame : same_data (with_kernel k1 l1 s) (with_kernel k2 l2 s))
    by (repeat split).
  destruct (agree_run_op op _ _ Hsame) as (Hb & Hheap & Hnext & _).
  repeat split; try assumption.
  apply (quiet_run_op op (with_kernel k1 l1 s)).
Qed.

(** C3 (as stated) fails: with a kernel that refuses every lock, building a
    buffer from three bytes meets an [mlock] failure, and the trace of the
    process holds that failed call and no log entry. *)
Lemma mlock_failure_not_logged :
  let '(b, s) := unlockable_secret in
  contents s b = [1; 2; 3]%Z /\
  trace s = [EvMalloc 0 3; EvMlock 0 3 false] /\
  existsb is_mlock_failure (trace s) = true /\
  length (List.filter is_log (trace s)) <> 1.
Proof. vm_compute. repeat split; discriminate. Qed.

(** ** Copies *)

Lemma copy_nonempty (s : process) (b : BinaryData) :
  owns s b -> 0 < getSize b ->
  SecureBinaryData.copy b s
    = (mkBinaryData (Some (next_block s)) (getSize b),
       mlock (next_block s) (getSize b) (malloc (contents s b) s).2).
Proof.
  intros Ho Hn. unfold SecureBinaryData.copy. fold (contents s b).
  pose proof (length_contents s b Ho) as Hlen.
  rewrite copyFrom_nonempty by lia. rewrite Hlen.
  unfold SecureBinaryData.lockData. cbn [getSize getPtr nBytes_ data_].
  destruct (0 <? getSize b) eqn:E; [reflexivity | apply Nat.ltb_ge in E; lia].
Qed.

Lemma copy_empty (s : process) (b : BinaryData) :
  owns s b -> getSize b = 0 -> SecureBinaryData.copy b s = (no_buffer, s).
Proof.
  intros Ho Hz. unfold SecureBinaryData.copy. fold (contents s b).
  pose proof (length_contents s b Ho) as Hlen.
  unfold BinaryData_copyFrom. rewrite Hlen, Hz. reflexivity.
Qed.

Lemma copy_contents (s : process) (b : BinaryData) :
  owns s b ->
  contents (SecureBinaryData.copy b s).2 (SecureBinaryData.copy b s).1 = contents s b /\
  getSize (SecureBinaryData.copy b s).1 = getSize b /\
  capacity (SecureBinaryData.copy b s).2 (SecureBinaryData.copy b s).1 = getSize b.
Proof.
  intros Ho. pose proof (length_contents s b Ho) as Hlen.
  destruct (Nat.eq_dec (getSize b) 0) as [Hz | Hnz].
  - rewrite (copy_empty s b Ho Hz). cbn [fst snd].
    split; [| split; [symmetry; exact Hz | symmetry; exact Hz]].
    symmetry. apply length_zero_iff_nil. lia.
  - rewrite (copy_nonempty s b Ho) by lia. cbn [fst snd].
    unfold contents at 1, capacity, load. cbn [getPtr getSize data_ nBytes_].
    change (block_bytes (mlock (next_block s) (getSize b) (malloc (contents s b) s).2)
                        (next_block s))
      with (block_bytes (malloc (contents s b) s).2 (next_block s)).
    rewrite block_bytes_malloc_eq.
    split; [apply take_ge; lia |]. split; [reflexivity | exact Hlen].
Qed.

(** C4: the copy constructor yields a buffer with the same bytes in a block
    of its own; its whole length is locked when the kernel grants the call
    (for a block inside the address space, where the page arithmetic of the
    macro is exact); its destructor frees the block with every byte zero; and whatever
    sequence of changes is made to the copy leaves the original's bytes as
    they were, and the other way round. *)
Theorem copy_is_independent (s : process) (b : BinaryData) :
  owns s b -> heap_ok s ->
  let c := (SecureBinaryData.copy b s).1 in
  let s1 := (SecureBinaryData.copy b s).2 in
  contents s1 c = contents s b /\
  contents s1 b = contents s b /\
  separate c b /\
  (forall blk, getPtr c = Some blk ->
     kernel s blk (getSize c) = true -> in_address_space s blk (getSize c) ->
     range_locked s1 blk (getSize c)) /\
  (forall blk, getPtr c = Some blk ->
     block_live (SecureBinaryData.dtor c s1) blk = false /\
     block_bytes (SecureBinaryData.dtor c s1) blk = replicate (getSize b) 0%Z) /\
  (forall ms, contents (mutate_all ms c s1).2 b = contents s b) /\
  (forall ms, contents (mutate_all ms b s1).2 c = contents s b).
Proof.
  intros Ho Hh. cbv zeta.
  destruct (copy_contents s b Ho) as (Hc & Hsz & Hcap).
  pose proof (step_ok_copy b s) as Hstep.
  destruct (Hstep (owns_no_buffer s) Hh) as (Ho1 & Hh1 & _).
  destruct (step_ok_frame no_buffer b s _ Hstep (owns_no_buffer s) Hh Ho
              (separate_no_buffer b)) as (Hb & Hob & Hsep).
  set (c := (SecureBinaryData.copy b s).1) in *.
  set (s1 := (SecureBinaryData.copy b s).2) in *.
  split; [exact Hc |]. split; [exact Hb |]. split; [exact Hsep |].
  split.
  { intros blk Hp Hg Hin.
    destruct (Nat.eq_dec (getSize b) 0) as [Hz | Hnz].
    { subst c. rewrite (copy_empty s b Ho Hz) in Hp. discriminate. }
    subst c s1. rewrite (copy_nonempty s b Ho) in * by lia.
    cbn [fst snd getPtr getSize data_ nBytes_] in *. injection Hp as <-.
    apply mlock_locks; [exact Hg | exact Hin]. }
  split.
  { intros blk Hp.
    assert (Hn : 0 < getSize c).
    { destruct (Nat.eq_dec (getSize b) 0) as [Hz | Hnz]; [| lia].
      subst c. rewrite (copy_empty s b Ho Hz) in Hp. discriminate. }
    destruct (dtor_wipes s1 c blk Ho1 Hp Hn) as (_ & _ & _ & Hdead & Hw & Hlen & _).
    split; [exact Hdead |].
    unfold capacity in Hcap. rewrite Hp in Hcap.
    rewrite Hsz in Hw. rewrite <- Hw. symmetry. apply take_ge. lia. }
  split.
  - intros ms.
    destruct (step_ok_frame c b s1 _ (step_ok_mutate_all ms c s1) Ho1 Hh1 Hob Hsep)
      as (Hfr & _).
    congruence.
  - intros ms.
    destruct (step_ok_frame b c s1 _ (step_ok_mutate_all ms b s1) Hob Hh1 Ho1
                (separate_sym _ _ Hsep)) as (Hfr & _).
    congruence.
Qed.

Lemma copy_is_independent_witness :
  contents (mutate_all [MFill 255%Z; MResize 9; MDestroy]
              (SecureBinaryData.copy secret4.1 secret4.2).1
              (SecureBinaryData.copy secret4.1 secret4.2).2).2 secret4.1
  = [1; 2; 3; 4]%Z.
Proof.
  pose proof (copy_is_independent secret4.2 secret4.1
                (proj1 secret4_ok) (proj2 secret4_ok)) as H.
  cbv zeta in H. destruct H as (_ & _ & _ & _ & _ & Hm & _).
  rewrite Hm. reflexivity.
Defined.

Example copy_run :
  let '(c, s1) := SecureBinaryData.copy secret4.1 secret4.2 in
  let '(c2, s2) := mutate_all [MFill 255%Z; MStore 0 7%Z] c s1 in
  contents s2 c2 = [7; 255; 255; 255]%Z /\ contents s2 secret4.1 = [1; 2; 3; 4]%Z /\
  trace s2 = [EvMalloc 0 4; EvMlock 0 4 true; EvMalloc 1 4; EvMlock 1 4 true].
Proof. vm_compute. repeat split. Qed.

(** * Theorems: KdfRomix *)

Lemma length_write_at (off : nat) (x tbl : list Z) :
  off + length x <= length tbl -> length (write_at off x tbl) = length tbl.
Proof.
  intros H. unfold write_at.
  rewrite !length_app, length_take, length_drop. lia.
Qed.

Lemma take_write_at (off : nat) (x tbl : list Z) :
  off + length x <= length tbl ->
  take (off + length x) (write_at off x tbl) = take off tbl ++ x.
Proof.
  intros H. unfold write_at.
  rewrite app_assoc. apply take_app_length'.
  rewrite length_app, length_take. lia.
Qed.

Lemma take_agree_le (a b : nat) (t1 t2 : list Z) :
  a <= b -> take b t1 = take b t2 -> take a t1 = take a t2.
Proof.
  intros Hab H.
  replace a with (Nat.min a b) by lia.
  rewrite <- !take_take, H. reflexivity.
Qed.

Lemma read_at_agree (off len b : nat) (t1 t2 : list Z) :
  off + len <= b -> take b t1 = take b t2 -> read_at off len t1 = read_at off len t2.
Proof.
  intros Hb H. unfold read_at. rewrite !take_drop_commute.
  rewrite (take_agree_le (off + len) b t1 t2 Hb H). reflexivity.
Qed.

Section RomixFacts.

Variable SHA512 : list Z -> list Z.
Variable hb : nat.
Hypothesis SHA512_length : forall x, length (SHA512 x) = hb.

Lemma fill_table_fst (i count : nat) (X t1 t2 : list Z) :
  (fill_table SHA512 hb i count X t1).1 = (fill_table SHA512 hb i count X t2).1.
Proof.
  revert i X t1 t2. induction count as [| c IH]; intros i X t1 t2; simpl.
  - reflexivity.
  - apply IH.
Qed.

Lemma fill_table_fst_length (i count : nat) (X tbl : list Z) :
  length X = hb -> length (fill_table SHA512 hb i count X tbl).1 = hb.
Proof.
  revert i X tbl. induction count as [| c IH]; intros i X tbl HX; simpl.
  - exact HX.
  - apply IH. apply SHA512_length.
Qed.

Lemma fill_table_length (i count : nat) (X tbl : list Z) :
  length X = hb -> (i + count) * hb <= length tbl ->
  length (fill_table SHA512 hb i count X tbl).2 = length tbl.
Proof.
  revert i X tbl. induction count as [| c IH]; intros i X tbl HX Hfit; simpl.
  - reflexivity.
  - assert (Hw : length (write_at (i * hb) X tbl) = length tbl).
    { apply length_write_at. nia. }
    rewrite IH; [exact Hw | apply SHA512_length | rewrite Hw; nia].
Qed.

(** The fill phase overwrites every entry it will later read: two tables of
    the same size come out equal on the entries [0 .. i + count). *)
Lemma fill_table_agree (i count : nat) (X t1 t2 : list Z) :
  length X = hb -> (i + count) * hb <= length t1 -> length t1 = length t2 ->
  take (i * hb) t1 = take (i * hb) t2 ->
  take ((i + count) * hb) (fill_table SHA512 hb i count X t1).2
  = take ((i + count) * hb) (fill_table SHA512 hb i count X t2).2.
Proof.
  revert i X t1 t2. induction count as [| c IH]; intros i X t1 t2 HX Hfit Hlen Hpre.
  - simpl. rewrite Nat.add_0_r. exact Hpre.
  - simpl. replace (i + S c) with (S i + c) by lia.
    assert (Hw1 : length (write_at (i * hb) X t1) = length t1)
      by (apply length_write_at; nia).
    assert (Hw2 : length (write_at (i * hb) X t2) = length t2)
      by (apply length_write_at; nia).
    apply IH.
    + apply SHA512_length.
    + rewrite Hw1. nia.
    + congruence.
    + replace (S i * hb) with (i * hb + length X) by lia.
      rewrite !take_write_at by nia. rewrite Hpre. reflexivity.
Qed.

Lemma mix_table_agree (seqCount count : nat) (X t1 t2 : list Z) :
  0 < seqCount ->
  take (seqCount * hb) t1 = take (seqCount * hb) t2 ->
  mix_table SHA512 hb seqCount count X t1 = mix_table SHA512 hb seqCount count X t2.
Proof.
  intros Hpos Hpre. revert X. induction count as [| c IH]; intros X; simpl.
  - reflexivity.
  - set (j := Z.to_nat (le_decode (take 8 X) mod Z.of_nat seqCount)).
    assert (Hj : j < seqCount).
    { subst j. pose proof (Z.mod_pos_bound (le_decode (take 8 X)) (Z.of_nat seqCount)
                             ltac:(lia)). lia. }
    rewrite (read_at_agree (j * hb) hb (seqCount * hb) t1 t2) by (nia || exact Hpre).
    apply IH.
Qed.

Lemma mix_table_length (seqCount count : nat) (X tbl : list Z) :
  length X = hb -> length (mix_table SHA512 hb seqCount count X tbl) = hb.
Proof.
  revert X. induction count as [| c IH]; intros X HX; simpl.
  - exact HX.
  - apply IH. apply SHA512_length.
Qed.

End RomixFacts.

Lemma kdf_ready_set_lookupTable (kdf : KdfRomix) (tbl : list Z) :
  kdf_ready kdf -> length tbl = memoryReqtBytes_ kdf ->
  kdf_ready (set_lookupTable tbl kdf).
Proof.
  intros (H1 & H2 & H3 & H4 & H5 & H6) Hlen. repeat split; assumption.
Qed.

Lemma kdf_ready_fits (kdf : KdfRomix) :
  kdf_ready kdf ->
  0 < sequenceCount_ kdf /\
  sequenceCount_ kdf * 64 <= length (lookupTable_ kdf).
Proof.
  intros (H1 & H2 & H3 & H4 & H5 & H6). rewrite H4, H5.
  pose proof (Nat.Div0.mul_div_le (memoryReqtBytes_ kdf) 64).
  pose proof (Nat.div_str_pos (memoryReqtBytes_ kdf) 64 ltac:(lia)).
  lia.
Qed.

Lemma usePrecomputedKdfParams_ready (memReqts numIter : nat) (salt : list Z)
      (kdf : KdfRomix) :
  usePrecomputedKdfParams memReqts numIter salt = Some kdf -> 1 <= numIter ->
  kdf_ready kdf.
Proof.
  unfold usePrecomputedKdfParams. destruct (memReqts <? 64) eqn:E; [discriminate |].
  apply Nat.ltb_ge in E. intros [= <-] Hn. unfold kdf_ready; simpl.
  rewrite length_replicate. repeat split; lia.
Qed.

Section DeriveKeyFacts.

Variable SHA512 : list Z -> list Z.
Hypothesis SHA512_length : forall x, length (SHA512 x) = 64.

(** One round leaves the parameters alone and only rewrites the table. *)
Lemma DeriveKey_OneIter_state (kdf : KdfRomix) (password : list Z) :
  kdf_ready kdf ->
  exists tbl, (DeriveKey_OneIter SHA512 kdf password).2 = set_lookupTable tbl kdf /\
              length tbl = memoryReqtBytes_ kdf.
Proof.
  intros Hr. destruct (kdf_ready_fits kdf Hr) as [Hpos Hfit].
  destruct Hr as (Hhb & Hout & Hmem & Hseq & Hlen & Hit).
  unfold DeriveKey_OneIter.
  destruct (fill_table SHA512 (hashOutputBytes_ kdf) 0 (sequenceCount_ kdf)
              (SHA512 (password ++ salt_ kdf)) (lookupTable_ kdf)) as [X1 tbl] eqn:E.
  exists tbl. split; [reflexivity |].
  pose proof (fill_table_length SHA512 64 SHA512_length 0 (sequenceCount_ kdf)
                (SHA512 (password ++ salt_ kdf)) (lookupTable_ kdf)
                (SHA512_length _) ltac:(simpl; lia)) as Hl.
  rewrite <- Hhb in Hl at 1. rewrite E in Hl. simpl in Hl. congruence.
Qed.

(** The key of one round does not depend on what an earlier derivation
    left in the lookup table. *)
Lemma one_iter_key_scratch (kdf : KdfRomix) (tbl password : list Z) :
  kdf_ready kdf -> length tbl = memoryReqtBytes_ kdf ->
  one_iter_key SHA512 (set_lookupTable tbl kdf) password
  = one_iter_key SHA512 kdf password.
Proof.
  intros Hr Htbl. destruct (kdf_ready_fits kdf Hr) as [Hpos Hfit].
  destruct Hr as (Hhb & Hout & Hmem & Hseq & Hlen & Hit).
  unfold one_iter_key, DeriveKey_OneIter. cbn [set_lookupTable hashOutputBytes_
    kdfOutputBytes_ sequenceCount_ lookupTable_ salt_].
  rewrite Hhb.
  set (X0 := SHA512 (password ++ salt_ kdf)).
  set (n := sequenceCount_ kdf) in *.
  pose proof (fill_table_fst SHA512 64 0 n X0 tbl (lookupTable_ kdf)) as Hfst.
  pose proof (fill_table_agree SHA512 64 SHA512_length 0 n X0 tbl (lookupTable_ kdf)
                (SHA512_length _) ltac:(simpl; lia) ltac:(lia) eq_refl) as Hag.
  destruct (fill_table SHA512 64 0 n X0 tbl) as [X1 t1].
  destruct (fill_table SHA512 64 0 n X0 (lookupTable_ kdf)) as [X1' t1'].
  cbn [fst snd] in *. subst X1'.
  rewrite (mix_table_agree SHA512 64 n n X1 t1 t1' Hpos Hag). reflexivity.
Qed.

Lemma one_iter_key_length (kdf : KdfRomix) (password : list Z) :
  kdf_ready kdf -> length (one_iter_key SHA512 kdf password) = 32.
Proof.
  intros Hr. destruct Hr as (Hhb & Hout & Hmem & Hseq & Hlen & Hit).
  unfold one_iter_key, DeriveKey_OneIter. rewrite Hhb, Hout.
  set (X0 := SHA512 (password ++ salt_ kdf)).
  pose proof (fill_table_fst_length SHA512 64 SHA512_length 0 (sequenceCount_ kdf) X0
                (lookupTable_ kdf) (SHA512_length _)) as HX1.
  destruct (fill_table SHA512 64 0 (sequenceCount_ kdf) X0 (lookupTable_ kdf))
    as [X1 t1].
  cbn [fst snd] in *.
  rewrite length_take.
  rewrite (mix_table_length SHA512 64 SHA512_length _ _ X1 t1 HX1). reflexivity.
Qed.

Lemma DeriveKey_loop_iter (i : nat) (kdf : KdfRomix) (tbl password : list Z) :
  kdf_ready kdf -> length tbl = memoryReqtBytes_ kdf ->
  (DeriveKey_loop SHA512 i (set_lookupTable tbl kdf) password).1
  = Nat.iter i (one_iter_key SHA512 kdf) password.
Proof.
  intros Hr. revert tbl password.
  induction i as [| i IH]; intros tbl password Htbl.
  - reflexivity.
  - rewrite Nat.iter_succ_r. cbn [DeriveKey_loop].
    pose proof (kdf_ready_set_lookupTable kdf tbl Hr Htbl) as Hr'.
    destruct (DeriveKey_OneIter_state (set_lookupTable tbl kdf) password Hr')
      as (tbl' & Hst & Hlen').
    pose proof (one_iter_key_scratch kdf tbl password Hr Htbl) as Hkey.
    unfold one_iter_key in Hkey at 1.
    destruct (DeriveKey_OneIter SHA512 (set_lookupTable tbl kdf) password)
      as [k kdf'].
    cbn [fst snd] in *. subst kdf' k.
    change (set_lookupTable tbl' (set_lookupTable tbl kdf))
      with (set_lookupTable tbl' kdf).
    apply IH. exact Hlen'.
Qed.

Lemma set_lookupTable_id (kdf : KdfRomix) : set_lookupTable (lookupTable_ kdf) kdf = kdf.
Proof. destruct kdf; reflexivity. Qed.

(** C5: on an instance whose parameters are set, with at least one
    iteration and a 64-byte hash, [DeriveKey] returns what comes out of
    applying [DeriveKey_OneIter] [numIterations_] times, each key being the
    password of the next round; the result has 32 bytes; and with three
    iterations it is the three-fold chain. *)
Theorem DeriveKey_chains (kdf : KdfRomix) (password : list Z) :
  kdf_ready kdf ->
  (DeriveKey SHA512 kdf password).1
    = Nat.iter (numIterations_ kdf) (one_iter_key SHA512 kdf) password /\
  length (DeriveKey SHA512 kdf password).1 = 32 /\
  (numIterations_ kdf = 3 ->
   (DeriveKey SHA512 kdf password).1
     = one_iter_key SHA512 kdf
         (one_iter_key SHA512 kdf (one_iter_key SHA512 kdf password))).
Proof.
  intros Hr.
  assert (Hiter : (DeriveKey SHA512 kdf password).1
                  = Nat.iter (numIterations_ kdf) (one_iter_key SHA512 kdf) password).
  { unfold DeriveKey. rewrite <- (set_lookupTable_id kdf) at 2.
    apply DeriveKey_loop_iter; [exact Hr |].
    destruct Hr as (_ & _ & _ & _ & Hlen & _). exact Hlen. }
  split; [exact Hiter |]. split.
  - rewrite Hiter. destruct Hr as (Hhb & Hout & Hmem & Hseq & Hlen & Hit).
    destruct (numIterations_ kdf) as [| n] eqn:En; [lia |].
    cbn [Nat.iter nat_rect]. apply one_iter_key_length. 
    repeat split; try assumption. rewrite En. lia.
  - intros H3. rewrite Hiter, H3. reflexivity.
Qed.

End DeriveKeyFacts.

Lemma length_sample_hash64 (x : list Z) : length (sample_hash64 x) = 64.
Proof. unfold sample_hash64. rewrite length_map, length_seq. reflexivity. Qed.

Lemma sample_kdf_ready : kdf_ready sample_kdf.
Proof. unfold kdf_ready, sample_kdf; simpl. repeat split; lia. Qed.

Lemma DeriveKey_chains_witness :
  (DeriveKey sample_hash64 sample_kdf [112; 119]%Z).1
  = one_iter_key sample_hash64 sample_kdf
      (one_iter_key sample_hash64 sample_kdf
         (one_iter_key sample_hash64 sample_kdf [112; 119]%Z)).
Proof.
  pose proof (DeriveKey_chains sample_hash64 length_sample_hash64 sample_kdf
                [112; 119]%Z sample_kdf_ready) as (_ & _ & H).
  exact (H eq_refl).
Defined.

Example DeriveKey_run :
  length (DeriveKey sample_hash64 sample_kdf [112; 119]%Z).1 = 32 /\
  lookupTable_ (DeriveKey sample_hash64 sample_kdf [112; 119]%Z).2
    <> lookupTable_ sample_kdf.
Proof. split; [vm_compute; reflexivity |]. vm_compute. discriminate. Qed.

(** * Theorems: CryptoAES *)

Lemma xor_bytes_length (x y : list Z) :
  length x <= length y -> length (xor_bytes x y) = length x.
Proof. intros H. unfold xor_bytes. rewrite length_zip_with. lia. Qed.

Lemma xor_bytes_cancel (x y : list Z) :
  length x <= length y -> xor_bytes (xor_bytes x y) y = x.
Proof.
  unfold xor_bytes. revert y. induction x as [| a x IH]; intros [| b y] Hlen;
    simpl in *; try reflexivity; try lia.
  rewrite IH by lia. f_equal.
  rewrite Z.lxor_assoc, Z.lxor_nilpotent, Z.lxor_0_r. reflexivity.
Qed.

Lemma chunks_fuel_nil (fuel n : nat) : chunks_fuel fuel n [] = [].
Proof. destruct fuel; reflexivity. Qed.

Lemma chunks_fuel_cons (fuel n : nat) (a : Z) (l : list Z) :
  chunks_fuel (S fuel) n (a :: l)
  = take n (a :: l) :: chunks_fuel fuel n (drop n (a :: l)).
Proof. reflexivity. Qed.

Lemma chunks_fuel_concat (n fuel : nat) (l : list Z) :
  0 < n -> length l <= fuel -> concat (chunks_fuel fuel n l) = l.
Proof.
  intros Hn. revert l. induction fuel as [| f IH]; intros l Hl.
  - destruct l; [reflexivity | simpl in Hl; lia].
  - destruct l as [| a l]; [reflexivity |].
    rewrite chunks_fuel_cons. cbn [concat].
    rewrite IH; [apply take_drop |].
    rewrite length_drop. simpl in *. lia.
Qed.

Lemma chunks_fuel_ok (n fuel : nat) (l : list Z) :
  0 < n -> length l <= fuel -> blocks_ok n (chunks_fuel fuel n l).
Proof.
  intros Hn. revert l. induction fuel as [| f IH]; intros l Hl.
  - exact I.
  - destruct l as [| a l]; [exact I |].
    rewrite chunks_fuel_cons.
    assert (Hd : length (drop n (a :: l)) <= f) by (rewrite length_drop; simpl in *; lia).
    specialize (IH (drop n (a :: l)) Hd).
    destruct (drop n (a :: l)) as [| a' l'] eqn:Edrop.
    + rewrite chunks_fuel_nil. cbn [blocks_ok].
      rewrite length_take. simpl length. lia.
    + destruct f as [| f']; [simpl in Hd; lia |].
      rewrite chunks_fuel_cons in *. cbn [blocks_ok]. split; [| exact IH].
      assert (Hlen : length (drop n (a :: l)) = S (length l'))
        by (rewrite Edrop; reflexivity).
      rewrite length_drop in Hlen. rewrite length_take. lia.
Qed.

Lemma chunks_of_blocks (n fuel : nat) (bs : list (list Z)) :
  0 < n -> blocks_ok n bs -> length (concat bs) <= fuel ->
  chunks_fuel fuel n (concat bs) = bs.
Proof.
  intros Hn. revert fuel. induction bs as [| b rest IH]; intros fuel Hok Hfuel.
  - apply chunks_fuel_nil.
  - cbn [concat] in *. cbn [blocks_ok] in Hok.
    destruct rest as [| b' rest'].
    + cbn [concat] in *. rewrite app_nil_r in *.
      destruct b as [| a b]; [simpl in Hok; lia |].
      destruct fuel as [| f]; [simpl in Hfuel; lia |].
      rewrite chunks_fuel_cons.
      rewrite take_ge, drop_ge by lia. rewrite chunks_fuel_nil. reflexivity.
    + destruct Hok as [Hb Hrest].
      destruct b as [| a b]; [simpl in Hb; lia |].
      destruct fuel as [| f]; [simpl in Hfuel; lia |].
      change ((a :: b) ++ concat (b' :: rest'))
        with (a :: (b ++ concat (b' :: rest'))).
      rewrite chunks_fuel_cons.
      change (a :: (b ++ concat (b' :: rest')))
        with ((a :: b) ++ concat (b' :: rest')).
      rewrite take_app_length', drop_app_length' by (symmetry; exact Hb).
      f_equal. apply IH; [exact Hrest |].
      rewrite length_app in Hfuel. simpl in Hfuel. simpl. lia.
Qed.

Lemma blocks_ok_lengths (n : nat) (bs1 bs2 : list (list Z)) :
  map length bs1 = map length bs2 -> blocks_ok n bs1 -> blocks_ok n bs2.
Proof.
  revert bs2. induction bs1 as [| b1 r1 IH]; intros [| b2 r2] Hmap Hok;
    try discriminate; [exact I |].
  injection Hmap as Hb Hr. cbn [blocks_ok] in *.
  destruct r1 as [| b1' r1'], r2 as [| b2' r2']; try discriminate.
  - lia.
  - destruct Hok as [Hn Hok]. split; [lia |]. apply IH; assumption.
Qed.

Lemma blocks_ok_bound (n : nat) (bs : list (list Z)) :
  blocks_ok n bs -> Forall (fun b => length b <= n) bs.
Proof.
  induction bs as [| b rest IH]; intros Hok; [constructor |].
  cbn [blocks_ok] in Hok. destruct rest as [| b' rest'].
  - constructor; [lia | constructor].
  - destruct Hok as [Hb Hok]. constructor; [lia | apply IH; exact Hok].
Qed.

Section CfbFacts.

Variable AES_encrypt_block : list Z -> list Z -> list Z.
Hypothesis block_length : forall key block, length (AES_encrypt_block key block) = 16.

Lemma cfb_encrypt_lengths (key prev : list Z) (blocks : list (list Z)) :
  Forall (fun b => length b <= 16) blocks ->
  map length (cfb_encrypt_blocks AES_encrypt_block key prev blocks) = map length blocks.
Proof.
  intros H. revert prev. induction H as [| b rest Hb Hrest IH]; intros prev; simpl.
  - reflexivity.
  - rewrite IH. f_equal. apply xor_bytes_length. rewrite block_length. exact Hb.
Qed.

Lemma cfb_blocks_roundtrip (key prev : list Z) (blocks : list (list Z)) :
  Forall (fun b => length b <= 16) blocks ->
  cfb_decrypt_blocks AES_encrypt_block key prev
    (cfb_encrypt_blocks AES_encrypt_block key prev blocks) = blocks.
Proof.
  intros H. revert prev. induction H as [| b rest Hb Hrest IH]; intros prev; simpl.
  - reflexivity.
  - rewrite IH. f_equal. apply xor_bytes_cancel. rewrite block_length. exact Hb.
Qed.

Lemma length_concat_lengths (bs1 bs2 : list (list Z)) :
  map length bs1 = map length bs2 -> length (concat bs1) = length (concat bs2).
Proof.
  revert bs2. induction bs1 as [| b1 r1 IH]; intros [| b2 r2] H;
    try discriminate; [reflexivity |].
  injection H as Hb Hr. cbn [concat]. rewrite !length_app, Hb, (IH r2 Hr). reflexivity.
Qed.

(** C6: for a key of 16, 24 or 32 bytes and an IV of 16 bytes, [Encrypt]
    returns a ciphertext as long as the plaintext, and [Decrypt] of that
    ciphertext under the same key and IV returns the plaintext. *)
Theorem aes_cfb_roundtrip (m key iv : list Z) :
  valid_key_length key = true -> length iv = 16 ->
  exists ct,
    Encrypt AES_encrypt_block m key iv = inr ct /\
    length ct = length m /\
    Decrypt AES_encrypt_block ct key iv = inr m.
Proof.
  intros Hk Hiv.
  assert (Hiv' : (length iv =? 16) = true) by (apply Nat.eqb_eq; exact Hiv).
  unfold Encrypt, Decrypt. rewrite Hk, Hiv'. cbn [negb].
  set (bs := chunks 16 m).
  set (cs := cfb_encrypt_blocks AES_encrypt_block key iv bs).
  assert (Hok : blocks_ok 16 bs) by (apply chunks_fuel_ok; lia).
  assert (Hcat : concat bs = m) by (apply chunks_fuel_concat; lia).
  assert (Hlens : map length cs = map length bs).
  { apply cfb_encrypt_lengths, blocks_ok_bound, Hok. }
  exists (concat cs). split; [reflexivity |]. split.
  - rewrite (length_concat_lengths cs bs Hlens), Hcat. reflexivity.
  - f_equal. unfold chunks.
    rewrite chunks_of_blocks;
      [| lia | apply (blocks_ok_lengths 16 bs cs); [symmetry; exact Hlens | exact Hok] | lia].
    subst cs. rewrite cfb_blocks_roundtrip by (apply blocks_ok_bound, Hok).
    exact Hcat.
Qed.

End CfbFacts.

Lemma length_sample_cipher (key block : list Z) : length (sample_cipher key block) = 16.
Proof. unfold sample_cipher. rewrite length_map, length_seq. reflexivity. Qed.

Lemma aes_cfb_roundtrip_witness :
  exists ct,
    Encrypt sample_cipher (map Z.of_nat (seq 0 37)) (replicate 24 5%Z) (replicate 16 1%Z)
      = inr ct /\
    length ct = 37 /\
    Decrypt sample_cipher ct (replicate 24 5%Z) (replicate 16 1%Z)
      = inr (map Z.of_nat (seq 0 37)).
Proof.
  exact (aes_cfb_roundtrip sample_cipher length_sample_cipher
           (map Z.of_nat (seq 0 37)) (replicate 24 5%Z) (replicate 16 1%Z)
           eq_refl eq_refl).
Defined.

Example aes_bad_key :
  Encrypt sample_cipher [1; 2; 3]%Z (replicate 20 5%Z) (replicate 16 1%Z)
    = inl BadKeyLength /\
  Encrypt sample_cipher [1; 2; 3]%Z (replicate 32 5%Z) (replicate 15 1%Z)
    = inl BadIvLength.
Proof. split; reflexivity. Qed.

Example aes_short_block :
  Encrypt sample_cipher [10; 20; 30]%Z (replicate 16 5%Z) (replicate 16 1%Z)
    = inr [91; 70; 77]%Z.
Proof. vm_compute. reflexivity. Qed.

(** * Theorems: CryptoECDSA *)

Local Open Scope Z_scope.

(** ** Fixed-width big-endian integers *)

Lemma be_decode_snoc (bs : list Z) (b : Z) :
  be_decode (bs ++ [b]) = be_decode bs * 256 + b.
Proof. unfold be_decode. rewrite fold_left_app. reflexivity. Qed.

Lemma length_be_encode (len : nat) (z : Z) : length (be_encode len z) = len.
Proof.
  revert z. induction len as [| k IH]; intros z; simpl; [reflexivity |].
  rewrite length_app, IH. simpl. lia.
Qed.

Lemma be_decode_encode_mod (len : nat) (z : Z) :
  be_decode (be_encode len z) = z mod 256 ^ Z.of_nat len.
Proof.
  revert z. induction len as [| k IH]; intros z.
  - simpl. rewrite Z.mod_1_r. reflexivity.
  - cbn [be_encode]. rewrite be_decode_snoc, IH.
    rewrite Nat2Z.inj_succ, Z.pow_succ_r by lia.
    rewrite (Z.rem_mul_r z 256 (256 ^ Z.of_nat k)) by lia.
    ring.
Qed.

Lemma be_decode_encode (z : Z) :
  0 <= z < 2 ^ 256 -> be_decode (be_encode 32 z) = z.
Proof.
  intros Hz. rewrite be_decode_encode_mod.
  change (256 ^ Z.of_nat 32) with (2 ^ 256). apply Z.mod_small. exact Hz.
Qed.

Lemma take_be_pair (x y : Z) :
  take 32 (be_encode 32 x ++ be_encode 32 y) = be_encode 32 x.
Proof. apply take_app_length'. rewrite length_be_encode. reflexivity. Qed.

Lemma drop_be_pair (x y : Z) :
  drop 32 (be_encode 32 x ++ be_encode 32 y) = be_encode 32 y.
Proof. apply drop_app_length'. rewrite length_be_encode. reflexivity. Qed.

Lemma length_be_pair (x y : Z) :
  length (be_encode 32 x ++ be_encode 32 y) = 64%nat.
Proof. rewrite length_app, !length_be_encode. reflexivity. Qed.

Lemma parse_signature_encode (r s : Z) :
  0 <= r < 2 ^ 256 -> 0 <= s < 2 ^ 256 ->
  parse_signature (be_encode 32 r ++ be_encode 32 s) = Some (r, s).
Proof.
  intros Hr Hs. unfold parse_signature.
  rewrite length_be_pair. cbn [Nat.eqb].
  rewrite take_be_pair, drop_be_pair, !be_decode_encode by assumption.
  reflexivity.
Qed.

(** ** Verification *)

Lemma verify_point_spec (c : curve) (e r s : Z) (Q : point) :
  verify_point c e r s Q = true <->
  1 <= r < order_n c /\ 1 <= s < order_n c /\ verification_equation c e r s Q.
Proof.
  unfold verify_point, verification_equation. cbv zeta.
  rewrite !andb_true_iff, !Z.leb_le, !Z.ltb_lt.
  destruct (ec_add c _ _) as [[x1 y1] |].
  - rewrite Z.eqb_eq. split.
    + intros ((((H1 & H2) & H3) & H4) & H5). repeat split; try assumption.
      exists x1, y1. split; [reflexivity | exact H5].
    + intros ((H1 & H2) & (H3 & H4) & (x & y & Heq & Hx)).
      injection Heq as <- <-. repeat split; assumption.
  - split.
    + intros (_ & H). discriminate.
    + intros (_ & _ & (x & y & Heq & _)). discriminate.
Qed.

Lemma parse_signature_None (binSignature : list Z) :
  parse_signature binSignature = None <-> length binSignature <> 64%nat.
Proof.
  unfold parse_signature. destruct (length binSignature =? 64)%nat eqn:E.
  - apply Nat.eqb_eq in E. split; [discriminate | contradiction].
  - apply Nat.eqb_neq in E. split; [intros _; exact E | reflexivity].
Qed.

Lemma ParsePublicKey_shape (c : curve) (pubKey65B : list Z) (Q : point) :
  ParsePublicKey c pubKey65B = inr Q ->
  length pubKey65B = 65%nat /\ head pubKey65B = Some 4 /\ on_curve c Q = true /\
  Q <> None.
Proof.
  unfold ParsePublicKey.
  destruct pubKey65B as [| z xy]; [discriminate |].
  destruct z as [| p |]; try discriminate.
  do 3 (destruct p; try discriminate).
  destruct (length xy =? 64)%nat eqn:E; [| discriminate].
  apply Nat.eqb_eq in E. unfold ParsePublicKey_xy.
  destruct (negb _); [discriminate |].
  destruct (on_curve c _) eqn:Hon; [| discriminate].
  intros [= <-]. simpl. rewrite E. repeat split; [exact Hon | discriminate].
Qed.

Lemma VerifyData_true_iff (SHA256 : list Z -> list Z) (c : curve)
      (binMessage binSignature pubkey65B : list Z) :
  VerifyData SHA256 c binMessage binSignature pubkey65B = true <->
  exists r s Q,
    parse_signature binSignature = Some (r, s) /\
    ParsePublicKey c pubkey65B = inr Q /\
    1 <= r < order_n c /\ 1 <= s < order_n c /\
    verification_equation c (digest SHA256 binMessage) r s Q.
Proof.
  unfold VerifyData.
  destruct (parse_signature binSignature) as [[r s] |];
    destruct (ParsePublicKey c pubkey65B) as [err | Q].
  - split; [discriminate |]. intros (r' & s' & Q' & _ & H & _). discriminate.
  - rewrite verify_point_spec. split.
    + intros (Hr & Hs & Heq). exists r, s, Q. repeat split; tauto.
    + intros (r' & s' & Q' & [= <- <-] & [= <-] & Hr & Hs & Heq).
      repeat split; tauto.
  - split; [discriminate |]. intros (r' & s' & Q' & H & _). discriminate.
  - split; [discriminate |]. intros (r' & s' & Q' & H & _). discriminate.
Qed.

Lemma VerifyData_parse_failure (SHA256 : list Z -> list Z) (c : curve)
      (binMessage binSignature pubkey65B : list Z) :
  parse_signature binSignature = None \/
  (exists err, ParsePublicKey c pubkey65B = inl err) ->
  VerifyData SHA256 c binMessage binSignature pubkey65B = false.
Proof.
  unfold VerifyData. intros [H | (err & H)]; rewrite H.
  - reflexivity.
  - destruct (parse_signature binSignature) as [[r s] |]; reflexivity.
Qed.

Example VerifyData_malformed :
  VerifyData sample_digest small_curve [104; 105] (replicate 63 0) (replicate 65 0)
    = false /\
  VerifyData sample_digest small_curve [104; 105] (replicate 64 0) (4 :: replicate 64 0)
    = false.
Proof. split; vm_compute; reflexivity. Qed.

(** ** Signing, then verifying *)

Lemma ecdsa_scalar_identity (n e r d k s w ik : Z) :
  1 < n -> 0 <= k < n ->
  (w * s) mod n = 1 -> (ik * k) mod n = 1 ->
  s = (ik * (e + r * d)) mod n ->
  ((e * w) mod n + (((r * w) mod n) * d) mod n) mod n = k.
Proof.
  intros Hn Hk Hws Hik Hs.
  rewrite Z.mul_mod_idemp_l by lia.
  rewrite <- Z.add_mod by lia.
  replace (e * w + r * w * d) with (w * (e + r * d)) by ring.
  assert (Hks : (k * s) mod n = (e + r * d) mod n).
  { rewrite Hs, Z.mul_mod_idemp_r by lia.
    replace (k * (ik * (e + r * d))) with ((ik * k) * (e + r * d)) by ring.
    rewrite <- Z.mul_mod_idemp_l, Hik by lia. f_equal. ring. }
  rewrite <- Z.mul_mod_idemp_r, <- Hks, Z.mul_mod_idemp_r by lia.
  replace (w * (k * s)) with ((w * s) * k) by ring.
  rewrite <- Z.mul_mod_idemp_l, Hws by lia.
  rewrite Z.mul_1_l. apply Z.mod_small. exact Hk.
Qed.

Lemma sign_attempt_Some (c : curve) (e d k r s : Z) :
  sign_attempt c e d k = Some (r, s) ->
  1 <= k < order_n c /\
  (exists x1 y1, ec_mul c k (base_point c) = Some (x1, y1) /\ r = x1 mod order_n c) /\
  r <> 0 /\ s <> 0 /\
  s = (Z.invmod k (order_n c) * (e + r * d)) mod order_n c.
Proof.
  unfold sign_attempt. cbv zeta.
  destruct ((1 <=? k) && (k <? order_n c)) eqn:Hk; [| discriminate].
  apply andb_true_iff in Hk as [Hk1 Hk2]. apply Z.leb_le in Hk1. apply Z.ltb_lt in Hk2.
  destruct (ec_mul c k (base_point c)) as [[x1 y1] |]; [| discriminate].
  destruct (x1 mod order_n c =? 0) eqn:Hr; [discriminate |].
  destruct (_ =? 0) eqn:Hs in |- *; [discriminate |].
  intros [= <- <-]. apply Z.eqb_neq in Hr, Hs.
  split; [lia |]. split; [exists x1, y1; split; reflexivity |].
  split; [exact Hr |]. split; [exact Hs | reflexivity].
Qed.

Lemma sign_retry_Some (c : curve) (e d : Z) (nonces : list Z) (rs : Z * Z) :
  sign_retry c e d nonces = Some rs ->
  exists k, In k nonces /\ sign_attempt c e d k = Some rs.
Proof.
  induction nonces as [| k rest IH]; simpl; [discriminate |].
  destruct (sign_attempt c e d k) as [rs' |] eqn:E.
  - intros [= <-]. exists k. split; [left; reflexivity | exact E].
  - intros H. destruct (IH H) as (k' & Hin & Hk'). exists k'. split; [right |]; assumption.
Qed.

Lemma sign_retry_finds (c : curve) (e d : Z) (nonces : list Z) :
  (exists k, In k nonces /\ sign_attempt c e d k <> None) ->
  exists rs, sign_retry c e d nonces = Some rs.
Proof.
  intros (k & Hin & Hk). induction nonces as [| k' rest IH]; simpl; [destruct Hin |].
  destruct (sign_attempt c e d k') as [rs |] eqn:E; [exists rs; reflexivity |].
  destruct Hin as [-> | Hin]; [congruence | apply IH; exact Hin].
Qed.

Lemma on_curve_range (c : curve) (x y : Z) :
  on_curve c (Some (x, y)) = true -> 0 <= x < field_p c /\ 0 <= y < field_p c.
Proof.
  simpl. rewrite !andb_true_iff, !Z.leb_le, !Z.ltb_lt. tauto.
Qed.

Section SignVerify.

Variable SHA256 : list Z -> list Z.
Variable c : curve.
Hypothesis laws : group_laws c.

Lemma order_gt_1 : 1 < order_n c.
Proof. pose proof (Z.prime_ge_2 _ (order_prime c laws)). lia. Qed.

Lemma invmod_order (a : Z) :
  1 <= a < order_n c -> (Z.invmod a (order_n c) * a) mod order_n c = 1.
Proof.
  intros Ha. apply Z.invmod_prime; [exact (order_prime c laws) |].
  rewrite Z.mod_small by lia. lia.
Qed.

Lemma public_key_parses (d : Z) :
  1 <= d < order_n c ->
  exists x y,
    ec_mul c d (base_point c) = Some (x, y) /\
    SerializePublicKey (ec_mul c d (base_point c))
      = inr (4 :: be_encode 32 x ++ be_encode 32 y) /\
    ParsePublicKey c (4 :: be_encode 32 x ++ be_encode 32 y) = inr (Some (x, y)).
Proof.
  intros Hd. destruct (mul_base_on_curve c laws d Hd) as (x & y & Hmul & Hon).
  exists x, y. split; [exact Hmul |]. split; [rewrite Hmul; reflexivity |].
  destruct (on_curve_range c x y Hon) as [Hx Hy].
  pose proof (field_256 c laws) as Hp.
  unfold ParsePublicKey. rewrite length_be_pair. cbn [Nat.eqb].
  unfold ParsePublicKey_xy.
  rewrite take_be_pair, drop_be_pair, !length_be_encode. cbn [Nat.eqb andb negb].
  rewrite !be_decode_encode by lia. rewrite Hon. reflexivity.
Qed.

Lemma signature_verifies (e d k r s : Z) :
  1 <= d < order_n c ->
  sign_attempt c e d k = Some (r, s) ->
  verify_point c e r s (ec_mul c d (base_point c)) = true /\
  0 <= r < 2 ^ 256 /\ 0 <= s < 2 ^ 256.
Proof.
  intros Hd Hsig.
  pose proof order_gt_1 as Hn. pose proof (order_256 c laws) as Hn256.
  destruct (sign_attempt_Some c e d k r s Hsig)
    as (Hk & (x1 & y1 & Hmul & Hr) & Hr0 & Hs0 & Hs).
  assert (Hrn : 1 <= r < order_n c).
  { pose proof (Z.mod_pos_bound x1 (order_n c) ltac:(lia)). lia. }
  assert (Hsn : 1 <= s < order_n c).
  { pose proof (Z.mod_pos_bound (Z.invmod k (order_n c) * (e + r * d)) (order_n c)
                  ltac:(lia)). lia. }
  split; [| lia].
  apply verify_point_spec. split; [exact Hrn |]. split; [exact Hsn |].
  unfold verification_equation. cbv zeta.
  set (w := Z.invmod s (order_n c)).
  assert (Hu1 : 0 <= (e * w) mod order_n c < order_n c) by (apply Z.mod_pos_bound; lia).
  assert (Hu2 : 0 <= (r * w) mod order_n c < order_n c) by (apply Z.mod_pos_bound; lia).
  rewrite (mul_base_mul c laws ((r * w) mod order_n c) d Hu2 ltac:(lia)).
  rewrite (mul_base_add c laws ((e * w) mod order_n c)
             (((r * w) mod order_n c * d) mod order_n c) Hu1
             ltac:(apply Z.mod_pos_bound; lia)).
  rewrite (ecdsa_scalar_identity (order_n c) e r d k s w (Z.invmod k (order_n c))
             Hn ltac:(lia) (invmod_order s Hsn) (invmod_order k Hk) Hs).
  exists x1, y1. split; [exact Hmul | symmetry; exact Hr].
Qed.

(** C7: for every message and every private key of 32 bytes whose value is
    in [1, n-1], [ComputePublicKey] returns a public key, every signature
    [SignData] returns for the message under the key is accepted by
    [VerifyData] under that public key, and [SignData] does return a
    signature as soon as the entropy source supplies one nonce that the
    signing equations accept. *)
Theorem sign_then_verify (binToSign binPrivKey nonces : list Z) :
  length binPrivKey = 32%nat ->
  1 <= be_decode binPrivKey < order_n c ->
  exists pubKey,
    ComputePublicKey c binPrivKey = inr pubKey /\
    (forall sig, SignData SHA256 c nonces binToSign binPrivKey = inr sig ->
                 VerifyData SHA256 c binToSign sig pubKey = true) /\
    ((exists k, In k nonces /\
                sign_attempt c (digest SHA256 binToSign) (be_decode binPrivKey) k <> None) ->
     exists sig, SignData SHA256 c nonces binToSign binPrivKey = inr sig).
Proof.
  intros Hlen Hd. set (d := be_decode binPrivKey) in *.
  assert (Hparse : ParsePrivateKey c binPrivKey = inr d).
  { unfold ParsePrivateKey. rewrite Hlen. cbn [Nat.eqb negb]. fold d.
    destruct ((1 <=? d) && (d <? order_n c)) eqn:E; [reflexivity |].
    apply andb_false_iff in E as [E | E];
      [apply Z.leb_gt in E | apply Z.ltb_ge in E]; lia. }
  destruct (public_key_parses d Hd) as (x & y & Hmul & Hser & Hpk).
  exists (4 :: be_encode 32 x ++ be_encode 32 y).
  split; [unfold ComputePublicKey; rewrite Hparse; exact Hser |].
  unfold SignData. rewrite Hparse. split.
  - intros sig Hsig.
    destruct (sign_retry c (digest SHA256 binToSign) d nonces) as [[r s] |] eqn:E;
      [| discriminate].
    assert (Hsg : sig = be_encode 32 r ++ be_encode 32 s) by congruence.
    clear Hsig. subst sig.
    destruct (sign_retry_Some c _ d nonces (r, s) E) as (k & _ & Hatt).
    destruct (signature_verifies _ d k r s Hd Hatt) as (Hv & Hr & Hs).
    unfold VerifyData. rewrite (parse_signature_encode r s Hr Hs), Hpk, <- Hmul.
    exact Hv.
  - intros Hex. destruct (sign_retry_finds c _ d nonces Hex) as ([r s] & E).
    rewrite E. eexists. reflexivity.
Qed.

End SignVerify.

(** ** The small curve satisfies the laws *)

Lemma point_eqb_eq (P Q : point) : point_eqb P Q = true -> P = Q.
Proof.
  destruct P as [[x1 y1] |], Q as [[x2 y2] |]; simpl; try discriminate; [| reflexivity].
  rewrite andb_true_iff, !Z.eqb_eq. intros [-> ->]. reflexivity.
Qed.

Lemma In_scalars (c : curve) (k : Z) : 0 <= k < order_n c -> In k (scalars c).
Proof.
  intros Hk. unfold scalars. apply in_map_iff. exists (Z.to_nat k).
  split; [lia |]. apply in_seq. lia.
Qed.

Lemma check_group_laws_sound (c : curve) : check_group_laws c = true -> group_laws c.
Proof.
  unfold check_group_laws. cbv zeta.
  rewrite !andb_true_iff, !Z.ltb_lt, !forallb_forall.
  intros ((((((Hn1 & Hn256) & Hp0) & Hp256) & Hprime) & Hon) & Hlaws).
  constructor.
  - split; [exact Hn1 |]. intros k Hk Hdiv.
    specialize (Hprime k (In_scalars c k ltac:(lia))).
    apply orb_true_iff in Hprime as [H | H]; [apply Z.ltb_lt in H; lia |].
    apply negb_true_iff, Z.eqb_neq in H. apply H.
    apply Z.mod_divide; [lia | exact Hdiv].
  - exact Hn256.
  - split; assumption.
  - intros k Hk. specialize (Hon k (In_scalars c k ltac:(lia))).
    apply orb_true_iff in Hon as [H | H]; [apply Z.ltb_lt in H; lia |].
    destruct (ec_mul c k (base_point c)) as [[x y] |]; [| discriminate].
    exists x, y. split; [reflexivity | exact H].
  - intros j k Hj Hk. specialize (Hlaws j (In_scalars c j Hj)).
    rewrite forallb_forall in Hlaws. specialize (Hlaws k (In_scalars c k Hk)).
    apply andb_true_iff in Hlaws as [H _]. apply point_eqb_eq. exact H.
  - intros j k Hj Hk. specialize (Hlaws j (In_scalars c j Hj)).
    rewrite forallb_forall in Hlaws. specialize (Hlaws k (In_scalars c k Hk)).
    apply andb_true_iff in Hlaws as [_ H]. apply point_eqb_eq. exact H.
Qed.

Lemma small_curve_laws : group_laws small_curve.
Proof. apply check_group_laws_sound. vm_compute. reflexivity. Qed.

Lemma sign_then_verify_witness :
  exists sig pubKey,
    ComputePublicKey small_curve sample_key = inr pubKey /\
    SignData sample_digest small_curve [0; 25; 3; 10] [104; 105] sample_key = inr sig /\
    VerifyData sample_digest small_curve [104; 105] sig pubKey = true.
Proof.
  destruct (sign_then_verify sample_digest small_curve small_curve_laws
              [104; 105] sample_key [0; 25; 3; 10] eq_refl
              ltac:(change (1 <= 7 < 19); lia))
    as (pubKey & Hpk & Hver & Hsig).
  destruct Hsig as [sig Hsig].
  { exists 3. split; [simpl; tauto | vm_compute; discriminate]. }
  exists sig, pubKey. split; [exact Hpk |]. split; [exact Hsig |].
  apply Hver. exact Hsig.
Defined.

(** ** What verification decides *)

Lemma In_field_elements (c : curve) (x : Z) :
  0 <= x < field_p c -> In x (field_elements c).
Proof.
  intros Hx. unfold field_elements. apply in_map_iff. exists (Z.to_nat x).
  split; [lia |]. apply in_seq. lia.
Qed.

Lemma check_base_generates_sound (c : curve) :
  check_base_generates c = true -> base_generates c.
Proof.
  unfold check_base_generates. rewrite forallb_forall. intros Hall x y Hon.
  destruct (on_curve_range c x y Hon) as [Hx Hy].
  specialize (Hall x (In_field_elements c x Hx)).
  rewrite forallb_forall in Hall. specialize (Hall y (In_field_elements c y Hy)).
  rewrite Hon in Hall. cbn [negb orb] in Hall.
  apply existsb_exists in Hall as (d & Hin & Hd).
  apply andb_true_iff in Hd as [Hd1 Heq]. apply Z.leb_le in Hd1.
  apply point_eqb_eq in Heq.
  unfold scalars in Hin. apply in_map_iff in Hin as (m & <- & Hm).
  apply in_seq in Hm. exists (Z.of_nat m). split; [lia | exact Heq].
Qed.

Lemma small_curve_generated : base_generates small_curve.
Proof. apply check_base_generates_sound. vm_compute. reflexivity. Qed.

(** The scalar that verification multiplies the base point by, once the
    public point is written [d.G]: it is [w (e + r d)] modulo [n]. *)
Lemma verify_scalar (n e r d w : Z) :
  1 < n ->
  ((e * w) mod n + (((r * w) mod n) * d) mod n) mod n = (w * (e + r * d)) mod n.
Proof.
  intros Hn. rewrite Z.mul_mod_idemp_l by lia.
  rewrite <- Z.add_mod by lia. f_equal. ring.
Qed.

Lemma verify_scalar_signs (n e r d s w : Z) :
  1 < n -> (w * s) mod n = 1 ->
  (((w * (e + r * d)) mod n) * s) mod n = (e + r * d) mod n.
Proof.
  intros Hn Hws. rewrite Z.mul_mod_idemp_l by lia.
  replace (w * (e + r * d) * s) with ((w * s) * (e + r * d)) by ring.
  rewrite <- Z.mul_mod_idemp_l, Hws by lia. f_equal. ring.
Qed.

Lemma verify_scalar_unique (n e r d s w k : Z) :
  1 < n -> (w * s) mod n = 1 -> 0 <= k < n ->
  (k * s) mod n = (e + r * d) mod n ->
  (w * (e + r * d)) mod n = k.
Proof.
  intros Hn Hws Hk Hks.
  rewrite <- Z.mul_mod_idemp_r, <- Hks, Z.mul_mod_idemp_r by lia.
  replace (w * (k * s)) with ((w * s) * k) by ring.
  rewrite <- Z.mul_mod_idemp_l, Hws by lia.
  rewrite Z.mul_1_l. apply Z.mod_small. exact Hk.
Qed.

Section Verification.

Variable c : curve.
Hypothesis laws : group_laws c.

(** On the multiples of the base point the equation of the verifier and the
    equations of the signer say the same. *)
Lemma verification_equation_signed (e r s d : Z) :
  1 <= r < order_n c -> 1 <= s < order_n c -> 1 <= d < order_n c ->
  verification_equation c e r s (ec_mul c d (base_point c)) <->
  exists k, 1 <= k < order_n c /\
    (exists x1 y1, ec_mul c k (base_point c) = Some (x1, y1) /\
                   x1 mod order_n c = r) /\
    (k * s) mod order_n c = (e + r * d) mod order_n c.
Proof.
  intros Hr Hs Hd.
  pose proof (order_gt_1 c laws) as Hn.
  pose proof (invmod_order c laws s Hs) as Hws.
  unfold verification_equation. cbv zeta.
  set (w := Z.invmod s (order_n c)) in *.
  assert (Hu1 : 0 <= (e * w) mod order_n c < order_n c) by (apply Z.mod_pos_bound; lia).
  assert (Hu2 : 0 <= (r * w) mod order_n c < order_n c) by (apply Z.mod_pos_bound; lia).
  rewrite (mul_base_mul c laws ((r * w) mod order_n c) d Hu2 ltac:(lia)).
  rewrite (mul_base_add c laws ((e * w) mod order_n c)
             (((r * w) mod order_n c * d) mod order_n c) Hu1
             ltac:(apply Z.mod_pos_bound; lia)).
  rewrite (verify_scalar (order_n c) e r d w Hn).
  set (k' := (w * (e + r * d)) mod order_n c).
  assert (Hk' : 0 <= k' < order_n c) by (apply Z.mod_pos_bound; lia).
  split.
  - intros (x1 & y1 & Hmul & Hx). exists k'. split.
    + destruct (Z.eq_dec k' 0) as [E | E]; [| lia].
      rewrite E in Hmul. discriminate.
    + split; [exists x1, y1; split; assumption |].
      apply verify_scalar_signs; assumption.
  - intros (k & Hk & (x1 & y1 & Hmul & Hx) & Hks).
    assert (Heq : k' = k).
    { apply (verify_scalar_unique (order_n c) e r d s w k Hn Hws ltac:(lia) Hks). }
    rewrite Heq. exists x1, y1. split; assumption.
Qed.

Hypothesis generated : base_generates c.

Lemma verification_decides (e r s : Z) (Q : point) :
  1 <= r < order_n c -> 1 <= s < order_n c ->
  on_curve c Q = true -> Q <> None ->
  verification_equation c e r s Q <-> signed_by c e r s Q.
Proof.
  intros Hr Hs Hon HQ.
  destruct Q as [[x y] |]; [| contradiction].
  destruct (generated x y Hon) as (d & Hd & Hmul).
  unfold signed_by. cbv zeta. split.
  - intros Hv. rewrite <- Hmul in Hv.
    apply (verification_equation_signed e r s d Hr Hs Hd) in Hv.
    destruct Hv as (k & Hk & Hx & Hks).
    exists d, k. repeat split; try tauto. symmetry. exact Hmul.
  - intros (d' & k & Hd' & HQd & Hk & Hx & Hks).
    rewrite HQd. apply (verification_equation_signed e r s d' Hr Hs Hd').
    exists k. repeat split; tauto.
Qed.

End Verification.

(** C8: [VerifyData] returns true exactly when the signature parses to
    [(r, s)], the public key parses to a point, [r] and [s] are in
    [1, n-1], and the verification equation holds for the SHA-256 digest of
    the message.  On a curve that obeys the group laws and is generated by
    its base point, this is the case exactly when the signature was made
    for that digest with the private key of that public key: for some nonce
    it satisfies the equations of the signer.  When the signature or the
    public key fails to parse (a signature that is not 64 bytes long, a key
    that is not 65 bytes long or does not start with 0x04) the result is
    [false]. *)
Theorem VerifyData_accepts_signatures (SHA256 : list Z -> list Z) (c : curve)
        (binMessage binSignature pubkey65B : list Z) :
  group_laws c -> base_generates c ->
  (VerifyData SHA256 c binMessage binSignature pubkey65B = true <->
   exists r s Q,
     parse_signature binSignature = Some (r, s) /\
     ParsePublicKey c pubkey65B = inr Q /\
     1 <= r < order_n c /\ 1 <= s < order_n c /\
     verification_equation c (be_decode (SHA256 binMessage)) r s Q) /\
  (VerifyData SHA256 c binMessage binSignature pubkey65B = true <->
   exists r s Q,
     parse_signature binSignature = Some (r, s) /\
     ParsePublicKey c pubkey65B = inr Q /\
     1 <= r < order_n c /\ 1 <= s < order_n c /\
     signed_by c (be_decode (SHA256 binMessage)) r s Q) /\
  (length binSignature <> 64%nat \/ length pubkey65B <> 65%nat \/
   head pubkey65B <> Some 4 ->
   VerifyData SHA256 c binMessage binSignature pubkey65B = false).
Proof.
  intros laws generated.
  pose proof (VerifyData_true_iff SHA256 c binMessage binSignature pubkey65B) as Hiff.
  unfold digest in Hiff.
  split; [exact Hiff |]. split.
  - rewrite Hiff. split.
    + intros (r & s & Q & Hsig & Hpk & Hr & Hs & Hv). exists r, s, Q.
      destruct (ParsePublicKey_shape c pubkey65B Q Hpk) as (_ & _ & Hon & HQ).
      repeat split; try tauto.
      apply (verification_decides c laws generated _ r s Q Hr Hs Hon HQ). exact Hv.
    + intros (r & s & Q & Hsig & Hpk & Hr & Hs & Hv). exists r, s, Q.
      destruct (ParsePublicKey_shape c pubkey65B Q Hpk) as (_ & _ & Hon & HQ).
      repeat split; try tauto.
      apply (verification_decides c laws generated _ r s Q Hr Hs Hon HQ). exact Hv.
  - intros Hbad. apply VerifyData_parse_failure.
    destruct (parse_signature binSignature) as [[r s] |] eqn:Hsig; [| left; reflexivity].
    right. destruct (ParsePublicKey c pubkey65B) as [err | Q] eqn:Hpk; [eauto |].
    destruct (ParsePublicKey_shape c pubkey65B Q Hpk) as (Hlen & Hhd & _).
    destruct Hbad as [Hbad | [Hbad | Hbad]]; try contradiction.
    apply parse_signature_None in Hbad. congruence.
Qed.

(** On the small curve: the signature (10, 13) on the message [104; 105] is
    accepted under the public key of the private key 7, so it satisfies the
    equations of the signer; the same signature on another message is
    rejected, so no private key and nonce made it for that message. *)
Lemma VerifyData_accepts_signatures_witness :
  (exists r s Q,
     parse_signature (be_encode 32 10 ++ be_encode 32 13) = Some (r, s) /\
     ParsePublicKey small_curve (4 :: be_encode 32 0 ++ be_encode 32 6) = inr Q /\
     1 <= r < 19 /\ 1 <= s < 19 /\
     signed_by small_curve (be_decode (sample_digest [104; 105])) r s Q) /\
  ~ (exists r s Q,
     parse_signature (be_encode 32 10 ++ be_encode 32 13) = Some (r, s) /\
     ParsePublicKey small_curve (4 :: be_encode 32 0 ++ be_encode 32 6) = inr Q /\
     1 <= r < 19 /\ 1 <= s < 19 /\
     signed_by small_curve (be_decode (sample_digest [104; 106])) r s Q).
Proof.
  split.
  - apply (VerifyData_accepts_signatures sample_digest small_curve [104; 105]
             (be_encode 32 10 ++ be_encode 32 13)
             (4 :: be_encode 32 0 ++ be_encode 32 6)
             small_curve_laws small_curve_generated).
    vm_compute. reflexivity.
  - intros H.
    apply (VerifyData_accepts_signatures sample_digest small_curve [104; 106]
             (be_encode 32 10 ++ be_encode 32 13)
             (4 :: be_encode 32 0 ++ be_encode 32 6)
             small_curve_laws small_curve_generated) in H.
    vm_compute in H. discriminate H.
Defined.

Example sign_verify_run :
  SignData sample_digest small_curve [0; 25; 3; 10] [104; 105] sample_key
    = inr (be_encode 32 10 ++ be_encode 32 13) /\
  ComputePublicKey small_curve sample_key = inr (4 :: be_encode 32 0 ++ be_encode 32 6) /\
  VerifyData sample_digest small_curve [104; 105]
    (be_encode 32 10 ++ be_encode 32 13) (4 :: be_encode 32 0 ++ be_encode 32 6) = true /\
  VerifyData sample_digest small_curve [104; 106]
    (be_encode 32 10 ++ be_encode 32 13) (4 :: be_encode 32 0 ++ be_encode 32 6) = false /\
  VerifyData sample_digest small_curve [104; 105]
    (be_encode 32 10 ++ be_encode 32 12) (4 :: be_encode 32 0 ++ be_encode 32 6) = false.
Proof. vm_compute. repeat split. Qed.

(** The constants of secp256k1: the base point is on the curve, the public
    key of the private key 1 is the base point, and doubling and adding give
    the published coordinates of 2G and 3G. *)
Example secp256k1_base_point :
  on_curve secp256k1 (base_point secp256k1) = true /\
  ComputePublicKey secp256k1 (be_encode 32 1)
    = inr (4 :: be_encode 32 (base_x secp256k1) ++ be_encode 32 (base_y secp256k1)) /\
  field_p secp256k1 = 2 ^ 256 - 2 ^ 32 - 977.
Proof. vm_compute. repeat split. Qed.

Example secp256k1_small_multiples :
  ec_mul secp256k1 2 (base_point secp256k1)
    = Some (0xC6047F9441ED7D6D3045406E95C07CD85C778E4B8CEF3CA7ABAC09B95C709EE5,
            0x1AE168FEA63DC339A3C58419466CEAEEF7F632653266D0E1236431A950CFE52A) /\
  ec_mul secp256k1 3 (base_point secp256k1)
    = Some (0xF9308A019258C31049344F85F89D5229B531C845836F99B08601F113BCE036F9,
            0x388F7B0F632DE8140FE337E62A37F3566500A99934C2231B6CB9FD7584B8E672).
Proof. vm_compute. split; reflexivity. Qed.

Local Close Scope Z_scope.

(** * Theorems: the rest of the header *)

(** ** The range of the mlock and munlock macros *)

Local Open Scope Z_scope.

Lemma macro_range_bounds (k a b : Z) :
  0 <= k -> 0 <= a -> 0 < b -> a + b + 2 ^ k <= 2 ^ 64 ->
  mlock_base (2 ^ k) a = a / 2 ^ k * 2 ^ k /\
  mlock_base (2 ^ k) a + mlock_length (2 ^ k) a b = ((a + b - 1) / 2 ^ k + 1) * 2 ^ k.
Proof.
  intros Hk Ha0 Hb Htop. unfold mlock_length, mlock_base, size_t.
  assert (Hp : 0 < 2 ^ k) by (apply Z.pow_pos_nonneg; lia).
  pose proof (Z.mod_pos_bound a (2 ^ k) Hp) as Ha.
  pose proof (Z.mod_pos_bound (a + b - 1) (2 ^ k) Hp) as Hab.
  pose proof (Z.div_mod a (2 ^ k) ltac:(lia)) as Hda.
  pose proof (Z.div_mod (a + b - 1) (2 ^ k) ltac:(lia)) as Hdab.
  pose proof (Z.mod_le a (2 ^ k) Ha0 Hp) as Hle.
  pose proof (Z.mod_le (a + b - 1) (2 ^ k) ltac:(lia) Hp) as Hle'.
  rewrite land_lnot_ones by exact Hk.
  rewrite (Z.mod_small (a + b - 1)) by lia.
  rewrite lor_ones by exact Hk.
  rewrite (Z.mod_small (a - a mod 2 ^ k)) by lia.
  rewrite (Z.mod_small (a + b - 1 - (a + b - 1) mod 2 ^ k + (2 ^ k - 1) + 1)) by lia.
  rewrite (Z.mod_small (a + b - 1 - (a + b - 1) mod 2 ^ k + (2 ^ k - 1) + 1
                        - (a - a mod 2 ^ k))) by lia.
  lia.
Qed.

Lemma page_of_bounds (p x q : Z) :
  0 < p -> (q * p <= x <-> q <= x / p) /\ (x < (q + 1) * p <-> x / p <= q).
Proof.
  intros Hp. pose proof (Z.div_mod x p ltac:(lia)) as Hd.
  pose proof (Z.mod_pos_bound x p Hp) as Hm.
  split; split; intros H; nia.
Qed.

(** The range the macros compute is the set of addresses that lie on a page
    touched by [a, a + b). *)
Lemma macro_range_pages (k a b x : Z) :
  0 <= k -> 0 <= a -> 0 < b -> a + b + 2 ^ k <= 2 ^ 64 ->
  macro_range (2 ^ k) a b x <->
  page_of (2 ^ k) a <= page_of (2 ^ k) x <= page_of (2 ^ k) (a + b - 1).
Proof.
  intros Hk Ha0 Hb Htop.
  destruct (macro_range_bounds k a b Hk Ha0 Hb Htop) as [Hbase Hend].
  assert (Hp : 0 < 2 ^ k) by (apply Z.pow_pos_nonneg; lia).
  unfold macro_range, in_range, page_of. rewrite Hend, Hbase.
  destruct (page_of_bounds (2 ^ k) x (a / 2 ^ k) Hp) as [Hlo _].
  destruct (page_of_bounds (2 ^ k) x ((a + b - 1) / 2 ^ k) Hp) as [_ Hhi].
  rewrite Hlo, Hhi. reflexivity.
Qed.

(** X1: for a page size that is a power of two and a buffer of [b > 0] bytes
    at address [a] (away from the top of the address space), the range the
    [mlock]/[munlock] macros pass on starts and ends on a page boundary,
    contains every byte of the buffer, and is the smallest such range: less
    than a page is added on either side. *)
Theorem mlock_macro_range (k a b : Z) :
  0 <= k -> 0 <= a -> 0 < b -> a + b + 2 ^ k <= 2 ^ 64 ->
  mlock_base (2 ^ k) a mod 2 ^ k = 0 /\
  mlock_length (2 ^ k) a b mod 2 ^ k = 0 /\
  (forall x, a <= x < a + b -> macro_range (2 ^ k) a b x) /\
  a - mlock_base (2 ^ k) a < 2 ^ k /\
  mlock_base (2 ^ k) a + mlock_length (2 ^ k) a b - (a + b) < 2 ^ k.
Proof.
  intros Hk Ha0 Hb Htop.
  pose proof (mlock_macro_covers k a b Hk Ha0 Hb Htop) as H. cbv zeta in H.
  destruct H as (H1 & H2 & H3 & H4 & H5 & H6).
  split; [exact H1 |]. split; [exact H2 |]. split.
  { intros x Hx. unfold macro_range, in_range. lia. }
  split; [exact H5 | exact H6].
Qed.

Lemma mlock_macro_range_witness :
  mlock_base (2 ^ 12) 0x7f0012345ff0 = 0x7f0012345000 /\
  mlock_length (2 ^ 12) 0x7f0012345ff0 32 = 8192 /\
  macro_range (2 ^ 12) 0x7f0012345ff0 32 0x7f001234600f.
Proof.
  pose proof (mlock_macro_range 12 0x7f0012345ff0 32
                ltac:(lia) ltac:(lia) ltac:(lia) ltac:(vm_compute; discriminate)) as H.
  destruct H as (_ & _ & Hin & _ & _).
  split; [reflexivity |]. split; [reflexivity |].
  apply Hin. lia.
Defined.

(** X2: buffers that share a page are not protected independently.  The
    range that [munlock] receives for a buffer at [a] of [b] bytes contains
    every address [x'] on a page that holds a byte [x] of the buffer, and
    only those; so the call made when one buffer is destroyed also covers
    the bytes of any other buffer on its pages. *)
Theorem munlock_reaches_page_neighbours (k a b x' : Z) :
  0 <= k -> 0 <= a -> 0 < b -> a + b + 2 ^ k <= 2 ^ 64 ->
  macro_range (2 ^ k) a b x' <->
  exists x, a <= x < a + b /\ page_of (2 ^ k) x' = page_of (2 ^ k) x.
Proof.
  intros Hk Ha0 Hb Htop.
  assert (Hp : 0 < 2 ^ k) by (apply Z.pow_pos_nonneg; lia).
  rewrite macro_range_pages by assumption. unfold page_of. split.
  - intros [Hlo Hhi].
    destruct (Z_le_gt_dec (x' / 2 ^ k * 2 ^ k) a) as [Hle | Hgt].
    + exists a. split; [lia |].
      apply Z.le_antisymm; [| exact Hlo].
      apply Z.div_le_lower_bound; lia.
    + exists (x' / 2 ^ k * 2 ^ k). split.
      * split; [lia |].
        pose proof (Z.div_mod (a + b - 1) (2 ^ k) ltac:(lia)) as Hd.
        pose proof (Z.mod_pos_bound (a + b - 1) (2 ^ k) Hp) as Hm.
        nia.
      * rewrite Z.div_mul by lia. reflexivity.
  - intros (x & Hx & Hpage). rewrite Hpage.
    split; apply Z.div_le_mono; lia.
Qed.

Lemma munlock_reaches_page_neighbours_witness :
  macro_range (2 ^ 12) 0x1000 32 0x1fe0 /\ ~ macro_range (2 ^ 12) 0x1000 32 0x2000.
Proof.
  pose proof (fun x' => munlock_reaches_page_neighbours 12 0x1000 32 x'
                ltac:(lia) ltac:(lia) ltac:(lia) ltac:(lia)) as H.
  split.
  - apply H. exists 0x1000. split; [lia | reflexivity].
  - unfold macro_range, in_range. vm_compute. intros [_ Hlt]. discriminate Hlt.
Defined.

Lemma pred_mod_pow2 (k a : Z) :
  0 <= k -> 0 < a ->
  (a + 0 - 1) mod 2 ^ k = (if a mod 2 ^ k =? 0 then 2 ^ k - 1 else a mod 2 ^ k - 1).
Proof.
  intros Hk Ha.
  assert (Hp : 0 < 2 ^ k) by (apply Z.pow_pos_nonneg; lia).
  pose proof (Z.mod_pos_bound a (2 ^ k) Hp) as Hm.
  pose proof (Z.div_mod a (2 ^ k) ltac:(lia)) as Hd.
  destruct (Z.eqb_spec (a mod 2 ^ k) 0) as [E | E]; symmetry.
  - apply (Z.mod_unique _ _ (a / 2 ^ k - 1)); [left; lia | lia].
  - apply (Z.mod_unique _ _ (a / 2 ^ k)); [left; lia | lia].
Qed.

(** X11: what the guard [if(getSize() > 0)] keeps from the macros.  For an
    empty range the length the macro computes is zero when the address is
    page-aligned (or null) and one whole page otherwise: without the guard,
    [lockData()] and [destroy()] on an empty buffer would lock and unlock
    the page the pointer happens to fall in. *)
Theorem mlock_macro_empty_range (k a : Z) :
  0 <= k -> 0 <= a -> a + 2 ^ k <= 2 ^ 64 ->
  mlock_length (2 ^ k) a 0 = (if a mod 2 ^ k =? 0 then 0 else 2 ^ k).
Proof.
  intros Hk Ha0 Htop. unfold mlock_length, mlock_base, size_t.
  assert (Hp : 0 < 2 ^ k) by (apply Z.pow_pos_nonneg; lia).
  rewrite land_lnot_ones by exact Hk.
  pose proof (Z.mod_pos_bound a (2 ^ k) Hp) as Hm.
  pose proof (Z.mod_le a (2 ^ k) Ha0 Hp) as Hle.
  destruct (Z.eq_dec a 0) as [-> | Hne].
  - assert (Hk64 : k <= 64).
    { destruct (Z_le_gt_dec k 64) as [H | H]; [exact H |].
      assert (2 ^ 65 <= 2 ^ k) by (apply Z.pow_le_mono_r; lia). lia. }
    assert (Hsplit : 2 ^ 64 = 2 ^ (64 - k) * 2 ^ k).
    { rewrite <- Z.pow_add_r by lia. f_equal. lia. }
    assert (Hq : 0 < 2 ^ (64 - k)) by (apply Z.pow_pos_nonneg; lia).
    replace ((0 + 0 - 1) mod 2 ^ 64) with (2 ^ 64 - 1) by reflexivity.
    rewrite lor_ones by exact Hk.
    assert (Hall : (2 ^ 64 - 1) mod 2 ^ k = 2 ^ k - 1).
    { symmetry. apply (Z.mod_unique _ _ (2 ^ (64 - k) - 1)); [left; lia | lia]. }
    rewrite Hall. rewrite Z.mod_0_l by lia.
    replace (2 ^ 64 - 1 - (2 ^ k - 1) + (2 ^ k - 1) + 1) with (2 ^ 64) by lia.
    rewrite Z.mod_same by lia. reflexivity.
  - rewrite (Z.mod_small (a + 0 - 1)) by lia.
    rewrite lor_ones by exact Hk.
    rewrite (pred_mod_pow2 k a Hk ltac:(lia)).
    rewrite (Z.mod_small (a - a mod 2 ^ k)) by lia.
    destruct (Z.eqb_spec (a mod 2 ^ k) 0) as [E | E].
    + rewrite E.
      replace (a + 0 - 1 - (2 ^ k - 1) + (2 ^ k - 1) + 1) with a by lia.
      rewrite (Z.mod_small a) by lia.
      replace (a - (a - 0)) with 0 by lia. reflexivity.
    + replace (a + 0 - 1 - (a mod 2 ^ k - 1) + (2 ^ k - 1) + 1)
        with (a - a mod 2 ^ k + 2 ^ k) by lia.
      rewrite (Z.mod_small (a - a mod 2 ^ k + 2 ^ k)) by lia.
      replace (a - a mod 2 ^ k + 2 ^ k - (a - a mod 2 ^ k)) with (2 ^ k) by lia.
      apply Z.mod_small. lia.
Qed.

Lemma mlock_macro_empty_range_witness :
  mlock_length (2 ^ 12) 0x7f0012345678 0 = 4096.
Proof.
  pose proof (mlock_macro_empty_range 12 0x7f0012345678
                ltac:(lia) ltac:(lia) ltac:(lia)) as H.
  exact H.
Defined.

Local Close Scope Z_scope.

(** ** Constructors and the simple lifecycle *)

Lemma block_bytes_mlock (s : process) (blk blk' : block) (n : nat) :
  block_bytes (mlock blk n s) blk' = block_bytes s blk'.
Proof. reflexivity. Qed.

Lemma block_live_mlock (s : process) (blk blk' : block) (n : nat) :
  block_live (mlock blk n s) blk' = block_live s blk'.
Proof. reflexivity. Qed.

Lemma block_bytes_munlock (s : process) (blk blk' : block) (n : nat) :
  block_bytes (munlock blk n s) blk' = block_bytes s blk'.
Proof. reflexivity. Qed.

Lemma block_live_munlock (s : process) (blk blk' : block) (n : nat) :
  block_live (munlock blk n s) blk' = block_live s blk'.
Proof. reflexivity. Qed.

Lemma alloc_nonempty (sz : nat) (s : process) :
  0 < sz ->
  BinaryData_alloc sz s
  = (mkBinaryData (Some (next_block s)) sz, (malloc (replicate sz 0%Z) s).2).
Proof.
  intros Hn. unfold BinaryData_alloc.
  destruct (sz =? 0) eqn:E; [apply Nat.eqb_eq in E; lia | reflexivity].
Qed.

Lemma lockData_nonempty (b : BinaryData) (s : process) (blk : block) :
  getPtr b = Some blk -> 0 < getSize b ->
  SecureBinaryData.lockData b s = (b, mlock blk (getSize b) s).
Proof.
  intros Hp Hn. unfold SecureBinaryData.lockData. rewrite Hp.
  destruct (0 <? getSize b) eqn:E; [reflexivity | apply Nat.ltb_ge in E; lia].
Qed.

Lemma length_constructed_bytes_size (sz : nat) (s : process) :
  length (constructed_bytes (CtorSize sz) s) = sz.
Proof. simpl. apply length_replicate. Qed.

(** Every constructor either has nothing to store and leaves the process
    alone, or stores its bytes in the next block and asks for the lock. *)
Lemma construct_cases (c : constructor) (s : process) :
  (length (constructed_bytes c s) = 0 /\ construct c s = (no_buffer, s)) \/
  (0 < length (constructed_bytes c s) /\
   construct c s
   = (mkBinaryData (Some (next_block s)) (length (constructed_bytes c s)),
      mlock (next_block s) (length (constructed_bytes c s))
            (malloc (constructed_bytes c s) s).2)).
Proof.
  destruct (Nat.eq_dec (length (constructed_bytes c s)) 0) as [Hz | Hnz].
  - left. split; [exact Hz |].
    destruct c as [sz | src | sbd2]; cbn [constructed_bytes construct] in *.
    + rewrite length_replicate in Hz. subst sz. reflexivity.
    + unfold SecureBinaryData.from_bytes, BinaryData_copyFrom. rewrite Hz. reflexivity.
    + unfold SecureBinaryData.copy, BinaryData_copyFrom.
      fold (contents s sbd2). rewrite Hz. reflexivity.
  - right. split; [lia |].
    destruct c as [sz | src | sbd2]; cbn [constructed_bytes construct] in *.
    + assert (Hsz : 0 < sz) by (rewrite length_replicate in Hnz; lia).
      unfold SecureBinaryData.create. rewrite alloc_nonempty by exact Hsz.
      rewrite (lockData_nonempty (mkBinaryData (Some (next_block s)) sz) _
                 (next_block s) eq_refl Hsz).
      cbn [getSize nBytes_]. rewrite length_replicate. reflexivity.
    + unfold SecureBinaryData.from_bytes. rewrite copyFrom_nonempty by lia.
      apply lockData_nonempty; [reflexivity | cbn [getSize nBytes_]; lia].
    + unfold SecureBinaryData.copy. fold (contents s sbd2).
      rewrite copyFrom_nonempty by lia.
      apply lockData_nonempty; [reflexivity | cbn [getSize nBytes_]; lia].
Qed.


(** X3: every constructor of the header ([SecureBinaryData()], by size, or
    copying bytes from a pointer, a [BinaryData], a string, a reference or
    another [SecureBinaryData]) yields a buffer that holds exactly the bytes
    given, all of them, in a block of its own that did not exist before;
    the block is as long as the contents, its whole length is locked when
    the kernel grants [mlock] (for a block inside the address space), and
    the bytes of older blocks are not touched.  With nothing
    to store the constructor allocates nothing, makes no system call and
    leaves the process as it was. *)
Theorem constructors_establish (c : constructor) (s : process) :
  heap_ok s ->
  let b := (construct c s).1 in
  let s1 := (construct c s).2 in
  contents s1 b = constructed_bytes c s /\
  getSize b = length (constructed_bytes c s) /\
  capacity s1 b = getSize b /\
  owns s1 b /\ heap_ok s1 /\
  (forall blk, getPtr b = Some blk ->
     blk = next_block s /\
     (kernel s blk (getSize b) = true -> in_address_space s blk (getSize b) ->
      range_locked s1 blk (getSize b)) /\
     trace s1 = trace s ++ [EvMalloc blk (getSize b);
                            EvMlock blk (getSize b) (kernel s blk (getSize b))]) /\
  (forall blk, blk < next_block s ->
     block_bytes s1 blk = block_bytes s blk /\ block_live s1 blk = block_live s blk) /\
  (constructed_bytes c s = [] -> construct c s = (no_buffer, s)).
Proof.
  intros Hh. cbv zeta.
  destruct (construct_cases c s) as [[Hz Heq] | [Hn Heq]]; rewrite Heq; cbn [fst snd].
  - apply length_zero_iff_nil in Hz. rewrite Hz.
    split; [reflexivity |]. split; [reflexivity |]. split; [reflexivity |].
    split; [reflexivity |]. split; [exact Hh |].
    split; [intros blk Hp; discriminate |].
    split; [intros; split; reflexivity | reflexivity].
  - set (bytes := constructed_bytes c s) in *.
    assert (Hbb : block_bytes (mlock (next_block s) (length bytes) (malloc bytes s).2)
                    (next_block s) = bytes).
    { change (block_bytes (malloc bytes s).2 (next_block s) = bytes).
      apply block_bytes_malloc_eq. }
    split.
    { unfold contents, load. cbn [getPtr getSize data_ nBytes_].
      rewrite Hbb. apply take_ge. lia. }
    split; [reflexivity |].
    split; [unfold capacity; cbn [getPtr getSize data_ nBytes_]; rewrite Hbb; reflexivity |].
    split.
    { unfold owns. cbn [getPtr getSize data_ nBytes_]. rewrite Hbb.
      split; [| lia].
      change (block_live (malloc bytes s).2 (next_block s) = true).
      apply block_live_malloc_eq. }
    split.
    { apply heap_ok_mlock. apply heap_ok_malloc. exact Hh. }
    split.
    { intros blk [= <-]. cbn [getSize nBytes_]. split; [reflexivity |]. split.
      - intros Hg Hin. apply mlock_locks; [exact Hg | exact Hin].
      - simpl. rewrite <- app_assoc. reflexivity. }
    split.
    { intros blk Hlt.
      change (block_bytes (malloc bytes s).2 blk = block_bytes s blk /\
              block_live (malloc bytes s).2 blk = block_live s blk).
      rewrite block_bytes_malloc_ne, block_live_malloc_ne by lia. split; reflexivity. }
    intros Hnil. rewrite Hnil in Hn. simpl in Hn. lia.
Qed.

Lemma constructors_establish_witness :
  contents (construct (CtorCopy secret4.1) secret4.2).2
           (construct (CtorCopy secret4.1) secret4.2).1 = [1; 2; 3; 4]%Z /\
  range_locked (construct (CtorCopy secret4.1) secret4.2).2 1 4.
Proof.
  pose proof (constructors_establish (CtorCopy secret4.1) secret4.2 (proj2 secret4_ok)) as H.
  cbv zeta in H. destruct H as (Hc & _ & _ & _ & _ & Hblk & _).
  split; [rewrite Hc; reflexivity |].
  destruct (Hblk 1 eq_refl) as (_ & Hl & _). apply Hl; [reflexivity |].
  apply sample_in_address_space; [reflexivity | reflexivity | lia | vm_compute; lia].
Defined.

(** X4: a buffer that is constructed and then destructed, with nothing in
    between, leaves a freed block of zeros and the pages it lay on
    unlocked.  The calls are malloc, mlock, munlock, free in this order;
    every byte of the block is zero when it is released and the bytes of
    older blocks are as they were.  The pages of the block end up unlocked
    whether the [mlock] was granted or not, and whether or not they were
    locked before for another buffer; all other pages are as they were. *)
Theorem construct_then_destruct (c : constructor) (s : process) :
  heap_ok s ->
  let b := (construct c s).1 in
  let s2 := SecureBinaryData.dtor b (construct c s).2 in
  (forall blk, getPtr b = Some blk ->
     locked s2 = locked s ∖ macro_pages s blk (getSize b) /\
     (in_address_space s blk (getSize b) ->
      forall blk' j i, i < getSize b ->
        page_of (PAGESIZE s) (place s blk' + Z.of_nat j)
        = page_of (PAGESIZE s) (place s blk + Z.of_nat i) ->
        ~ byte_locked s2 blk' j)) /\
  (forall blk, getPtr b = Some blk ->
     block_live s2 blk = false /\
     block_bytes s2 blk = replicate (length (constructed_bytes c s)) 0%Z /\
     trace s2 = trace s ++ [EvMalloc blk (getSize b);
                            EvMlock blk (getSize b) (kernel s blk (getSize b));
                            EvMunlock blk (getSize b); EvFree blk]) /\
  (forall blk, blk < next_block s ->
     block_bytes s2 blk = block_bytes s blk /\ block_live s2 blk = block_live s blk) /\
  (getPtr b = None -> s2 = s).
Proof.
  intros Hh. cbv zeta.
  destruct (construct_cases c s) as [[Hz Heq] | [Hn Heq]]; rewrite Heq; cbn [fst snd].
  - change (SecureBinaryData.dtor no_buffer s) with s.
    split; [intros blk Hp; discriminate |]. split; [intros blk Hp; discriminate |].
    split; [intros; split; reflexivity | reflexivity].
  - set (bytes := constructed_bytes c s) in *.
    set (b := mkBinaryData (Some (next_block s)) (length bytes)).
    rewrite (dtor_nonempty _ b (next_block s) eq_refl Hn).
    cbn [getSize nBytes_ b].
    assert (Hlive : block_live (malloc bytes s).2 (next_block s) = true)
      by apply block_live_malloc_eq.
    assert (Hbytes : block_bytes
                       (memset (next_block s) 0%Z (length bytes)
                          (mlock (next_block s) (length bytes) (malloc bytes s).2))
                       (next_block s) = replicate (length bytes) 0%Z).
    { unfold memset. rewrite block_bytes_update_eq
        by (apply block_live_is_Some; exact Hlive).
      change (block_bytes (mlock (next_block s) (length bytes) (malloc bytes s).2)
                          (next_block s))
        with (block_bytes (malloc bytes s).2 (next_block s)).
      rewrite block_bytes_malloc_eq, drop_all, app_nil_r. reflexivity. }
    assert (Hlocked : locked (free (next_block s)
                        (munlock (next_block s) (length bytes)
                           (memset (next_block s) 0%Z (length bytes)
                              (mlock (next_block s) (length bytes) (malloc bytes s).2))))
                      = locked s ∖ macro_pages s (next_block s) (length bytes)).
    { apply (locked_after_lock_unlock (kernel s (next_block s) (length bytes))
               (locked s) (macro_pages s (next_block s) (length bytes))). }
    split.
    { intros blk [= <-]. split; [exact Hlocked |].
      intros Hin blk' j i Hi Hpage Hl. unfold byte_locked in Hl.
      rewrite Hlocked in Hl.
      change (PAGESIZE (free _ _)) with (PAGESIZE s) in Hl.
      change (place (free _ _) blk') with (place s blk') in Hl.
      apply elem_of_difference in Hl as [_ Hnot]. apply Hnot.
      rewrite Hpage. apply macro_pages_covers; assumption. }
    split.
    { intros blk [= <-]. split; [apply block_live_free_eq |].
      split; [rewrite block_bytes_free; exact Hbytes |].
      simpl. rewrite <- !app_assoc. reflexivity. }
    split; [| intros Hp; discriminate].
    intros blk Hlt. rewrite block_bytes_free, block_live_free_ne by lia.
    rewrite block_bytes_munlock, block_live_munlock.
    unfold memset. rewrite block_bytes_update_ne, block_live_update by lia.
    rewrite block_bytes_mlock, block_live_mlock.
    rewrite block_bytes_malloc_ne, block_live_malloc_ne by lia. split; reflexivity.
Qed.

Lemma construct_then_destruct_witness :
  range_locked secret4.2 0 4 /\
  block_live (SecureBinaryData.dtor (construct (CtorBytes [5; 6; 7]%Z) secret4.2).1
                (construct (CtorBytes [5; 6; 7]%Z) secret4.2).2) 0 = true /\
  ~ byte_locked (SecureBinaryData.dtor (construct (CtorBytes [5; 6; 7]%Z) secret4.2).1
                   (construct (CtorBytes [5; 6; 7]%Z) secret4.2).2) 0 0.
Proof.
  pose proof (construct_then_destruct (CtorBytes [5; 6; 7]%Z) secret4.2
                (proj2 secret4_ok)) as H.
  cbv zeta in H. destruct H as (Hl & _).
  destruct (Hl 1 eq_refl) as [_ Hun].
  split.
  { intros i Hi.
    assert (Hc : i = 0 \/ i = 1 \/ i = 2 \/ i = 3) by lia.
    destruct Hc as [-> | [-> | [-> | ->]]]; vm_compute; set_solver. }
  split; [reflexivity |].
  apply (Hun ltac:(apply sample_in_address_space;
                   [reflexivity | reflexivity | lia | vm_compute; lia]) 0 0 0).
  - vm_compute. lia.
  - reflexivity.
Defined.

(** ** Wiping twice, and wiping after shrinking *)

Lemma memset_twice (s : process) (blk : block) (z : Z) (n : nat) :
  heap (memset blk z n (memset blk z n s)) = heap (memset blk z n s).
Proof.
  unfold memset, update_bytes; simpl. apply alter_id. intros x Hx.
  rewrite lookup_alter_eq in Hx. destruct (heap s !! blk) as [st |]; [| discriminate].
  simpl in Hx. apply (inj Some) in Hx. subst x. simpl. f_equal.
  rewrite drop_app_length' by (rewrite length_replicate; reflexivity). reflexivity.
Qed.

Lemma heap_free (s1 s2 : process) (blk : block) :
  heap s1 = heap s2 -> heap (free blk s1) = heap (free blk s2).
Proof. intros H. unfold free; simpl. rewrite H. reflexivity. Qed.

Lemma heap_memset (s1 s2 : process) (blk : block) (z : Z) (n : nat) :
  heap s1 = heap s2 -> heap (memset blk z n s1) = heap (memset blk z n s2).
Proof. intros H. unfold memset, update_bytes; simpl. rewrite H. reflexivity. Qed.

(** X5: calling [destroy()] by hand before the destructor runs is harmless
    and gains nothing: [destroy()] keeps the pointer and the length, a
    second [destroy()] changes neither a byte nor the set of locked pages,
    and the destructor after an explicit [destroy()] leaves the same heap
    and the same set of locked pages as the destructor alone. *)
Theorem destroy_before_dtor (s : process) (b : BinaryData) :
  owns s b ->
  let s1 := (SecureBinaryData.destroy b s).2 in
  (SecureBinaryData.destroy b s).1 = b /\
  owns s1 b /\
  heap (SecureBinaryData.destroy b s1).2 = heap s1 /\
  locked (SecureBinaryData.destroy b s1).2 = locked s1 /\
  heap (SecureBinaryData.dtor b s1) = heap (SecureBinaryData.dtor b s) /\
  locked (SecureBinaryData.dtor b s1) = locked (SecureBinaryData.dtor b s).
Proof.
  intros Ho. cbv zeta.
  destruct (Nat.eq_dec (getSize b) 0) as [Hz | Hnz].
  { rewrite !(destroy_empty s b Hz). cbn [fst snd].
    rewrite !(destroy_empty s b Hz). cbn [fst snd]. repeat split; auto. }
  destruct (owns_ptr s b Ho ltac:(lia)) as [blk Hp].
  assert (Hn : 0 < getSize b) by lia.
  destruct (owns_live s b blk Ho Hp) as [Hlive Hsz].
  rewrite !(destroy_nonempty s b blk Hp Hn). cbn [fst snd].
  set (s1 := munlock blk (getSize b) (memset blk 0%Z (getSize b) s)).
  rewrite (destroy_nonempty s1 b blk Hp Hn). cbn [fst snd].
  rewrite (dtor_nonempty s1 b blk Hp Hn), (dtor_nonempty s b blk Hp Hn).
  fold s1.
  assert (Hheap : heap (memset blk 0%Z (getSize b) s1) = heap s1).
  { subst s1. apply (memset_twice s blk 0%Z (getSize b)). }
  split; [reflexivity |]. split.
  { unfold owns. rewrite Hp. subst s1.
    rewrite block_live_munlock, block_bytes_munlock. unfold memset.
    rewrite block_live_update.
    rewrite block_bytes_update_eq by (apply block_live_is_Some; exact Hlive).
    split; [exact Hlive |].
    rewrite length_app, length_replicate, length_drop. lia. }
  split; [exact Hheap |].
  assert (Hlocked : locked (munlock blk (getSize b) (memset blk 0%Z (getSize b) s1))
                    = locked s1).
  { subst s1.
    apply (difference_twice (locked s) (macro_pages s blk (getSize b))). }
  split; [exact Hlocked |].
  split.
  - apply heap_free. exact Hheap.
  - exact Hlocked.
Qed.

Lemma destroy_before_dtor_witness :
  heap (SecureBinaryData.dtor secret4.1 (SecureBinaryData.destroy secret4.1 secret4.2).2)
  = heap (SecureBinaryData.dtor secret4.1 secret4.2).
Proof.
  pose proof (destroy_before_dtor secret4.2 secret4.1 (proj1 secret4_ok)) as H.
  cbv zeta in H. exact (proj1 (proj2 (proj2 (proj2 (proj2 H))))).
Defined.

Lemma resize_shrink (n : nat) (s : process) (b : BinaryData) (blk : block) :
  owns s b -> getPtr b = Some blk -> n <= getSize b ->
  BinaryData_resize n b s = (mkBinaryData (Some blk) n, s).
Proof.
  intros Ho Hp Hn. destruct (owns_live s b blk Ho Hp) as [_ Hsz].
  unfold BinaryData_resize. rewrite Hp.
  destruct (n <=? length (block_bytes s blk)) eqn:E1;
    [| apply Nat.leb_gt in E1; lia].
  destruct (n <=? getSize b) eqn:E2; [reflexivity | apply Nat.leb_gt in E2; lia].
Qed.

(** X6: shrinking before destruction takes bytes out of reach of the wipe,
    not of the unlock.  After [resize(n)] with [n] at most the length, the
    buffer stays in its block, and its destructor zeroes the first [n]
    bytes only: the released block still holds the rest of the old
    contents.  The [munlock] is made for the first [n] bytes and unlocks
    their pages: a byte from [n] on that shares a page with one of them is
    left unwiped and unlocked.  With [n = 0] nothing is wiped and no
    [munlock] is made. *)
Theorem shrink_then_dtor (n : nat) (s : process) (b : BinaryData) (blk : block) :
  owns s b -> getPtr b = Some blk -> n <= getSize b ->
  let b1 := (SecureBinaryData.resize n b s).1 in
  let s2 := SecureBinaryData.dtor b1 (SecureBinaryData.resize n b s).2 in
  b1 = mkBinaryData (Some blk) n /\
  block_live s2 blk = false /\
  block_bytes s2 blk = replicate n 0%Z ++ drop n (block_bytes s blk) /\
  take (getSize b - n) (drop n (block_bytes s2 blk)) = drop n (contents s b) /\
  locked s2 = (if n =? 0 then locked s else locked s ∖ macro_pages s blk n) /\
  (in_address_space s blk n -> forall i j, j < n ->
     page_of (PAGESIZE s) (place s blk + Z.of_nat i)
     = page_of (PAGESIZE s) (place s blk + Z.of_nat j) ->
     ~ byte_locked s2 blk i).
Proof.
  intros Ho Hp Hn. cbv zeta.
  destruct (owns_live s b blk Ho Hp) as [Hlive Hsz].
  unfold SecureBinaryData.resize. rewrite (resize_shrink n s b blk Ho Hp Hn).
  set (b1 := mkBinaryData (Some blk) n).
  assert (Htail : take (getSize b - n)
                    (drop n (replicate n 0%Z ++ drop n (block_bytes s blk)))
                  = drop n (contents s b)).
  { unfold contents, load. rewrite Hp.
    rewrite drop_app_length' by (rewrite length_replicate; reflexivity).
    rewrite take_drop_commute. f_equal. f_equal. lia. }
  destruct (Nat.eq_dec n 0) as [-> | Hnz].
  - rewrite (lockData_empty s b1 eq_refl). cbn [fst snd].
    unfold SecureBinaryData.dtor. rewrite (destroy_empty s b1 eq_refl).
    unfold BinaryData_dtor. cbn [getPtr data_ b1].
    split; [reflexivity |]. split; [apply block_live_free_eq |].
    rewrite block_bytes_free. split; [reflexivity |].
    split; [exact Htail |].
    split; [reflexivity |]. intros _ i j Hj. lia.
  - assert (Hpos : 0 < getSize b1) by (simpl; lia).
    rewrite (lockData_nonempty b1 s blk eq_refl Hpos). cbn [fst snd].
    rewrite (dtor_nonempty _ b1 blk eq_refl Hpos). cbn [getSize nBytes_ b1].
    assert (Hb : block_bytes
                   (free blk (munlock blk n (memset blk 0%Z n (mlock blk n s)))) blk
                 = replicate n 0%Z ++ drop n (block_bytes s blk)).
    { rewrite block_bytes_free, block_bytes_munlock. unfold memset.
      rewrite block_bytes_update_eq
        by (rewrite <- (block_live_mlock s blk blk n) in Hlive;
            apply block_live_is_Some; exact Hlive).
      rewrite block_bytes_mlock. reflexivity. }
    split; [reflexivity |]. split; [apply block_live_free_eq |].
    split; [exact Hb |]. split; [rewrite Hb; exact Htail |].
    assert (Hlocked : locked (free blk (munlock blk n (memset blk 0%Z n (mlock blk n s))))
                      = locked s ∖ macro_pages s blk n).
    { apply (locked_after_lock_unlock (kernel s blk n) (locked s)
               (macro_pages s blk n)). }
    split.
    + destruct (n =? 0) eqn:E; [apply Nat.eqb_eq in E; lia | exact Hlocked].
    + intros Hin i j Hj Hpage Hl. unfold byte_locked in Hl.
      rewrite Hlocked in Hl.
      change (PAGESIZE (free _ _)) with (PAGESIZE s) in Hl.
      change (place (free _ _) blk) with (place s blk) in Hl.
      apply elem_of_difference in Hl as [_ Hnot]. apply Hnot.
      rewrite Hpage. apply macro_pages_covers; assumption.
Qed.

Lemma shrink_then_dtor_witness :
  block_bytes (SecureBinaryData.dtor shrunk_secret.1 shrunk_secret.2) 0
  = [0; 0; 3; 4]%Z /\
  ~ byte_locked (SecureBinaryData.dtor shrunk_secret.1 shrunk_secret.2) 0 2.
Proof.
  pose proof (shrink_then_dtor 2 secret4.2 secret4.1 0
                (proj1 secret4_ok) eq_refl ltac:(vm_compute; lia)) as H.
  cbv zeta in H. destruct H as (_ & _ & Hb & _ & _ & Hun).
  split; [exact Hb |].
  apply (Hun ltac:(apply sample_in_address_space;
                   [reflexivity | reflexivity | lia | lia]) 2 0);
    [lia | reflexivity].
Defined.

(** X12: the destructor of one buffer takes the lock off its neighbours.
    [destroy()] unlocks the pages its [munlock] names and no others; for a
    buffer inside the address space these are the pages its bytes lie on,
    so every byte of any block on one of those pages, live secrets of other
    buffers included, is unlocked when the destructor returns. *)
Theorem dtor_unlocks_neighbours (s : process) (b : BinaryData) (blk : block) :
  owns s b -> getPtr b = Some blk -> 0 < getSize b ->
  let s2 := SecureBinaryData.dtor b s in
  locked s2 = locked s ∖ macro_pages s blk (getSize b) /\
  (forall blk', blk' <> blk ->
     block_live s2 blk' = block_live s blk' /\
     block_bytes s2 blk' = block_bytes s blk') /\
  (in_address_space s blk (getSize b) ->
   forall blk' j i, i < getSize b ->
     page_of (PAGESIZE s) (place s blk' + Z.of_nat j)
     = page_of (PAGESIZE s) (place s blk + Z.of_nat i) ->
     ~ byte_locked s2 blk' j) /\
  (in_address_space s blk (getSize b) ->
   forall blk' j,
     (forall i, i < getSize b ->
        page_of (PAGESIZE s) (place s blk' + Z.of_nat j)
        <> page_of (PAGESIZE s) (place s blk + Z.of_nat i)) ->
     (byte_locked s2 blk' j <-> byte_locked s blk' j)).
Proof.
  intros Ho Hp Hn. cbv zeta.
  rewrite (dtor_nonempty s b blk Hp Hn).
  assert (Hlocked : locked (free blk (munlock blk (getSize b)
                                        (memset blk 0%Z (getSize b) s)))
                    = locked s ∖ macro_pages s blk (getSize b)) by reflexivity.
  split; [exact Hlocked |]. split.
  { intros blk' Hne.
    rewrite block_live_free_ne, block_bytes_free by auto.
    rewrite block_live_munlock, block_bytes_munlock. unfold memset.
    rewrite block_live_update, block_bytes_update_ne by auto.
    split; reflexivity. }
  split.
  - intros Hin blk' j i Hi Hpage Hl. unfold byte_locked in Hl.
    rewrite Hlocked in Hl.
    change (PAGESIZE (free _ _)) with (PAGESIZE s) in Hl.
    change (place (free _ _) blk') with (place s blk') in Hl.
    apply elem_of_difference in Hl as [_ Hnot]. apply Hnot.
    rewrite Hpage. apply macro_pages_covers; assumption.
  - intros Hin blk' j Hother. unfold byte_locked. rewrite Hlocked.
    change (PAGESIZE (free _ _)) with (PAGESIZE s).
    change (place (free _ _) blk') with (place s blk').
    rewrite elem_of_difference. split; [tauto |].
    intros Hl. split; [exact Hl |]. intros Hq.
    destruct (macro_pages_only s blk (getSize b) _ Hin Hn Hq) as (i & Hi & Hpage).
    apply (Hother i Hi). symmetry. exact Hpage.
Qed.

Lemma dtor_unlocks_neighbours_witness :
  range_locked (SecureBinaryData.copy secret4.1 secret4.2).2 0 4 /\
  block_live (SecureBinaryData.dtor (SecureBinaryData.copy secret4.1 secret4.2).1
                (SecureBinaryData.copy secret4.1 secret4.2).2) 0 = true /\
  ~ byte_locked (SecureBinaryData.dtor (SecureBinaryData.copy secret4.1 secret4.2).1
                   (SecureBinaryData.copy secret4.1 secret4.2).2) 0 0.
Proof.
  assert (Ho : owns (SecureBinaryData.copy secret4.1 secret4.2).2
                    (SecureBinaryData.copy secret4.1 secret4.2).1).
  { apply (step_ok_copy secret4.1 secret4.2 (owns_no_buffer _) (proj2 secret4_ok)). }
  pose proof (dtor_unlocks_neighbours _ _ 1 Ho eq_refl ltac:(vm_compute; lia)) as H.
  cbv zeta in H. destruct H as (_ & _ & Hun & _).
  split.
  { intros i Hi.
    assert (Hc : i = 0 \/ i = 1 \/ i = 2 \/ i = 3) by lia.
    destruct Hc as [-> | [-> | [-> | ->]]]; vm_compute; set_solver. }
  split; [reflexivity |].
  apply (Hun ltac:(apply sample_in_address_space;
                   [reflexivity | reflexivity | lia | vm_compute; lia]) 0 0 0).
  - vm_compute. lia.
  - reflexivity.
Defined.

(** ** What a change of size or capacity does to the data *)

Lemma contents_heap (s1 s2 : process) (b : BinaryData) :
  heap s1 = heap s2 -> contents s1 b = contents s2 b.
Proof.
  intros H. unfold contents, load, block_bytes. rewrite H. reflexivity.
Qed.

Lemma capacity_heap (s1 s2 : process) (b : BinaryData) :
  heap s1 = heap s2 -> capacity s1 b = capacity s2 b.
Proof.
  intros H. unfold capacity, block_bytes. rewrite H. reflexivity.
Qed.

Lemma take_grown (n sz : nat) (old rest : list Z) :
  n <= length old -> n <= sz ->
  take sz (take n old ++ replicate (sz - n) 0%Z ++ rest)
  = take n old ++ replicate (sz - n) 0%Z.
Proof.
  intros Hn Hsz.
  rewrite app_assoc. apply take_app_length'.
  rewrite length_app, length_take, length_replicate. lia.
Qed.

Lemma BinaryData_resize_grow (sz : nat) (s : process) (b : BinaryData) (blk : block) :
  getPtr b = Some blk -> getSize b < sz -> sz <= length (block_bytes s blk) ->
  BinaryData_resize sz b s
  = (mkBinaryData (Some blk) sz,
     update_bytes blk (fun old => take (getSize b) old
                                    ++ replicate (sz - getSize b) 0%Z
                                    ++ drop sz old) s).
Proof.
  intros Hp Hn Hcap. unfold BinaryData_resize. rewrite Hp.
  destruct (sz <=? length (block_bytes s blk)) eqn:E1;
    [| apply Nat.leb_gt in E1; lia].
  destruct (sz <=? getSize b) eqn:E2; [apply Nat.leb_le in E2; lia | reflexivity].
Qed.

Lemma BinaryData_resize_move (sz : nat) (s : process) (b : BinaryData) (blk : block) :
  getPtr b = Some blk -> length (block_bytes s blk) < sz ->
  BinaryData_resize sz b s
  = (mkBinaryData (Some (next_block s)) sz,
     free blk (malloc (take (getSize b) (block_bytes s blk)
                         ++ replicate (sz - getSize b) 0%Z
                         ++ replicate (Nat.max sz (2 * length (block_bytes s blk)) - sz)
                              indeterminate) s).2).
Proof.
  intros Hp Hcap. unfold BinaryData_resize. rewrite Hp.
  destruct (sz <=? length (block_bytes s blk)) eqn:E1;
    [apply Nat.leb_le in E1; lia | reflexivity].
Qed.

Lemma BinaryData_resize_first (sz : nat) (s : process) (b : BinaryData) :
  getPtr b = None -> sz <> 0 ->
  BinaryData_resize sz b s
  = (mkBinaryData (Some (next_block s)) sz, (malloc (replicate sz 0%Z) s).2).
Proof.
  intros Hp Hsz. unfold BinaryData_resize. rewrite Hp.
  destruct (sz =? 0) eqn:E; [apply Nat.eqb_eq in E; lia | reflexivity].
Qed.

Lemma BinaryData_reserve_move (sz : nat) (s : process) (b : BinaryData) (blk : block) :
  getPtr b = Some blk -> length (block_bytes s blk) < sz ->
  BinaryData_reserve sz b s
  = (mkBinaryData (Some (next_block s)) (getSize b),
     free blk (malloc (take (getSize b) (block_bytes s blk)
                         ++ replicate (sz - getSize b) indeterminate) s).2).
Proof.
  intros Hp Hcap. unfold BinaryData_reserve. rewrite Hp.
  destruct (sz <=? length (block_bytes s blk)) eqn:E1;
    [apply Nat.leb_le in E1; lia | reflexivity].
Qed.

Lemma BinaryData_reserve_first (sz : nat) (s : process) (b : BinaryData) :
  getPtr b = None -> sz <> 0 ->
  BinaryData_reserve sz b s
  = (mkBinaryData (Some (next_block s)) (getSize b),
     (malloc (replicate sz indeterminate) s).2).
Proof.
  intros Hp Hsz. unfold BinaryData_reserve. rewrite Hp.
  destruct (sz =? 0) eqn:E; [apply Nat.eqb_eq in E; lia | reflexivity].
Qed.

Lemma BinaryData_resize_data (sz : nat) (s : process) (b : BinaryData) :
  owns s b ->
  let r := BinaryData_resize sz b s in
  getSize r.1 = sz /\
  contents r.2 r.1 = take sz (contents s b) ++ replicate (sz - getSize b) 0%Z /\
  capacity s b <= capacity r.2 r.1.
Proof.
  intros Ho. cbv zeta.
  destruct (getPtr b) as [blk |] eqn:Hp.
  - destruct (owns_live s b blk Ho Hp) as [Hlive Hcap].
    destruct (le_lt_dec sz (length (block_bytes s blk))) as [E1 | E1].
    + destruct (le_lt_dec sz (getSize b)) as [E2 | E2].
      * rewrite (resize_shrink sz s b blk Ho Hp E2).
        unfold contents, capacity, load. rewrite Hp.
        cbn [fst snd getPtr getSize data_ nBytes_].
        split; [reflexivity |]. split; [| lia].
        rewrite take_take, Nat.min_l by exact E2.
        assert (Hz : sz - getSize b = 0) by lia.
        rewrite Hz. simpl. rewrite app_nil_r. reflexivity.
      * rewrite (BinaryData_resize_grow sz s b blk Hp E2 E1).
        unfold contents, capacity, load. rewrite Hp.
        cbn [fst snd getPtr getSize data_ nBytes_].
        rewrite block_bytes_update_eq by (apply block_live_is_Some; exact Hlive).
        split; [reflexivity |]. split.
        -- rewrite take_take, Nat.min_r by lia.
           apply take_grown; lia.
        -- rewrite !length_app, length_take, !length_replicate, length_drop.
           lia.
    + rewrite (BinaryData_resize_move sz s b blk Hp E1).
      unfold contents, capacity, load. rewrite Hp.
      cbn [fst snd getPtr getSize data_ nBytes_].
      rewrite block_bytes_free, block_bytes_malloc_eq.
      split; [reflexivity |]. split.
      * rewrite take_take, Nat.min_r by lia.
        apply take_grown; lia.
      * rewrite !length_app, length_take, !length_replicate. lia.
  - assert (Hz : getSize b = 0) by (unfold owns in Ho; rewrite Hp in Ho; exact Ho).
    destruct (Nat.eq_dec sz 0) as [-> | Hsz].
    + unfold BinaryData_resize. rewrite Hp. cbn [Nat.eqb fst snd].
      unfold contents, capacity, load. rewrite Hp.
      split; [exact Hz |]. split; [reflexivity | lia].
    + rewrite (BinaryData_resize_first sz s b Hp Hsz).
      unfold contents, capacity, load. rewrite Hp, Hz.
      cbn [fst snd getPtr getSize data_ nBytes_].
      rewrite block_bytes_malloc_eq, Nat.sub_0_r.
      split; [reflexivity |]. split; [| lia].
      rewrite take_nil. simpl.
      rewrite take_ge by (rewrite length_replicate; lia). reflexivity.
Qed.

Lemma BinaryData_reserve_data (sz : nat) (s : process) (b : BinaryData) :
  owns s b ->
  let r := BinaryData_reserve sz b s in
  getSize r.1 = getSize b /\
  contents r.2 r.1 = contents s b /\
  sz <= capacity r.2 r.1 /\
  capacity s b <= capacity r.2 r.1.
Proof.
  intros Ho. cbv zeta.
  destruct (getPtr b) as [blk |] eqn:Hp.
  - destruct (owns_live s b blk Ho Hp) as [Hlive Hcap].
    destruct (le_lt_dec sz (length (block_bytes s blk))) as [E1 | E1].
    + assert (E : BinaryData_reserve sz b s = (b, s)).
      { unfold BinaryData_reserve. rewrite Hp.
        destruct (sz <=? length (block_bytes s blk)) eqn:E;
          [reflexivity | apply Nat.leb_gt in E; lia]. }
      rewrite E. unfold contents, capacity, load. cbn [fst snd]. rewrite Hp.
      repeat split; try reflexivity; lia.
    + rewrite (BinaryData_reserve_move sz s b blk Hp E1).
      unfold contents, capacity, load. rewrite Hp.
      cbn [fst snd getPtr getSize data_ nBytes_].
      rewrite block_bytes_free, block_bytes_malloc_eq.
      split; [reflexivity |]. split.
      * apply take_app_length'. rewrite length_take. lia.
      * rewrite length_app, length_take, length_replicate.
        lia.
  - assert (Hz : getSize b = 0) by (unfold owns in Ho; rewrite Hp in Ho; exact Ho).
    destruct (Nat.eq_dec sz 0) as [-> | Hsz].
    + unfold BinaryData_reserve. rewrite Hp. cbn [Nat.eqb fst snd].
      unfold contents, capacity, load. rewrite Hp.
      repeat split; try reflexivity; lia.
    + rewrite (BinaryData_reserve_first sz s b Hp Hsz).
      unfold contents, capacity, load. rewrite Hp, Hz.
      cbn [fst snd getPtr getSize data_ nBytes_].
      rewrite block_bytes_malloc_eq, length_replicate.
      repeat split; try reflexivity; lia.
Qed.

(** X8: the locking wrappers keep what the base operations do to the data.
    [resize(n)] gives a buffer of length [n] whose bytes are the first [n]
    old bytes followed by zeros; [reserve(n)] keeps the length and every
    byte; after either the capacity is at least [n] and never less than it
    was. *)
Theorem capacity_change_keeps_data (ch : capacity_change) (s : process) (b : BinaryData) :
  owns s b ->
  let b1 := (change_capacity ch b s).1 in
  let s1 := (change_capacity ch b s).2 in
  match ch with
  | Resize n =>
      getSize b1 = n /\
      contents s1 b1 = take n (contents s b) ++ replicate (n - getSize b) 0%Z /\
      n <= capacity s1 b1
  | Reserve n =>
      getSize b1 = getSize b /\ contents s1 b1 = contents s b /\
      n <= capacity s1 b1
  end /\
  capacity s b <= capacity s1 b1.
Proof.
  intros Ho. cbv zeta. destruct ch as [n | n]; cbn [change_capacity].
  - unfold SecureBinaryData.resize.
    pose proof (BinaryData_resize_data n s b Ho) as H. cbv zeta in H.
    pose proof (step_ok_BinaryData_resize n b s) as Hstep.
    destruct (BinaryData_resize n b s) as [b0 s0]. cbn [fst snd] in H.
    destruct H as (Hsz & Hc & Hcap).
    destruct (lockData_spec b0 s0) as (Hb & Hheap & _).
    rewrite Hb, (contents_heap _ s0 b0 Hheap), (capacity_heap _ s0 b0 Hheap).
    split; [| exact Hcap]. split; [exact Hsz |]. split; [exact Hc |].
    assert (Hlen : length (contents s0 b0) = n).
    { rewrite Hc, length_app, length_take, length_replicate.
      rewrite (length_contents s b Ho). lia. }
    unfold contents, load, capacity in *. destruct (getPtr b0).
    + rewrite length_take in Hlen. lia.
    + simpl in Hlen. lia.
  - unfold SecureBinaryData.reserve.
    pose proof (BinaryData_reserve_data n s b Ho) as H. cbv zeta in H.
    destruct (BinaryData_reserve n b s) as [b0 s0]. cbn [fst snd] in H.
    destruct H as (Hsz & Hc & Hn & Hcap).
    destruct (lockData_spec b0 s0) as (Hb & Hheap & _).
    rewrite Hb, (contents_heap _ s0 b0 Hheap), (capacity_heap _ s0 b0 Hheap).
    repeat split; assumption.
Qed.

Lemma capacity_change_keeps_data_witness :
  contents grown_secret.2 grown_secret.1 = [1; 2; 3; 4; 0; 0; 0; 0]%Z.
Proof.
  pose proof (capacity_change_keeps_data (Resize 8) secret4.2 secret4.1
                (proj1 secret4_ok)) as H.
  cbv zeta in H. destruct H as [(_ & Hc & _) _]. exact Hc.
Defined.

(** ** References into a buffer *)

Lemma block_bytes_heap (s1 s2 : process) (blk : block) :
  heap s1 = heap s2 -> block_bytes s1 blk = block_bytes s2 blk.
Proof. intros H. unfold block_bytes. rewrite H. reflexivity. Qed.

Lemma block_live_heap (s1 s2 : process) (blk : block) :
  heap s1 = heap s2 -> block_live s1 blk = block_live s2 blk.
Proof. intros H. unfold block_live. rewrite H. reflexivity. Qed.

(** X7: [getRawRef()] is a view, not a copy.  What is read through the
    reference follows every later write to the buffer: after [fill] it shows
    the fill byte, after the destructor it shows zeros in a block that is
    no longer allocated.  After a [resize] beyond the capacity the buffer
    lives elsewhere, and the reference points into the released block,
    which still holds the old contents. *)
Theorem getRawRef_is_a_view (s : process) (b : BinaryData) (blk : block) :
  owns s b -> heap_ok s -> getPtr b = Some blk ->
  let r := SecureBinaryData.getRawRef b in
  read_ref r s = contents s b /\
  (forall ch, read_ref r (BinaryData_fill ch b s).2 = replicate (getSize b) (uint8 ch)) /\
  read_ref r (SecureBinaryData.dtor b s) = replicate (getSize b) 0%Z /\
  block_live (SecureBinaryData.dtor b s) blk = false /\
  (forall sz, capacity s b < sz ->
     getPtr (SecureBinaryData.resize sz b s).1 <> Some blk /\
     block_live (SecureBinaryData.resize sz b s).2 blk = false /\
     read_ref r (SecureBinaryData.resize sz b s).2 = contents s b).
Proof.
  intros Ho Hh Hp. cbv zeta.
  destruct (owns_live s b blk Ho Hp) as [Hlive Hcap].
  pose proof (owns_lt s b blk Ho Hh Hp) as Hlt.
  unfold read_ref, SecureBinaryData.getRawRef. cbn [fst snd]. fold (contents s b).
  split; [reflexivity |]. split.
  { intros ch. unfold BinaryData_fill. rewrite Hp.
    destruct (0 <? getSize b) eqn:E; cbn [fst snd]; unfold load.
    - unfold memset.
      rewrite block_bytes_update_eq by (apply block_live_is_Some; exact Hlive).
      apply take_replicate_app.
    - apply Nat.ltb_ge in E. assert (Hz : getSize b = 0) by lia.
      rewrite Hz. reflexivity. }
  assert (Hd : load (Some blk) (getSize b) (SecureBinaryData.dtor b s)
               = replicate (getSize b) 0%Z /\
               block_live (SecureBinaryData.dtor b s) blk = false).
  { destruct (Nat.eq_dec (getSize b) 0) as [Hz | Hnz].
    - unfold SecureBinaryData.dtor. rewrite (destroy_empty s b Hz).
      unfold BinaryData_dtor. rewrite Hp, Hz.
      split; [reflexivity | apply block_live_free_eq].
    - destruct (dtor_wipes s b blk Ho Hp ltac:(lia)) as (_ & _ & _ & Hdead & Hz & _).
      split; [exact Hz | exact Hdead]. }
  rewrite Hp. split; [exact (proj1 Hd) |]. split; [exact (proj2 Hd) |].
  intros sz Hsz. unfold capacity in Hsz. rewrite Hp in Hsz.
  unfold SecureBinaryData.resize.
  rewrite (BinaryData_resize_move sz s b blk Hp Hsz).
  match goal with
  | |- context [SecureBinaryData.lockData ?b1 ?s1] =>
      destruct (lockData_spec b1 s1) as (Hb & Hheap & _);
      rewrite Hb, (block_live_heap _ s1 blk Hheap);
      unfold load; rewrite (block_bytes_heap _ s1 blk Hheap)
  end.
  cbn [getPtr data_].
  split; [intros [= Heq]; lia |].
  split; [apply block_live_free_eq |].
  rewrite block_bytes_free, block_bytes_malloc_ne by lia.
  unfold contents, load. rewrite Hp. reflexivity.
Qed.

Lemma getRawRef_is_a_view_witness :
  read_ref (SecureBinaryData.getRawRef secret4.1) (SecureBinaryData.dtor secret4.1 secret4.2)
  = [0; 0; 0; 0]%Z.
Proof.
  pose proof (getRawRef_is_a_view secret4.2 secret4.1 0
                (proj1 secret4_ok) (proj2 secret4_ok) eq_refl) as H.
  cbv zeta in H. exact (proj1 (proj2 (proj2 H))).
Defined.

(** ** The whole life of a buffer *)

Lemma tidy_stay (b b' : BinaryData) (s s' : process) :
  getPtr b' = getPtr b ->
  (forall x, block_live s' x = block_live s x) ->
  tidy b s (b', s').
Proof.
  intros Hp Hl _ _ blk Hlive. cbn [fst snd] in *. rewrite Hp.
  destruct (decide (getPtr b = Some blk)) as [Heq | Hne]; [left; exact Heq |].
  right. rewrite <- Hl. split; assumption.
Qed.

Lemma tidy_refl (b : BinaryData) (s : process) : tidy b s (b, s).
Proof. apply tidy_stay; reflexivity. Qed.

Lemma tidy_trans (b : BinaryData) (s : process) (r1 r2 : BinaryData * process) :
  step_ok b s r1 -> tidy b s r1 -> tidy r1.1 r1.2 r2 -> tidy b s r2.
Proof.
  intros Hstep H1 H2 Ho Hh blk Hlive.
  destruct (Hstep Ho Hh) as (Ho1 & Hh1 & _).
  destruct (H2 Ho1 Hh1 blk Hlive) as [Hp | [Hlive1 Hne1]]; [left; exact Hp |].
  destruct (H1 Ho Hh blk Hlive1) as [Hp | Hr]; [contradiction | right; exact Hr].
Qed.

Lemma tidy_move (b : BinaryData) (s : process) (blk : block) (init : list Z) (n : nat) :
  getPtr b = Some blk ->
  tidy b s (mkBinaryData (Some (next_block s)) n, free blk (malloc init s).2).
Proof.
  intros Hp _ _ x Hlive. cbn [fst snd getPtr data_] in *.
  destruct (decide (x = next_block s)) as [-> | Hnew]; [left; reflexivity |].
  right. destruct (decide (blk = x)) as [<- | Hne].
  - rewrite block_live_free_eq in Hlive. discriminate.
  - rewrite block_live_free_ne, block_live_malloc_ne in Hlive by assumption.
    split; [exact Hlive |]. rewrite Hp. intros [= Heq]. contradiction.
Qed.

Lemma tidy_first (b : BinaryData) (s : process) (init : list Z) (n : nat) :
  getPtr b = None ->
  tidy b s (mkBinaryData (Some (next_block s)) n, (malloc init s).2).
Proof.
  intros Hp _ _ x Hlive. cbn [fst snd getPtr data_] in *.
  destruct (decide (x = next_block s)) as [-> | Hnew]; [left; reflexivity |].
  right. rewrite block_live_malloc_ne in Hlive by assumption.
  split; [exact Hlive |]. rewrite Hp. discriminate.
Qed.

Lemma tidy_BinaryData_resize (sz : nat) (b : BinaryData) (s : process) :
  tidy b s (BinaryData_resize sz b s).
Proof.
  unfold BinaryData_resize. destruct (getPtr b) as [blk |] eqn:Hp.
  - destruct (sz <=? length (block_bytes s blk)).
    + destruct (sz <=? getSize b); apply tidy_stay;
        try (cbn [getPtr data_]; symmetry; exact Hp);
        try (intros; reflexivity).
      intros x. apply block_live_update.
    + apply (tidy_move b s blk). exact Hp.
  - destruct (sz =? 0); [apply tidy_refl | apply tidy_first; exact Hp].
Qed.

Lemma tidy_BinaryData_reserve (sz : nat) (b : BinaryData) (s : process) :
  tidy b s (BinaryData_reserve sz b s).
Proof.
  unfold BinaryData_reserve. destruct (getPtr b) as [blk |] eqn:Hp.
  - destruct (sz <=? length (block_bytes s blk)); [apply tidy_refl |].
    apply (tidy_move b s blk). exact Hp.
  - destruct (sz =? 0); [apply tidy_refl | apply tidy_first; exact Hp].
Qed.

Lemma tidy_lockData (b : BinaryData) (s : process) :
  tidy b s (SecureBinaryData.lockData b s).
Proof.
  unfold SecureBinaryData.lockData.
  destruct (0 <? getSize b); [| apply tidy_refl].
  destruct (getPtr b) as [blk |] eqn:Hp; [| apply tidy_refl].
  apply tidy_stay; reflexivity.
Qed.

Lemma tidy_fill (ch : Z) (b : BinaryData) (s : process) :
  tidy b s (BinaryData_fill ch b s).
Proof.
  unfold BinaryData_fill. destruct (0 <? getSize b); [| apply tidy_refl].
  destruct (getPtr b) as [blk |]; [| apply tidy_refl].
  apply tidy_stay; [reflexivity |].
  intros x. apply block_live_update.
Qed.

Lemma tidy_destroy (b : BinaryData) (s : process) :
  tidy b s (SecureBinaryData.destroy b s).
Proof.
  destruct (Nat.eq_dec (getSize b) 0) as [Hz | Hnz].
  - rewrite (destroy_empty s b Hz). apply tidy_refl.
  - intros Ho Hh. destruct (owns_ptr s b Ho ltac:(lia)) as [blk Hp].
    rewrite (destroy_nonempty s b blk Hp ltac:(lia)).
    revert Ho Hh. apply tidy_stay; [reflexivity |].
    intros x. rewrite block_live_munlock. apply block_live_update.
Qed.

Lemma tidy_mutate (m : mutation) (b : BinaryData) (s : process) :
  tidy b s (mutate m b s).
Proof.
  destruct m as [ch | i v | sz | sz |]; cbn [mutate].
  - apply tidy_fill.
  - destruct (getPtr b) as [blk |]; [| apply tidy_refl].
    destruct (i <? getSize b); [| apply tidy_refl].
    apply tidy_stay; [reflexivity |].
    intros x. apply block_live_update.
  - unfold SecureBinaryData.resize.
    destruct (BinaryData_resize sz b s) as [b1 s1] eqn:E.
    apply (tidy_trans b s (b1, s1)).
    + rewrite <- E. apply step_ok_BinaryData_resize.
    + rewrite <- E. apply tidy_BinaryData_resize.
    + apply tidy_lockData.
  - unfold SecureBinaryData.reserve.
    destruct (BinaryData_reserve sz b s) as [b1 s1] eqn:E.
    apply (tidy_trans b s (b1, s1)).
    + rewrite <- E. apply step_ok_BinaryData_reserve.
    + rewrite <- E. apply tidy_BinaryData_reserve.
    + apply tidy_lockData.
  - apply tidy_destroy.
Qed.

Lemma tidy_mutate_all (ms : list mutation) (b : BinaryData) (s : process) :
  tidy b s (mutate_all ms b s).
Proof.
  revert b s. induction ms as [| m ms IH]; intros b s; simpl.
  - apply tidy_refl.
  - destruct (mutate m b s) as [b1 s1] eqn:E.
    apply (tidy_trans b s (b1, s1)).
    + rewrite <- E. apply step_ok_mutate.
    + rewrite <- E. apply tidy_mutate.
    + apply IH.
Qed.

Lemma step_ok_construct (c : constructor) (s : process) :
  step_ok no_buffer s (construct c s).
Proof.
  destruct c; cbn [construct];
    [apply step_ok_create | apply step_ok_from_bytes | apply step_ok_copy].
Qed.

Lemma tidy_copyFrom (src : list Z) (s : process) :
  tidy no_buffer s (BinaryData_copyFrom src s).
Proof.
  unfold BinaryData_copyFrom. destruct (length src =? 0); [apply tidy_refl |].
  apply (tidy_first no_buffer s). reflexivity.
Qed.

Lemma tidy_construct (c : constructor) (s : process) :
  tidy no_buffer s (construct c s).
Proof.
  destruct c as [sz | src | sbd2]; cbn [construct].
  - unfold SecureBinaryData.create.
    destruct (BinaryData_alloc sz s) as [b1 s1] eqn:E.
    apply (tidy_trans no_buffer s (b1, s1)).
    + rewrite <- E. apply step_ok_alloc.
    + rewrite <- E. unfold BinaryData_alloc.
      destruct (sz =? 0); [apply tidy_refl |].
      apply (tidy_first no_buffer s). reflexivity.
    + apply tidy_lockData.
  - unfold SecureBinaryData.from_bytes.
    destruct (BinaryData_copyFrom src s) as [b1 s1] eqn:E.
    apply (tidy_trans no_buffer s (b1, s1)).
    + rewrite <- E. apply step_ok_copyFrom.
    + rewrite <- E. apply tidy_copyFrom.
    + apply tidy_lockData.
  - unfold SecureBinaryData.copy.
    destruct (BinaryData_copyFrom _ s) as [b1 s1] eqn:E.
    apply (tidy_trans no_buffer s (b1, s1)).
    + rewrite <- E. apply step_ok_copyFrom.
    + rewrite <- E. apply tidy_copyFrom.
    + apply tidy_lockData.
Qed.

Lemma step_ok_lifecycle (c : constructor) (ms : list mutation) (s : process) :
  step_ok no_buffer s (lifecycle c ms s).
Proof.
  unfold lifecycle. destruct (construct c s) as [b1 s1] eqn:E.
  apply (step_ok_trans no_buffer s (b1, s1)).
  - rewrite <- E. apply step_ok_construct.
  - apply step_ok_mutate_all.
Qed.

Lemma tidy_lifecycle (c : constructor) (ms : list mutation) (s : process) :
  tidy no_buffer s (lifecycle c ms s).
Proof.
  unfold lifecycle. destruct (construct c s) as [b1 s1] eqn:E.
  apply (tidy_trans no_buffer s (b1, s1)).
  - rewrite <- E. apply step_ok_construct.
  - rewrite <- E. apply tidy_construct.
  - apply tidy_mutate_all.
Qed.

Lemma destroy_same_buffer (b : BinaryData) (s : process) :
  (SecureBinaryData.destroy b s).1 = b.
Proof.
  unfold SecureBinaryData.destroy, BinaryData_fill.
  destruct (0 <? getSize b); [| reflexivity].
  destruct (getPtr b) as [blk |] eqn:Hp; cbv beta iota zeta; rewrite Hp; reflexivity.
Qed.

Lemma dtor_as_free (b : BinaryData) (s : process) :
  SecureBinaryData.dtor b s = BinaryData_dtor b (SecureBinaryData.destroy b s).2.
Proof.
  unfold SecureBinaryData.dtor.
  pose proof (destroy_same_buffer b s) as H.
  destruct (SecureBinaryData.destroy b s) as [b1 s1]. simpl in H. subst b1.
  reflexivity.
Qed.

(** What the destructor leaves of a buffer that was built and used in a
    process [s0]: seen from [s0], where the buffer did not exist yet. *)
Lemma dtor_after (s0 : process) (r : BinaryData * process) :
  heap_ok s0 -> step_ok no_buffer s0 r -> tidy no_buffer s0 r ->
  let s2 := SecureBinaryData.dtor r.1 r.2 in
  (forall blk, next_block s0 <= blk -> block_live s2 blk = false) /\
  (forall blk, blk < next_block s0 ->
     block_bytes s2 blk = block_bytes s0 blk /\
     block_live s2 blk = block_live s0 blk).
Proof.
  intros Hh Hstep Htidy. cbv zeta.
  pose proof (step_ok_trans no_buffer s0 r _ Hstep (step_ok_destroy r.1 r.2)) as Hstep2.
  pose proof (tidy_trans no_buffer s0 r _ Hstep Htidy (tidy_destroy r.1 r.2)) as Htidy2.
  rewrite dtor_as_free.
  pose proof (destroy_same_buffer r.1 r.2) as Hsame.
  destruct (SecureBinaryData.destroy r.1 r.2) as [b1 s1]. cbn [fst snd] in *. subst b1.
  destruct (Hstep2 (owns_no_buffer s0) Hh) as (Ho1 & Hh1 & Hn1 & Hf1 & Hp1).
  pose proof (Htidy2 (owns_no_buffer s0) Hh) as Hl1.
  cbn [fst snd] in *.
  assert (Hnew : forall blk, getPtr r.1 = Some blk -> next_block s0 <= blk).
  { intros blk Hp. destruct Hp1 as [Heq | (blk' & Heq & Hge)].
    - rewrite Hp in Heq. discriminate.
    - rewrite Hp in Heq. injection Heq as <-. exact Hge. }
  assert (Hold : forall blk, block_live s0 blk = true -> blk < next_block s0).
  { intros blk Hlive. apply Hh. apply block_live_is_Some. exact Hlive. }
  unfold BinaryData_dtor. split.
  - intros blk Hge. destruct (block_live _ blk) eqn:Hlive; [| reflexivity].
    exfalso. destruct (getPtr r.1) as [p |] eqn:Hp.
    + destruct (decide (p = blk)) as [-> | Hne].
      * rewrite block_live_free_eq in Hlive. discriminate.
      * rewrite block_live_free_ne in Hlive by exact Hne.
        destruct (Hl1 blk Hlive) as [[= Heq] | [Hlive0 _]]; [contradiction |].
        specialize (Hold blk Hlive0). lia.
    + destruct (Hl1 blk Hlive) as [Heq | [Hlive0 _]]; [discriminate |].
      specialize (Hold blk Hlive0). lia.
  - intros blk Hlt.
    assert (Hne : getPtr no_buffer <> Some blk) by discriminate.
    destruct (Hf1 blk Hne Hlt) as [Hb Hl].
    destruct (getPtr r.1) as [p |] eqn:Hp.
    + specialize (Hnew p eq_refl).
      rewrite block_bytes_free, block_live_free_ne by lia.
      split; [exact Hb | exact Hl].
    + split; [exact Hb | exact Hl].
Qed.

(** X9: a buffer's whole life is confined to its own blocks.  Whatever
    constructor builds it and whatever sequence of [fill], stores,
    [resize], [reserve] and [destroy] follows, the buffer remains a valid
    buffer that keeps at most one block allocated; once the destructor has
    run, every block allocated on the way is released, and the blocks that
    existed before have their bytes and their allocation state exactly as
    they were. *)
Theorem lifetime_is_confined (c : constructor) (ms : list mutation) (s : process) :
  heap_ok s ->
  let b := (lifecycle c ms s).1 in
  let s1 := (lifecycle c ms s).2 in
  let s2 := lifetime c ms s in
  owns s1 b /\ heap_ok s1 /\
  (forall blk, next_block s <= blk -> block_live s1 blk = true -> getPtr b = Some blk) /\
  (forall blk, next_block s <= blk -> block_live s2 blk = false) /\
  (forall blk, blk < next_block s ->
     block_bytes s2 blk = block_bytes s blk /\
     block_live s2 blk = block_live s blk).
Proof.
  intros Hh. cbv zeta.
  pose proof (step_ok_lifecycle c ms s) as Hstep.
  pose proof (tidy_lifecycle c ms s) as Htidy.
  destruct (Hstep (owns_no_buffer s) Hh) as (Ho1 & Hh1 & _).
  pose proof (Htidy (owns_no_buffer s) Hh) as Hl1.
  pose proof (dtor_after s (lifecycle c ms s) Hh Hstep Htidy) as Hd.
  cbv zeta in Hd. unfold lifetime.
  destruct (lifecycle c ms s) as [b1 s1]. cbn [fst snd] in *.
  split; [exact Ho1 |]. split; [exact Hh1 |]. split; [| exact Hd].
  intros blk Hge Hlive.
  destruct (Hl1 blk Hlive) as [Hp | [Hlive0 _]]; [exact Hp |].
  assert (blk < next_block s)
    by (apply Hh; apply block_live_is_Some; exact Hlive0).
  lia.
Qed.

Lemma lifetime_is_confined_witness :
  block_live (lifetime (CtorBytes [1; 2; 3; 4]%Z) [MResize 8; MFill 7] (boot grant_all)) 0
  = false /\
  block_live (lifetime (CtorBytes [1; 2; 3; 4]%Z) [MResize 8; MFill 7] (boot grant_all)) 1
  = false.
Proof.
  pose proof (lifetime_is_confined (CtorBytes [1; 2; 3; 4]%Z) [MResize 8; MFill 7]
                (boot grant_all) (heap_ok_boot grant_all)) as H.
  cbv zeta in H. destruct H as (_ & _ & _ & Hfree & _).
  split; apply Hfree; simpl; lia.
Defined.

(** ** Plain copies of a secret *)

Lemma copyFrom_contents (src : list Z) (s : process) :
  contents (BinaryData_copyFrom src s).2 (BinaryData_copyFrom src s).1 = src /\
  locked (BinaryData_copyFrom src s).2 = locked s /\
  (forall blk, getPtr (BinaryData_copyFrom src s).1 = Some blk -> blk = next_block s).
Proof.
  destruct (Nat.eq_dec (length src) 0) as [Hz | Hnz].
  - unfold BinaryData_copyFrom. rewrite Hz. cbn [Nat.eqb fst snd].
    destruct src; [| discriminate].
    split; [reflexivity |]. split; [reflexivity | discriminate].
  - rewrite copyFrom_nonempty by lia. cbn [fst snd].
    split; [| split; [reflexivity | intros blk [= <-]; reflexivity]].
    unfold contents, load. cbn [getPtr getSize data_ nBytes_].
    rewrite block_bytes_malloc_eq. apply take_ge. lia.
Qed.

(** A buffer [y] that stands by while another buffer is used and then
    destroyed. *)
Lemma bystander (b y : BinaryData) (s : process) (r : BinaryData * process) :
  step_ok b s r -> owns s b -> heap_ok s -> owns s y -> separate b y ->
  let s2 := SecureBinaryData.dtor r.1 r.2 in
  contents s2 y = contents s y /\ owns s2 y.
Proof.
  intros Hstep Ho Hh Hy Hsep. cbv zeta.
  pose proof (step_ok_trans b s r _ Hstep (step_ok_destroy r.1 r.2)) as Hstep2.
  rewrite dtor_as_free.
  pose proof (destroy_same_buffer r.1 r.2) as Hsame.
  destruct (SecureBinaryData.destroy r.1 r.2) as [b1 s1]. cbn [fst snd] in *. subst b1.
  destruct (step_ok_frame b y s _ Hstep2 Ho Hh Hy Hsep) as (Hc & Hoy & Hsep1).
  cbn [fst snd] in *.
  unfold BinaryData_dtor. destruct (getPtr r.1) as [p |] eqn:Hp;
    [| split; [exact Hc | exact Hoy]].
  assert (Hne : getPtr y <> Some p) by exact (Hsep1 p Hp).
  split.
  - rewrite <- Hc. unfold contents, load. destruct (getPtr y) as [q |]; [| reflexivity].
    rewrite block_bytes_free. reflexivity.
  - unfold owns in *. destruct (getPtr y) as [q |]; [| exact Hoy].
    rewrite block_bytes_free, block_live_free_ne; [exact Hoy |].
    intros ->. apply Hne. reflexivity.
Qed.

(** X10: a plain copy outlives the secret it was taken from.  After
    [getRawCopy()], whatever is then done to the secure buffer, up to and
    including its destructor and the wipe that goes with it, the copy is
    still allocated, has the length of the secret and still holds every
    byte of it. *)
Theorem raw_copy_outlives (ms : list mutation) (s : process) (b : BinaryData) :
  owns s b -> heap_ok s ->
  let r := (raw_copy_then ms b s).1 in
  let s2 := (raw_copy_then ms b s).2 in
  contents s2 r = contents s b /\ owns s2 r /\ getSize r = getSize b /\
  (forall blk, getPtr r = Some blk -> block_live s2 blk = true).
Proof.
  intros Ho Hh. cbv zeta. unfold raw_copy_then, SecureBinaryData.getRawCopy.
  fold (contents s b).
  pose proof (step_ok_copyFrom (contents s b) s) as Hstep0.
  destruct (copyFrom_contents (contents s b) s) as (Hc0 & _ & _).
  assert (Hsz0 : getSize (BinaryData_copyFrom (contents s b) s).1 = getSize b).
  { pose proof (length_contents s b Ho) as Hlen. unfold BinaryData_copyFrom.
    destruct (length (contents s b) =? 0) eqn:E; cbn [fst snd getSize nBytes_].
    - apply Nat.eqb_eq in E. lia.
    - exact Hlen. }
  destruct (Hstep0 (owns_no_buffer s) Hh) as (Hor & Hh1 & _).
  destruct (step_ok_frame no_buffer b s _ Hstep0 (owns_no_buffer s) Hh Ho
              (separate_no_buffer b)) as (_ & Hob & Hsep).
  destruct (BinaryData_copyFrom (contents s b) s) as [r s1]. cbn [fst snd] in *.
  pose proof (bystander b r s1 (mutate_all ms b s1) (step_ok_mutate_all ms b s1)
                Hob Hh1 Hor (separate_sym _ _ Hsep)) as H.
  cbv zeta in H. destruct (mutate_all ms b s1) as [b1 s2]. cbn [fst snd] in *.
  destruct H as (Hc & Hor2).
  split; [rewrite Hc; exact Hc0 |]. split; [exact Hor2 |]. split; [exact Hsz0 |].
  intros blk Hp. apply (owns_live _ r blk Hor2 Hp).
Qed.

Lemma raw_copy_outlives_witness :
  contents (raw_copy_then [MDestroy] secret4.1 secret4.2).2
           (raw_copy_then [MDestroy] secret4.1 secret4.2).1
  = [1; 2; 3; 4]%Z.
Proof.
  pose proof (raw_copy_outlives [MDestroy] secret4.2 secret4.1
                (proj1 secret4_ok) (proj2 secret4_ok)) as H.
  cbv zeta in H. exact (proj1 H).
Defined.
